(** * Video-game sales dashboards: the CSV ingestion and aggregation pipeline

    A shallow embedding of the three Streamlit scripts of the repository
    ([stream_app.py], [app_2.py], [app.py]) and of the dataframe operations
    they call, with the properties of the pipeline proved over it.

    Numbers.  A numeric cell (pandas [int64]/[float64]) holds a finite
    number, the exact rational [Qc] it stands for; a table holds no
    infinity.  How the library reads a text as a number is a parameter of
    the development ([ToNumeric]), as the parser of the file is.  Sums are
    sums of rationals: the rounding of a floating-point addition is not
    part of the model.

    Tables.  A [DataFrame] is its column labels and its rows in order; a row
    maps a column label to a cell, and a missing value is the cell [NaN]. *)

From Stdlib Require Import ZArith QArith Qcanon String Ascii.
From Stdlib Require Import Strings.Byte.
From stdpp Require Import numbers base list gmap strings sorting.

#[local] Set Warnings "-clear-no-such-hyp".

Local Open Scope string_scope.
Local Open Scope list_scope.
Local Open Scope Qc_scope.

(** ** The dataframe library, as far as the scripts use it *)

Module Pandas.

(** A scalar of a parsed table: missing, a number, or text. *)
Inductive cell : Type :=
| NaN
| Num (q : Qc)
| Str (s : string).

Global Instance cell_eq_dec : EqDecision cell.
Proof. solve_decision. Defined.

Global Instance cell_inhabited : Inhabited cell := populate NaN.

(** A table: column labels in order, rows in order. *)
Record DataFrame : Type := mkDF {
  columns : list string;
  rows : list (gmap string cell)
}.

(** [df.empty]: some axis has length zero. *)
Definition empty (df : DataFrame) : bool :=
  bool_decide (columns df = [] ∨ rows df = []).

(** *** Numeric text *)

Definition digit_of (a : ascii) : option Z :=
  let n := Z.of_N (N_of_ascii a) in
  if bool_decide (48 ≤ n ≤ 57)%Z then Some (n - 48)%Z else None.

(** The longest prefix of decimal digits, most significant first, and the
    rest of the text. *)
Fixpoint read_digits (s : string) : list Z * string :=
  match s with
  | EmptyString => ([], s)
  | String a t =>
      match digit_of a with
      | Some d => let '(ds, r) := read_digits t in (d :: ds, r)
      | None => ([], s)
      end
  end.

Definition digits_value (ds : list Z) : Z :=
  foldl (λ acc d, 10 * acc + d)%Z 0%Z ds.

Definition read_sign (s : string) : bool * string :=
  match s with
  | String "-" t => (true, t)
  | String "+" t => (false, t)
  | _ => (false, s)
  end.

(** A plain decimal literal: optional sign, digits, optional point and
    digits, at least one digit in all, nothing else; and its value. *)
Definition decimal_literal (s : string) : option Qc :=
  let '(neg, s1) := read_sign s in
  let '(ip, s2) := read_digits s1 in
  let '(fp, s3) :=
    match s2 with
    | String "." t => read_digits t
    | _ => ([], s2)
    end in
  match s3, (ip ++ fp) with
  | EmptyString, _ :: _ =>
      let m := digits_value (ip ++ fp) in
      let q := Q2Qc (Qmake m (Z.to_pos (10 ^ Z.of_nat (length fp)))) in
      Some (if neg then - q else q)
  | _, _ => None
  end.

Definition is_digit (a : ascii) : bool :=
  match digit_of a with Some _ => true | None => false end.

Definition count_digits (s : string) : nat :=
  length (filter (λ a, is_digit a = true) (list_ascii_of_string s)).

Definition has_digit (s : string) : bool :=
  existsb is_digit (list_ascii_of_string s).

(** The letter all the library's words for an infinity have. *)
Definition has_i (s : string) : bool :=
  existsb (λ a, bool_decide (a = "i"%char ∨ a = "I"%char))
          (list_ascii_of_string s).

(** The numbers of [float64]: an integer below [2^53] in size, scaled by a
    power of two within the range of the exponent. *)
Definition is_float64 (x : Qc) : Prop :=
  ∃ (m : Z) (a b : nat),
    (Z.abs m < 2 ^ 53)%Z ∧ (a ≤ 1074)%nat ∧ (b ≤ 971)%nat
    ∧ x * Qc_of_Z (2 ^ Z.of_nat a) = Qc_of_Z (m * 2 ^ Z.of_nat b).

(** What the library makes of a text it is to read as a number: nothing, a
    finite number, or an infinity. *)
Inductive parsed : Type :=
| unreadable
| finite (q : Qc)
| infinite.

(** [pd.to_numeric] on a text is the library's business.  Of the reading,
    the development takes this much for granted: a text with no digit in it
    and without the letter of ["inf"] is no number; and a plain decimal
    literal of at most fifteen digits is read as a finite number that no
    [float64] lies closer to (when the literal is itself a [float64], as
    that). *)
Class ToNumeric : Type := {
  read_text : string → parsed;
  read_text_plain :
    ∀ s, has_digit s = false → has_i s = false → read_text s = unreadable;
  read_text_decimal :
    ∀ s d, decimal_literal s = Some d → (count_digits s ≤ 15)%nat →
      ∃ q, read_text s = finite q
           ∧ ∀ f, is_float64 f → (f ≤ d → f ≤ q) ∧ (d ≤ f → q ≤ f)
}.

(** [pd.to_numeric(x, errors="coerce")] on one cell: a number stays, a text
    is read, and a missing value stays missing. *)
Definition coerce `{ToNumeric} (c : cell) : parsed :=
  match c with
  | NaN => unreadable
  | Num q => finite q
  | Str s => read_text s
  end.

(** The cell that comes of it: what could not be read is [NaN].  An
    infinity is a float that no cell here holds; [reads_infinite] tells of
    it, and the callers say what becomes of it. *)
Definition to_numeric `{ToNumeric} (c : cell) : cell :=
  match coerce c with
  | finite q => Num q
  | _ => NaN
  end.

Definition reads_infinite `{ToNumeric} (c : cell) : bool :=
  match coerce c with
  | infinite => true
  | _ => false
  end.

Definition isna (c : cell) : bool :=
  match c with NaN => true | _ => false end.

(** Truncation toward zero, the conversion of a float to an integer. *)
Definition trunc (q : Qc) : Z := Z.quot (Qnum q) (Zpos (Qden q)).

(** A float that is cut to an integer outside the range of [int64] comes
    out as the least [int64]. *)
Definition int64 (z : Z) : Z :=
  if bool_decide (- 2 ^ 63 ≤ z < 2 ^ 63)%Z then z else (- 2 ^ 63)%Z.

(** [.astype(int)] on one cell of a numeric column of finite values. *)
Definition astype_int (c : cell) : cell :=
  match c with
  | Num q => Num (Qc_of_Z (int64 (trunc q)))
  | _ => c
  end.

(** [.fillna(v)] on one cell. *)
Definition fillna (v : Qc) (c : cell) : cell :=
  match c with NaN => Num v | _ => c end.

(** *** Order of values

    Numbers by value, text by code point from the left (so upper case comes
    before lower case), numbers before text, and a missing value after
    everything, where ascending sorts put it. *)
Definition cell_compare (a b : cell) : comparison :=
  match a, b with
  | NaN, NaN => Eq
  | NaN, _ => Gt
  | _, NaN => Lt
  | Num p, Num q => (p ?= q)%Qc
  | Num _, Str _ => Lt
  | Str _, Num _ => Gt
  | Str s, Str t => String.compare s t
  end.

(** Tuples of values, as the keys of a grouping on several columns: the
    first column decides, the next one breaks its ties. *)
Fixpoint key_compare (k1 k2 : list cell) : comparison :=
  match k1, k2 with
  | [], [] => Eq
  | [], _ :: _ => Lt
  | _ :: _, [] => Gt
  | a :: k1, b :: k2 =>
      match cell_compare a b with
      | Eq => key_compare k1 k2
      | c => c
      end
  end.

Definition not_gt (c : comparison) : bool :=
  match c with Gt => false | _ => true end.

Definition cell_le (a b : cell) : Prop := not_gt (cell_compare a b).
Definition cell_lt (a b : cell) : Prop := cell_compare a b = Lt.
Definition key_le (k1 k2 : list cell) : Prop := not_gt (key_compare k1 k2).
Definition key_lt (k1 k2 : list cell) : Prop := key_compare k1 k2 = Lt.

Global Instance cell_le_dec : RelDecision cell_le.
Proof. intros a b. unfold cell_le. apply _. Defined.

Global Instance key_le_dec : RelDecision key_le.
Proof. intros a b. unfold key_le. apply _. Defined.

(** *** Sorting on one column

    [sort_values] on a single column sorts with numpy's [argsort] of kind
    ["quicksort"], the default, which the scripts never override.  The library
    promises a sorted rearrangement and nothing about the order of equal
    keys (only ["mergesort"] and ["stable"] are stable), so the algorithm is
    an interface: any sort that returns a sorted permutation. *)
Class Quicksort : Type := {
  quicksort : ∀ {A : Type} (R : relation A) `{!RelDecision R}, list A → list A;
  quicksort_Permutation :
    ∀ {A : Type} (R : relation A) `{!RelDecision R} (l : list A),
      quicksort R l ≡ₚ l;
  quicksort_StronglySorted :
    ∀ {A : Type} (R : relation A) `{!RelDecision R} (l : list A),
      Total R → Transitive R → StronglySorted R (quicksort R l)
}.

(** *** Operations on tables *)

(** [df[c] = f(df[c])]: the column is replaced cell by cell (and added at the
    end when the table did not have it). *)
Definition assign (c : string) (f : cell → cell) (df : DataFrame) : DataFrame :=
  mkDF (if decide (c ∈ columns df) then columns df else columns df ++ [c])
       ((λ r, <[c := f (r !!! c)]> r) <$> rows df).

(** [df[mask]]: the rows the mask is true at, in order. *)
Definition select (mask : gmap string cell → bool) (df : DataFrame) : DataFrame :=
  mkDF (columns df) (filter (λ r, mask r) (rows df)).

Definition notna_all (subset : list string) (r : gmap string cell) : bool :=
  forallb (λ c, negb (isna (r !!! c))) subset.

(** [df.dropna(subset=...)]: the rows with no missing value in [subset]. *)
Definition dropna (subset : list string) (df : DataFrame) : DataFrame :=
  select (notna_all subset) df.

(** [series >= z] and [series <= z] at one cell; a missing value compares
    false. *)
Definition ge_int (c : cell) (z : Z) : bool :=
  match c with Num q => bool_decide (Qc_of_Z z ≤ q) | _ => false end.

Definition le_int (c : cell) (z : Z) : bool :=
  match c with Num q => bool_decide (q ≤ Qc_of_Z z) | _ => false end.

(** [series.isin(values)] at one cell. *)
Definition isin (values : list cell) (c : cell) : bool :=
  bool_decide (c ∈ values).

(** [df.head(n)]. *)
Definition head (n : nat) (df : DataFrame) : DataFrame :=
  mkDF (columns df) (take n (rows df)).

(** [df[c].tolist()]. *)
Definition tolist (c : string) (df : DataFrame) : list cell :=
  (λ r, r !!! c) <$> rows df.

(** [df.rename(columns={old: new})]. *)
Definition rename_row (old new : string) (r : gmap string cell) : gmap string cell :=
  match r !! old with
  | Some v => <[new := v]> (delete old r)
  | None => r
  end.

Definition rename (old new : string) (df : DataFrame) : DataFrame :=
  mkDF ((λ c, if decide (c = old) then new else c) <$> columns df)
       (rename_row old new <$> rows df).

(** The sum of a numeric column, missing values skipped. *)
Definition number (c : cell) : Qc :=
  match c with Num q => q | _ => 0 end.

Definition sum_cells (cs : list cell) : Qc :=
  foldr (λ c acc, number c + acc) 0 cs.

(** The key of a row for a grouping on the columns [by_]. *)
Definition key_of (by_ : list string) (r : gmap string cell) : list cell :=
  (λ c, r !!! c) <$> by_.

Definition key_present (k : list cell) : bool :=
  forallb (λ c, negb (isna c)) k.

(** The groups of [df.groupby(by)]: the distinct keys that occur, ascending
    ([sort=True]); rows with a missing key belong to no group
    ([dropna=True]). *)
Definition group_keys (by_ : list string) (df : DataFrame) : list (list cell) :=
  merge_sort key_le
    (remove_dups (filter (λ k, key_present k) (key_of by_ <$> rows df))).

Definition group (by_ : list string) (k : list cell) (df : DataFrame)
  : list (gmap string cell) :=
  filter (λ r, key_of by_ r = k) (rows df).

(** The sum of [col] over the group of key [k]. *)
Definition group_sum (by_ : list string) (col : string) (k : list cell)
    (df : DataFrame) : Qc :=
  sum_cells ((λ r, r !!! col) <$> group by_ k df).

(** The row of a group in the result: its key in the columns [by_], its
    sum in [col]. *)
Definition group_row (by_ : list string) (col : string) (k : list cell)
    (total : Qc) : gmap string cell :=
  list_to_map (zip by_ k ++ [(col, Num total)]).

(** [df.groupby(by, as_index=False)[col].sum()]: one row per group, holding
    the key and the sum of [col] over the group. *)
Definition groupby_sum (by_ : list string) (col : string) (df : DataFrame)
  : DataFrame :=
  mkDF (by_ ++ [col])
       ((λ k, group_row by_ col k (group_sum by_ col k df))
          <$> group_keys by_ df).

(** [df.sort_values(by)] on one column: the rows with a key are sorted, the
    rows with a missing key follow in their own order
    ([na_position="last"]). *)
Definition column_order (by_ : string) (ascending : bool)
  : relation (gmap string cell) :=
  λ r1 r2, if ascending then cell_le (r1 !!! by_) (r2 !!! by_)
           else cell_le (r2 !!! by_) (r1 !!! by_).

Global Instance column_order_dec by_ ascending :
  RelDecision (column_order by_ ascending).
Proof. intros r1 r2. unfold column_order. destruct ascending; apply _. Defined.

Definition sort_values `{Quicksort} (by_ : string) (ascending : bool)
    (df : DataFrame) : DataFrame :=
  mkDF (columns df)
       (quicksort (column_order by_ ascending)
                  (filter (λ r, negb (isna (r !!! by_))) (rows df))
        ++ filter (λ r, isna (r !!! by_)) (rows df)).

(** Insertion into a list sorted by [R], after the elements it ties with. *)
Fixpoint insert_sorted {A} (R : relation A) `{!RelDecision R} (x : A)
    (l : list A) : list A :=
  match l with
  | [] => [x]
  | y :: l' => if decide (R y x) then y :: insert_sorted R x l' else x :: l
  end.

(** A stable sort. *)
Definition stable_sort {A} (R : relation A) `{!RelDecision R} (l : list A)
  : list A :=
  foldl (λ acc x, insert_sorted R x acc) [] l.

(** [df.sort_values([c1; c2; ...])] on several columns: a lexicographic,
    stable sort ([lexsort]). *)
Definition columns_order (by_ : list string) : relation (gmap string cell) :=
  λ r1 r2, key_le (key_of by_ r1) (key_of by_ r2).

Global Instance columns_order_dec by_ : RelDecision (columns_order by_).
Proof. intros r1 r2. unfold columns_order. apply _. Defined.

Definition sort_values_by (by_ : list string) (df : DataFrame) : DataFrame :=
  mkDF (columns df) (stable_sort (columns_order by_) (rows df)).

(** A pivoted table: row labels, column labels, and the cells row by row. *)
Record PivotTable : Type := mkPivot {
  index : list cell;
  labels : list cell;
  values : list (list cell)
}.

(** [df.pivot_table(index=i, columns=c, values=v, aggfunc="sum",
    fill_value=fill)]: the table is grouped on [(i, c)] and summed; the
    distinct [i] become the rows and the distinct [c] the columns, both
    ascending; a pair with no group gets [fill]. *)
Definition pivot_cell (i c v : string) (fill : Qc) (g : DataFrame)
    (ki kc : cell) : cell :=
  match filter (λ r, key_of [i; c] r = [ki; kc]) (rows g) with
  | r :: _ => r !!! v
  | [] => Num fill
  end.

Definition pivot_table (i c v : string) (fill : Qc) (df : DataFrame)
  : PivotTable :=
  let g := groupby_sum [i; c] v df in
  let idx := merge_sort cell_le (remove_dups (tolist i g)) in
  let cols := merge_sort cell_le (remove_dups (tolist c g)) in
  mkPivot idx cols ((λ ki, (λ kc, pivot_cell i c v fill g ki kc) <$> cols) <$> idx).

(** [pivot.sort_index()]: the rows sorted by their label (kind
    ["quicksort"] again). *)
Definition label_order : relation (cell * list cell) :=
  λ a b, cell_le a.1 b.1.

Global Instance label_order_dec : RelDecision label_order.
Proof. intros a b. unfold label_order. apply _. Defined.

Definition sort_index `{Quicksort} (p : PivotTable) : PivotTable :=
  let sorted := quicksort label_order (zip (index p) (values p)) in
  mkPivot (sorted.*1) (labels p) (sorted.*2).

(** [df.groupby(by, as_index=False)[cols].sum()] on a list of columns: one
    row per group, holding the key and, for every column of [cols], its sum
    over the group. *)
Definition sums_row (by_ cols : list string) (k : list cell) (df : DataFrame)
  : gmap string cell :=
  list_to_map (zip by_ k ++ ((λ c, (c, Num (group_sum by_ c k df))) <$> cols)).

Definition groupby_sums (by_ cols : list string) (df : DataFrame) : DataFrame :=
  mkDF (by_ ++ cols) ((λ k, sums_row by_ cols k df) <$> group_keys by_ df).

(** [df.melt(id, var_name=..., value_name=...)]: the table is unpivoted; for
    every column other than [id], in the order of the columns, and every row,
    in the order of the rows, there is a row holding the [id] of the row, the
    label of the column and the cell. *)
Definition melt_row (id var_name value_name : string) (v : string)
    (r : gmap string cell) : gmap string cell :=
  list_to_map [(id, r !!! id); (var_name, Str v); (value_name, r !!! v)].

Definition melt (id var_name value_name : string) (df : DataFrame) : DataFrame :=
  mkDF [id; var_name; value_name]
       (v ← filter (λ c, c ≠ id) (columns df);
        melt_row id var_name value_name v <$> rows df).

(** [df[c].dropna().unique().tolist()]: the distinct values of a column that
    are not missing. *)
Definition unique_notna (c : string) (df : DataFrame) : list cell :=
  remove_dups (filter (λ x, negb (isna x)) (tolist c df)).

End Pandas.

Export Pandas.

(** ** The file reader the scripts call *)

Module IO.

Inductive encoding : Type := utf_8 | latin_1.

(** The outcome of a call that may raise an exception. *)
Inductive result (A : Type) : Type :=
| Returned (a : A)
| Raised (e : string).
Global Arguments Returned {A} a.
Global Arguments Raised {A} e.

(** [pd.read_csv(io.BytesIO(raw), encoding=enc)]; [None] stands for a call
    without the [encoding] argument. *)
Definition reader : Type := list byte → option encoding → result DataFrame.

(** An uploaded file: its bytes and the position of its cursor. *)
Record UploadedFile : Type := mkFile {
  content : list byte;
  position : nat
}.

(** [f.read()]: the bytes from the cursor on; the cursor ends after them. *)
Definition read (f : UploadedFile) : list byte * UploadedFile :=
  (drop (position f) (content f), mkFile (content f) (length (content f))).

(** [f.seek(p)]. *)
Definition seek (p : nat) (f : UploadedFile) : UploadedFile :=
  mkFile (content f) p.

End IO.

Export IO.

(** ** The built-in functions the scripts call *)

Module Builtins.

Definition is_text (c : cell) : bool :=
  match c with Str _ => true | _ => false end.

(** [sorted(values)] on values without missing ones: numbers compare with
    numbers and text with text; a list that holds both has no order, and the
    comparison raises [TypeError]. *)
Definition sorted (values : list cell) : result (list cell) :=
  if existsb is_text values && existsb (λ c, negb (is_text c)) values
  then Raised "TypeError"
  else Returned (merge_sort cell_le values).

End Builtins.

Export Builtins.

(** ** stream_app.py *)

Module StreamApp.

Section Script.

Context (read_csv : reader) `{Quicksort} `{ToNumeric}.

(** The [for enc in (...)] loop of [load_csv]: the first encoding whose parse
    returns ends the loop; an exception moves on to the next.  The second
    component lists the calls made, in order. *)
Fixpoint try_encodings (raw : list byte) (encs : list encoding)
  : option DataFrame * list (option encoding) :=
  match encs with
  | [] => (None, [])
  | enc :: encs' =>
      match read_csv raw (Some enc) with
      | Returned df => (Some df, [Some enc])
      | Raised _ =>
          let '(r, calls) := try_encodings raw encs' in (r, Some enc :: calls)
      end
  end.

(** [load_csv]: the result, the file as it is left, and the calls made to
    [read_csv]. *)
Definition load_csv (uploaded_file : UploadedFile)
  : result DataFrame * UploadedFile * list (option encoding) :=
  let '(raw, f) := read uploaded_file in
  let f := seek 0 f in
  match try_encodings raw [utf_8; latin_1] with
  | (Some df, calls) => (Returned df, f, calls)
  | (None, calls) => (read_csv raw None, f, (calls ++ [None]))
  end.

Definition required : list string := ["Platform"; "Year"; "Global_Sales"].

(** [ensure_columns]: the required columns the table lacks. *)
Definition ensure_columns (df : DataFrame) : gset string :=
  list_to_set required ∖ list_to_set (columns df).

Definition sales_columns : list string :=
  ["NA_Sales"; "EU_Sales"; "JP_Sales"; "Other_Sales"; "Global_Sales"].

(** [clean_df]: the table it returns, when it returns. *)
Definition clean_df (df : DataFrame) : DataFrame :=
  let out := df in
  let out := assign "Year" to_numeric out in
  let out := dropna ["Year"; "Platform"; "Global_Sales"] out in
  let out := assign "Year" astype_int out in
  let sales_cols := filter (λ c, c ∈ columns out) sales_columns in
  foldl (λ out c, assign c (λ x, fillna 0 (to_numeric x)) out) out sales_cols.

(** The one statement of [clean_df] that can raise is the conversion of the
    years to integers: it does when a year that [dropna] has left in the
    table, its row having a platform and global sales, is an infinity. *)
Definition clean_df_raises (df : DataFrame) : bool :=
  existsb (λ r, reads_infinite (r !!! "Year")
                && notna_all ["Platform"; "Global_Sales"] r)
          (rows df).

(** A call of [clean_df]. *)
Definition clean_df_call (df : DataFrame) : result DataFrame :=
  if clean_df_raises df then Raised "IntCastingNaNError"
  else Returned (clean_df df).

(** The ranking both [top_platforms] and the bar chart compute: the sum of
    [Global_Sales] per platform, largest first, the first [n] of them. *)
Definition rank (n : nat) (df : DataFrame) : DataFrame :=
  head n (sort_values "Global_Sales" false
            (groupby_sum ["Platform"] "Global_Sales" df)).

(** [top_platforms]. *)
Definition top_platforms (df : DataFrame) (n : nat) : list cell :=
  tolist "Platform" (rank n df).

(** The filter: the year range, then the platforms when some are selected. *)
Definition fdf (y0 y1 : Z) (selected_platforms : list cell) (df : DataFrame)
  : DataFrame :=
  let fdf := select (λ r, ge_int (r !!! "Year") y0 && le_int (r !!! "Year") y1) df in
  match selected_platforms with
  | [] => fdf
  | _ :: _ => select (λ r, isin selected_platforms (r !!! "Platform")) fdf
  end.

Definition by_year (fdf : DataFrame) : DataFrame :=
  sort_values "Year" true (groupby_sum ["Year"] "Global_Sales" fdf).

Definition by_year_platform (fdf : DataFrame) : DataFrame :=
  sort_values_by ["Year"; "Platform"]
    (groupby_sum ["Year"; "Platform"] "Global_Sales" fdf).

Definition top_plat (fdf : DataFrame) : DataFrame := rank 12 fdf.

(** What the user has set in the sidebar; [None] is a widget left at its
    default. *)
Record Widgets : Type := mkWidgets {
  year_range : option (Z * Z);
  selected_platforms : option (list cell)
}.

(** The messages the script stops with. *)
Inductive Message : Type :=
| info_upload
| error_missing (missing : gset string) (detected : list string)
| warning_no_valid_data
| warning_no_data.

Inductive Level : Type := info | warning | error.

Definition level (m : Message) : Level :=
  match m with
  | info_upload => info
  | error_missing _ _ => error
  | warning_no_valid_data | warning_no_data => warning
  end.

(** The tables behind the charts. *)
Record Charts : Type := mkCharts {
  chart_total : DataFrame;
  chart_bar : DataFrame;
  chart_lines : DataFrame
}.

Definition year_values (df : DataFrame) : list Z :=
  (λ r, trunc (number (r !!! "Year"))) <$> rows df.

Definition minimum (zs : list Z) : Z :=
  match zs with [] => 0%Z | z :: zs' => foldr Z.min z zs' end.

Definition maximum (zs : list Z) : Z :=
  match zs with [] => 0%Z | z :: zs' => foldr Z.max z zs' end.

(** The breakdown by region: the regional columns the table has, their sums
    by year, and the same in long form for the stacked chart. *)
Definition region_columns : list string :=
  ["NA_Sales"; "EU_Sales"; "JP_Sales"; "Other_Sales"].

Definition region_cols (fdf : DataFrame) : list string :=
  filter (λ c, c ∈ columns fdf) region_columns.

Definition by_year_regions (fdf : DataFrame) : option DataFrame :=
  match region_cols fdf with
  | [] => None
  | _ :: _ =>
      Some (sort_values "Year" true
              (groupby_sums ["Year"] (region_cols fdf) fdf))
  end.

Definition by_year_regions_long (fdf : DataFrame) : option DataFrame :=
  melt "Year" "Región" "Ventas" <$> by_year_regions fdf.

(** What the region panel shows: nothing when the box is not ticked, a note
    when the file has no regional column, the stacked chart otherwise. *)
Inductive RegionPanel : Type :=
| panel_hidden
| panel_no_region_columns
| panel_chart (long : DataFrame).

Definition region_panel (show_region_breakdown : bool) (fdf : DataFrame)
  : RegionPanel :=
  if show_region_breakdown then
    match by_year_regions_long fdf with
    | None => panel_no_region_columns
    | Some long => panel_chart long
    end
  else panel_hidden.

(** The four figures above the charts: the range of years, the number of
    selected platforms ([None] reads "Todas"), the number of filtered rows
    and the sum of the yearly totals. *)
Record KPIs : Type := mkKPIs {
  kpi_years : Z * Z;
  kpi_platforms : option nat;
  kpi_records : nat;
  kpi_sales : Qc
}.

Definition kpis (y0 y1 : Z) (selected_platforms : list cell) (fdf : DataFrame)
  : KPIs :=
  mkKPIs (y0, y1)
         (match selected_platforms with
          | [] => None
          | _ :: _ => Some (length selected_platforms)
          end)
         (length (rows fdf))
         (sum_cells (tolist "Global_Sales" (by_year fdf))).

(** The columns of the table of filtered rows: the usual ones first, in a
    fixed order, then the others as the file has them. *)
Definition preferred : list string :=
  ["Name"; "Platform"; "Year"; "Genre"; "Publisher";
   "NA_Sales"; "EU_Sales"; "JP_Sales"; "Other_Sales"; "Global_Sales"].

Definition cols (fdf : DataFrame) : list string :=
  filter (λ c, c ∈ columns fdf) preferred
  ++ filter (λ c, c ∉ preferred) (columns fdf).

(** The two boxes of the sidebar. *)
Record Boxes : Type := mkBoxes {
  show_region_breakdown : bool;
  show_raw_table : bool
}.

(** What a run that gets to the end puts on the page: the figures, the
    charts, the region panel, and the columns of the table of filtered rows
    when it is asked for. *)
Record Page : Type := mkPage {
  page_kpis : KPIs;
  page_charts : Charts;
  page_regions : RegionPanel;
  page_table : option (list string)
}.

(** One run of the script: it stops with a message ([st.stop()]), dies of an
    exception nobody catches, or shows its page. *)
Inductive Run : Type :=
| Stopped (m : Message)
| Failed (e : string)
| Shown (p : Page).

(** The script, statement by statement.  The slider of the years runs over
    the years of the table and starts at the full range; the selection of
    platforms starts at the eight best-selling ones. *)
Definition script (uploaded : option UploadedFile) (ui : Widgets)
    (boxes : Boxes) : Run :=
  match uploaded with
  | None => Stopped info_upload
  | Some uploaded =>
      match (load_csv uploaded).1.1 with
      | Raised e => Failed e
      | Returned df =>
          let missing := ensure_columns df in
          if bool_decide (missing ≠ ∅)
          then Stopped (error_missing missing (columns df))
          else
            match clean_df_call df with
            | Raised e => Failed e
            | Returned df =>
                if empty df then Stopped warning_no_valid_data
                else
                  let min_year := minimum (year_values df) in
                  let max_year := maximum (year_values df) in
                  match sorted (remove_dups (tolist "Platform" df)) with
                  | Raised e => Failed e
                  | Returned platform_options =>
                      let default_platforms :=
                        top_platforms df (8 `min` length platform_options) in
                      let '(y0, y1) :=
                        default (min_year, max_year) (year_range ui) in
                      let selected :=
                        default default_platforms (selected_platforms ui) in
                      let fdf := fdf y0 y1 selected df in
                      if empty fdf then Stopped warning_no_data
                      else
                        Shown
                          (mkPage
                             (kpis y0 y1 selected fdf)
                             (mkCharts (by_year fdf) (top_plat fdf)
                                       (by_year_platform fdf))
                             (region_panel (show_region_breakdown boxes) fdf)
                             (if show_raw_table boxes then Some (cols fdf)
                              else None))
                  end
            end
      end
  end.

End Script.

End StreamApp.

(** ** app_2.py *)

Module App2.

Section Script.

Context (read_csv : reader) `{Quicksort} `{ToNumeric}.

Definition required_cols : list string := ["Platform"; "Year"; "Global_Sales"].

Definition str_le (s t : string) : Prop := String.leb s t.

Local Instance str_le_dec : RelDecision str_le.
Proof. intros s t. unfold str_le. apply _. Defined.

Definition missing_message (missing : list string) : string :=
  String.append "Faltan columnas requeridas: "
                (String.concat ", " (merge_sort str_le missing)).

(** [load_data]; the cursor of the file is not ours to model here, the
    reader takes its bytes.  The conversion of the years to integers raises
    when a year is an infinity: [dropna] has not taken its row away. *)
Definition load_data (file : UploadedFile) : result DataFrame :=
  match read_csv (content file) None with
  | Raised e => Raised e
  | Returned df =>
      let missing := filter (λ c, c ∉ columns df) required_cols in
      match missing with
      | _ :: _ => Raised (missing_message missing)
      | [] =>
          let years := tolist "Year" df in
          let df := assign "Year" to_numeric df in
          let df := dropna ["Year"] df in
          if existsb reads_infinite years
          then Raised "Cannot convert non-finite values (NA or inf) to integer"
          else
            let df := assign "Year" astype_int df in
            Returned (assign "Global_Sales" (λ x, fillna 0 (to_numeric x)) df)
      end
  end.

Definition filtered (selected_platforms selected_years : list cell)
    (df : DataFrame) : DataFrame :=
  select (λ r, isin selected_platforms (r !!! "Platform")
               && isin selected_years (r !!! "Year")) df.

Definition agg (filtered : DataFrame) : DataFrame :=
  rename "Global_Sales" "Ventas_Globales"
    (groupby_sum ["Platform"; "Year"] "Global_Sales" filtered).

Definition pivot (agg : DataFrame) : PivotTable :=
  sort_index (pivot_table "Year" "Platform" "Ventas_Globales" 0 agg).

Definition ranking (agg : DataFrame) : DataFrame :=
  sort_values "Ventas_Globales" false
    (groupby_sum ["Platform"] "Ventas_Globales" agg).

(** What the user has set in the two selections; [None] is a selection left
    at its default, which is every option. *)
Record Widgets : Type := mkWidgets {
  chosen_platforms : option (list cell);
  chosen_years : option (list cell)
}.

Inductive Message : Type :=
| info_upload
| error_reading (text : string)
| warning_no_data.

(** The tables the page shows below the filters. *)
Record Tables : Type := mkTables {
  table_filtered : DataFrame;
  table_agg : DataFrame;
  table_pivot : PivotTable;
  table_ranking : DataFrame
}.

Inductive Outcome : Type :=
| Stop (m : Message)
| Uncaught (e : string)
| Render (t : Tables).

(** The options of a selection: [sorted(df[c].dropna().unique().tolist())]. *)
Definition options (c : string) (df : DataFrame) : result (list cell) :=
  sorted (unique_notna c df).

(** One run of the script.  An exception of [load_data] is caught and shown;
    the table of filtered rows is on the page before the aggregation is
    looked at. *)
Definition run (uploaded_file : option UploadedFile) (ui : Widgets) : Outcome :=
  match uploaded_file with
  | None => Stop info_upload
  | Some uploaded_file =>
      match load_data uploaded_file with
      | Raised e => Stop (error_reading (String.append "Error leyendo el CSV: " e))
      | Returned df =>
          match options "Platform" df with
          | Raised e => Uncaught e
          | Returned platforms =>
              match options "Year" df with
              | Raised e => Uncaught e
              | Returned years =>
                  let selected_platforms :=
                    default platforms (chosen_platforms ui) in
                  let selected_years := default years (chosen_years ui) in
                  let filtered :=
                    filtered selected_platforms selected_years df in
                  let agg := agg filtered in
                  if empty agg then Stop warning_no_data
                  else Render (mkTables filtered agg (pivot agg) (ranking agg))
              end
          end
      end
  end.

End Script.

End App2.

(** * Properties *)

(** ** The order of values *)

Section from_compare.

Context {A : Type} (cmp : A → A → comparison).
Hypothesis cmp_eq : ∀ x y, cmp x y = Eq → x = y.
Hypothesis cmp_antisym : ∀ x y, cmp y x = CompOpp (cmp x y).
Hypothesis cmp_trans : ∀ x y z, cmp x y = Lt → cmp y z = Lt → cmp x z = Lt.

Lemma not_gt_total x y : not_gt (cmp x y) ∨ not_gt (cmp y x).
Proof. rewrite (cmp_antisym x y). destruct (cmp x y); simpl; auto. Qed.

Lemma not_gt_antisym x y : not_gt (cmp x y) → not_gt (cmp y x) → x = y.
Proof.
  rewrite (cmp_antisym x y). destruct (cmp x y) eqn:E; simpl; try done.
  intros _ _. by apply cmp_eq.
Qed.

Lemma not_gt_trans x y z :
  not_gt (cmp x y) → not_gt (cmp y z) → not_gt (cmp x z).
Proof.
  destruct (cmp x y) eqn:Exy; try done; intros _.
  - apply cmp_eq in Exy as ->. done.
  - destruct (cmp y z) eqn:Eyz; try done; intros _.
    + apply cmp_eq in Eyz as ->. by rewrite Exy.
    + by rewrite (cmp_trans x y z).
Qed.

Lemma lt_not_gt_flip x y : cmp x y = Lt ↔ ¬ not_gt (cmp y x).
Proof. rewrite (cmp_antisym x y). destruct (cmp x y); simpl; naive_solver. Qed.

End from_compare.

Lemma string_compare_refl s : String.compare s s = Eq.
Proof.
  induction s as [|a s IH]; [done|]. simpl.
  unfold Ascii.compare. by rewrite N.compare_refl.
Qed.

Lemma string_compare_trans s t u :
  String.compare s t = Lt → String.compare t u = Lt → String.compare s u = Lt.
Proof.
  revert t u. induction s as [|a s IH]; intros [|b t] [|c u]; simpl; try done.
  unfold Ascii.compare.
  destruct (N.compare_spec (N_of_ascii a) (N_of_ascii b)) as [Hab|Hab|Hab];
    try done;
    destruct (N.compare_spec (N_of_ascii b) (N_of_ascii c)) as [Hbc|Hbc|Hbc];
    try done; intros H1 H2.
  - rewrite Hab, Hbc, N.compare_refl. eauto.
  - rewrite Hab. by apply N.compare_lt_iff in Hbc as ->.
  - rewrite <-Hbc. by apply N.compare_lt_iff in Hab as ->.
  - assert (N_of_ascii a < N_of_ascii c)%N as Hac by (by etrans).
    by apply N.compare_lt_iff in Hac as ->.
Qed.

Lemma cell_compare_refl a : cell_compare a a = Eq.
Proof.
  destruct a as [|q|s]; simpl; [done| |apply string_compare_refl].
  by apply Qceq_alt.
Qed.

Lemma cell_compare_eq a b : cell_compare a b = Eq → a = b.
Proof.
  destruct a as [|p|s], b as [|q|t]; simpl; try done.
  - intros E. f_equal. by apply Qceq_alt.
  - intros E. f_equal. by apply String.compare_eq_iff.
Qed.

Lemma cell_compare_antisym a b :
  cell_compare b a = CompOpp (cell_compare a b).
Proof.
  destruct a as [|p|s], b as [|q|t]; simpl; try done.
  - unfold Qccompare. by rewrite <-Qcompare_antisym.
  - apply String.compare_antisym.
Qed.

Lemma cell_compare_trans a b c :
  cell_compare a b = Lt → cell_compare b c = Lt → cell_compare a c = Lt.
Proof.
  destruct a as [|p|s], b as [|q|t], c as [|r|u]; simpl; try done.
  - rewrite <-!Qclt_alt. apply Qclt_trans.
  - apply string_compare_trans.
Qed.

Lemma key_compare_refl k : key_compare k k = Eq.
Proof. induction k as [|a k IH]; [done|]. simpl. by rewrite cell_compare_refl. Qed.

Lemma key_compare_eq k1 k2 : key_compare k1 k2 = Eq → k1 = k2.
Proof.
  revert k2. induction k1 as [|a k1 IH]; intros [|b k2]; simpl; try done.
  destruct (cell_compare a b) eqn:E; try done.
  intros Hk. apply cell_compare_eq in E as ->. f_equal. by apply IH.
Qed.

Lemma key_compare_antisym k1 k2 :
  key_compare k2 k1 = CompOpp (key_compare k1 k2).
Proof.
  revert k2. induction k1 as [|a k1 IH]; intros [|b k2]; simpl; try done.
  rewrite (cell_compare_antisym a b).
  destruct (cell_compare a b); simpl; auto.
Qed.

Lemma key_compare_trans k1 k2 k3 :
  key_compare k1 k2 = Lt → key_compare k2 k3 = Lt → key_compare k1 k3 = Lt.
Proof.
  revert k2 k3.
  induction k1 as [|a k1 IH]; intros [|b k2] [|c k3]; simpl; try done.
  destruct (cell_compare a b) eqn:Eab; try done;
    destruct (cell_compare b c) eqn:Ebc; try done; intros H1 H2.
  - apply cell_compare_eq in Eab as ->. rewrite Ebc. eauto.
  - apply cell_compare_eq in Eab as ->. by rewrite Ebc.
  - apply cell_compare_eq in Ebc as ->. by rewrite Eab.
  - by rewrite (cell_compare_trans a b c).
Qed.

Global Instance cell_le_total : Total cell_le.
Proof. intros a b. apply (not_gt_total cell_compare cell_compare_antisym). Qed.

Global Instance cell_le_trans : Transitive cell_le.
Proof.
  intros a b c.
  apply (not_gt_trans cell_compare cell_compare_eq cell_compare_trans).
Qed.

Global Instance cell_le_antisym : AntiSymm (=) cell_le.
Proof.
  intros a b.
  apply (not_gt_antisym cell_compare cell_compare_eq cell_compare_antisym).
Qed.

Global Instance key_le_total : Total key_le.
Proof. intros a b. apply (not_gt_total key_compare key_compare_antisym). Qed.

Global Instance key_le_trans : Transitive key_le.
Proof.
  intros a b c.
  apply (not_gt_trans key_compare key_compare_eq key_compare_trans).
Qed.

Global Instance key_le_antisym : AntiSymm (=) key_le.
Proof.
  intros a b.
  apply (not_gt_antisym key_compare key_compare_eq key_compare_antisym).
Qed.

Global Instance column_order_total by_ asc : Total (column_order by_ asc).
Proof.
  intros r1 r2. unfold column_order.
  destruct asc; [apply cell_le_total|].
  destruct (cell_le_total (r1 !!! by_) (r2 !!! by_)); auto.
Qed.

Global Instance column_order_trans by_ asc : Transitive (column_order by_ asc).
Proof.
  intros r1 r2 r3. unfold column_order.
  destruct asc; [apply cell_le_trans|].
  intros ??. by etrans.
Qed.

Global Instance columns_order_total by_ : Total (columns_order by_).
Proof. intros r1 r2. apply key_le_total. Qed.

Global Instance columns_order_trans by_ : Transitive (columns_order by_).
Proof. intros r1 r2 r3. apply key_le_trans. Qed.

Global Instance label_order_total : Total label_order.
Proof. intros a b. apply cell_le_total. Qed.

Global Instance label_order_trans : Transitive label_order.
Proof. intros a b c. apply cell_le_trans. Qed.

(** ** Sorting *)

Section sorting_facts.

Context {A : Type} (R : relation A) `{!RelDecision R}.

Lemma insert_sorted_Permutation x l : insert_sorted R x l ≡ₚ x :: l.
Proof.
  induction l as [|y l IH]; simpl; [done|].
  case_decide; [|done]. rewrite IH. apply Permutation_swap.
Qed.

Lemma stable_sort_snoc l x :
  stable_sort R (l ++ [x]) = insert_sorted R x (stable_sort R l).
Proof. unfold stable_sort. by rewrite foldl_snoc. Qed.

Lemma stable_sort_Permutation l : stable_sort R l ≡ₚ l.
Proof.
  induction l as [|x l IH] using rev_ind; [done|].
  rewrite stable_sort_snoc, insert_sorted_Permutation, IH.
  apply Permutation_cons_append.
Qed.

Lemma insert_sorted_after x l :
  Forall (λ y, R y x) l → insert_sorted R x l = l ++ [x].
Proof.
  induction 1 as [|y l Hy _ IH]; simpl; [done|].
  rewrite decide_True by done. by rewrite IH.
Qed.

(** A stable sort leaves a sorted list as it is. *)
Lemma stable_sort_sorted_id l : StronglySorted R l → stable_sort R l = l.
Proof.
  induction l as [|x l IH] using rev_ind; [done|].
  intros Hs. rewrite stable_sort_snoc.
  apply StronglySorted_app in Hs as (Hlx & Hl & _).
  rewrite IH by done. apply insert_sorted_after.
  apply list.Forall_forall. intros y Hy. apply Hlx; [done|]. set_solver.
Qed.

Context `{!Total R, !Transitive R}.

Lemma insert_sorted_StronglySorted x l :
  StronglySorted R l → StronglySorted R (insert_sorted R x l).
Proof.
  induction 1 as [|y l Hl IH Hy]; simpl; [repeat constructor|].
  case_decide as Hyx.
  - constructor; [done|].
    rewrite insert_sorted_Permutation. by constructor.
  - assert (R x y) as Hxy by (by destruct (total R x y)).
    constructor; [by constructor|].
    constructor; [done|].
    eapply list.Forall_impl; [exact Hy|]. intros z ?. by etrans.
Qed.

Lemma stable_sort_StronglySorted l : StronglySorted R (stable_sort R l).
Proof.
  induction l as [|x l IH] using rev_ind; [constructor|].
  rewrite stable_sort_snoc. by apply insert_sorted_StronglySorted.
Qed.

(** Where ties are impossible, the sorted rearrangement is unique: whatever
    the algorithm, [quicksort] returns it. *)
Lemma quicksort_unique `{Quicksort} l l' :
  (∀ x y, x ∈ l → y ∈ l → R x y → R y x → x = y) →
  StronglySorted R l' → l' ≡ₚ l → quicksort R l = l'.
Proof.
  intros Hanti Hs Hp.
  apply (StronglySorted_unique_strong R).
  - intros x y Hx Hy. apply Hanti.
    + by rewrite <-(quicksort_Permutation R l).
    + by rewrite <-Hp.
  - by apply quicksort_StronglySorted.
  - done.
  - by rewrite quicksort_Permutation.
Qed.

End sorting_facts.

(** A sort that honours the interface: it keeps equal keys in the order
    they came in, as the library's sort does on a short table. *)
Definition merge_quicksort : Quicksort :=
  {| quicksort := @merge_sort;
     quicksort_Permutation := λ A R _ l, merge_sort_Permutation R l;
     quicksort_StronglySorted := λ A R _ l HT HTr, StronglySorted_merge_sort R l |}.

(** ** Reading numbers *)

Lemma has_digit_cons a s : has_digit s = true → has_digit (String a s) = true.
Proof. unfold has_digit. cbn. intros ->. by rewrite orb_true_r. Qed.

Lemma read_digits_has_digit s ds r :
  read_digits s = (ds, r) → ds ≠ [] → has_digit s = true.
Proof.
  destruct s as [|a t]; cbn; [by intros [= <- _]|].
  unfold has_digit, is_digit. cbn.
  destruct (digit_of a); [done|]. by intros [= <- _].
Qed.

Lemma read_digits_none s r : read_digits s = ([], r) → r = s.
Proof.
  destruct s as [|a t]; cbn; [by intros [= <-]|].
  destruct (digit_of a); [|by intros [= <-]].
  by destruct (read_digits t).
Qed.

Lemma read_sign_has_digit s neg s1 :
  read_sign s = (neg, s1) → has_digit s1 = true → has_digit s = true.
Proof.
  unfold read_sign. destruct s as [|a t]; [by intros [= _ <-]|].
  destruct (decide (a = "-"%char)) as [->|Hm].
  { intros [= _ <-]. apply has_digit_cons. }
  destruct (decide (a = "+"%char)) as [->|Hp].
  { intros [= _ <-]. apply has_digit_cons. }
  assert (match a with
          | "-"%char => (true, t)
          | "+"%char => (false, t)
          | _ => (false, String a t)
          end = (false, String a t)) as ->; [|by intros [= _ <-]].
  destruct a as [[] [] [] [] [] [] [] []]; try done.
Qed.

(** A decimal literal has a digit. *)
Lemma decimal_literal_has_digit s d :
  decimal_literal s = Some d → has_digit s = true.
Proof.
  unfold decimal_literal.
  destruct (read_sign s) as [neg s1] eqn:Hsign.
  destruct (read_digits s1) as [ip s2] eqn:Hip.
  intros Hd. apply (read_sign_has_digit _ _ _ Hsign).
  destruct ip as [|i ip]; [|by apply (read_digits_has_digit _ _ _ Hip)].
  apply read_digits_none in Hip as ->.
  destruct s1 as [|a t]; [done|].
  destruct (decide (a = "."%char)) as [->|Hdot].
  - destruct (read_digits t) as [fp s3] eqn:Hfp.
    apply has_digit_cons.
    destruct fp as [|f fp]; [by destruct s3|].
    by apply (read_digits_has_digit _ _ _ Hfp).
  - assert (match a with
            | "."%char => read_digits t
            | _ => ([], String a t)
            end = ([], String a t)) as Hm.
    { destruct a as [[] [] [] [] [] [] [] []]; try done. }
    by rewrite Hm in Hd.
Qed.

(** A reading of numbers that honours the interface, for the tables written
    out below: a decimal literal is read as its value, [inf] and [-inf] as an
    infinity, and nothing else is read. *)
Definition decimal_read (s : string) : parsed :=
  match decimal_literal s with
  | Some d => finite d
  | None => if bool_decide (s ∈ ["inf"; "-inf"]) then infinite else unreadable
  end.

Lemma decimal_read_plain s :
  has_digit s = false → has_i s = false → decimal_read s = unreadable.
Proof.
  intros Hd Hi. unfold decimal_read.
  destruct (decimal_literal s) as [d|] eqn:E.
  { apply decimal_literal_has_digit in E. by rewrite E in Hd. }
  case_bool_decide as Hw; [|done].
  apply elem_of_cons in Hw as [->|Hw]; [done|].
  apply elem_of_cons in Hw as [->|Hw]; [done|].
  by apply not_elem_of_nil in Hw.
Qed.

Lemma decimal_read_decimal s d :
  decimal_literal s = Some d → (count_digits s ≤ 15)%nat →
  ∃ q, decimal_read s = finite q
       ∧ ∀ f, is_float64 f → (f ≤ d → f ≤ q) ∧ (d ≤ f → q ≤ f).
Proof.
  intros E _. exists d. unfold decimal_read. rewrite E. by split.
Qed.

Definition decimal_reader : ToNumeric :=
  {| read_text := decimal_read;
     read_text_plain := decimal_read_plain;
     read_text_decimal := decimal_read_decimal |}.

(** What every reading makes of the texts of the specification. *)
Lemma is_float64_Z (z : Z) : (Z.abs z < 2 ^ 53)%Z → is_float64 (Qc_of_Z z).
Proof.
  intros Hz. exists z, 0%nat, 0%nat. split; [done|]. split; [lia|].
  split; [lia|]. change (2 ^ Z.of_nat 0)%Z with 1%Z.
  rewrite Z.mul_1_r. apply Qcmult_1_r.
Qed.

Lemma coerce_plain `{ToNumeric} s :
  has_digit s = false → has_i s = false → coerce (Str s) = unreadable.
Proof. intros Hd Hi. cbn. by rewrite read_text_plain. Qed.


Lemma to_numeric_NaN `{ToNumeric} c :
  to_numeric c = NaN ↔ coerce c = unreadable ∨ coerce c = infinite.
Proof.
  unfold to_numeric. destruct (coerce c); naive_solver.
Qed.

Lemma to_numeric_typed `{ToNumeric} c :
  to_numeric c = NaN ∨ ∃ q, to_numeric c = Num q.
Proof. unfold to_numeric. destruct (coerce c); eauto. Qed.

Lemma to_numeric_Num `{ToNumeric} q : to_numeric (Num q) = Num q.
Proof. done. Qed.

Lemma to_numeric_integer `{ToNumeric} s (z : Z) :
  decimal_literal s = Some (Qc_of_Z z) → (count_digits s ≤ 15)%nat →
  (Z.abs z < 2 ^ 53)%Z →
  to_numeric (Str s) = Num (Qc_of_Z z).
Proof.
  intros Hs Hn Hz.
  destruct (read_text_decimal s _ Hs Hn) as (q & Hq & Hnear).
  unfold to_numeric. cbn. rewrite Hq. f_equal.
  destruct (Hnear _ (is_float64_Z z Hz)) as [H1 H2].
  apply Qcle_antisym; [by apply H2|by apply H1].
Qed.

(** ** Lists and rows *)

Lemma filter_fmap {A B} (f : A → B) (P : B → Prop) `{!∀ y, Decision (P y)}
    (l : list A) :
  filter P (f <$> l) = f <$> filter (λ x, P (f x)) l.
Proof.
  induction l as [|x l IH]; [done|].
  rewrite fmap_cons, !filter_cons, IH. by case_decide.
Qed.

Lemma filter_ext_elem {A} (P Q : A → Prop) `{!∀ x, Decision (P x)}
    `{!∀ x, Decision (Q x)} (l : list A) :
  (∀ x, x ∈ l → P x ↔ Q x) → filter P l = filter Q l.
Proof.
  induction l as [|x l IH]; intros Hl; [done|].
  rewrite !filter_cons.
  rewrite IH by (intros y ?; apply Hl; set_solver).
  destruct (Hl x) as [H1 H2]; [set_solver|].
  repeat case_decide; naive_solver.
Qed.

Lemma filter_none {A} (P : A → Prop) `{!∀ x, Decision (P x)} (l : list A) :
  Forall (λ x, ¬ P x) l → filter P l = [].
Proof.
  induction 1 as [|x l Hx _ IH]; [done|]. by rewrite filter_cons_False.
Qed.

Lemma rows_foldl_assign (f : cell → cell) (cs : list string) (df : DataFrame) :
  rows (foldl (λ out c, assign c f out) df cs)
  = (λ r, foldl (λ r c, <[c := f (r !!! c)]> r) r cs) <$> rows df.
Proof.
  revert df. induction cs as [|c cs IH]; intros df; simpl.
  - by rewrite list_fmap_id.
  - rewrite IH. simpl. by rewrite <-list_fmap_compose.
Qed.

(** Writing the columns [cs] one after the other: a column of [cs] gets its
    new value, the others keep theirs. *)
Lemma lookup_foldl_insert (f : cell → cell) (cs : list string)
    (r : gmap string cell) (c : string) :
  NoDup cs →
  foldl (λ r c, <[c := f (r !!! c)]> r) r cs !!! c
  = if decide (c ∈ cs) then f (r !!! c) else r !!! c.
Proof.
  revert r. induction cs as [|c' cs IH]; intros r Hnd; simpl; [done|].
  apply NoDup_cons in Hnd as [Hc' Hnd]. rewrite IH by done.
  destruct (decide (c = c')) as [->|Hne].
  - rewrite decide_False by done. rewrite decide_True by set_solver.
    by rewrite lookup_total_insert_eq.
  - rewrite lookup_total_insert_ne by done.
    destruct (decide (c ∈ cs)).
    + by rewrite decide_True by set_solver.
    + by rewrite decide_False by set_solver.
Qed.

Lemma elem_of_columns_assign c c' f df :
  c ∈ columns (assign c' f df) ↔ c ∈ columns df ∨ c = c'.
Proof.
  unfold assign. simpl. case_decide; set_solver.
Qed.

Lemma columns_select mask df : columns (select mask df) = columns df.
Proof. done. Qed.

Lemma rows_assign c f df :
  rows (assign c f df) = (λ r, <[c := f (r !!! c)]> r) <$> rows df.
Proof. done. Qed.

Lemma rows_select mask df :
  rows (select mask df) = filter (λ r, mask r) (rows df).
Proof. done. Qed.

Lemma rows_dropna subset df :
  rows (dropna subset df) = filter (λ r, notna_all subset r) (rows df).
Proof. done. Qed.

(** ** Cleaning, row by row *)

Module Clean.

Import StreamApp.

Section rows.

Context `{ToNumeric}.

(** The row passes [dropna]: its year reads as a number, and its platform
    and global sales are there. *)
Definition survives (r : gmap string cell) : bool :=
  notna_all ["Year"; "Platform"; "Global_Sales"]
            (<["Year" := to_numeric (r !!! "Year")]> r).

(** What [clean_df] makes of a row that passes, in a table with the columns
    [cols]. *)
Definition cleaned (cols : list string) (r : gmap string cell)
  : gmap string cell :=
  foldl (λ r c, <[c := fillna 0 (to_numeric (r !!! c))]> r)
        (<["Year" := astype_int (to_numeric (r !!! "Year"))]> r)
        (filter (λ c, c ∈ cols) sales_columns).

Lemma survives_iff r :
  survives r ↔
  to_numeric (r !!! "Year") ≠ NaN ∧ r !!! "Platform" ≠ NaN
  ∧ r !!! "Global_Sales" ≠ NaN.
Proof.
  unfold survives, notna_all. simpl.
  rewrite lookup_total_insert_eq, !lookup_total_insert_ne by done.
  destruct (to_numeric (r !!! "Year")), (r !!! "Platform"),
    (r !!! "Global_Sales"); simpl; naive_solver.
Qed.

Lemma clean_df_rows df :
  rows (clean_df df) = cleaned (columns df) <$> filter survives (rows df).
Proof.
  unfold clean_df. cbv zeta.
  rewrite rows_foldl_assign, rows_assign, rows_dropna, rows_assign.
  rewrite filter_fmap, <-!list_fmap_compose.
  apply list_fmap_ext. intros _ r _. unfold cleaned, compose.
  rewrite lookup_total_insert_eq, insert_insert_eq.
  f_equal. apply filter_ext_elem. intros c Hc.
  rewrite !elem_of_columns_assign. unfold dropna.
  rewrite columns_select, elem_of_columns_assign.
  split; [|by intros ?; left; left]. intros [[?| ->]| ->]; try done.
  all: apply (bool_decide_pack _) in Hc; by vm_compute in Hc.
Qed.

(** The table is cleaned row by row: what becomes of a row does not depend
    on its neighbours. *)
Lemma clean_df_app cols l1 l2 :
  rows (clean_df (mkDF cols (l1 ++ l2)))
  = rows (clean_df (mkDF cols l1)) ++ rows (clean_df (mkDF cols l2)).
Proof. rewrite !clean_df_rows. simpl. by rewrite filter_app, fmap_app. Qed.

Lemma clean_df_dropped cols l1 r l2 :
  ¬ survives r →
  rows (clean_df (mkDF cols (l1 ++ r :: l2)))
  = rows (clean_df (mkDF cols l1)) ++ rows (clean_df (mkDF cols l2)).
Proof.
  intros Hr. rewrite clean_df_app. f_equal.
  rewrite !clean_df_rows. simpl. by rewrite filter_cons_False.
Qed.

Lemma clean_df_kept cols l1 r l2 :
  survives r →
  rows (clean_df (mkDF cols (l1 ++ r :: l2)))
  = rows (clean_df (mkDF cols l1)) ++ cleaned cols r :: rows (clean_df (mkDF cols l2)).
Proof.
  intros Hr. rewrite clean_df_app. f_equal.
  rewrite !clean_df_rows. simpl. by rewrite filter_cons_True.
Qed.

Lemma sales_columns_NoDup (cols : list string) :
  NoDup (filter (λ c, c ∈ cols) sales_columns).
Proof. apply NoDup_filter. by apply (bool_decide_unpack _). Qed.

Lemma cleaned_year cols r :
  cleaned cols r !!! "Year" = astype_int (to_numeric (r !!! "Year")).
Proof.
  unfold cleaned. rewrite (lookup_foldl_insert (λ x, fillna 0 (to_numeric x)))
    by apply sales_columns_NoDup.
  rewrite decide_False; [by rewrite lookup_total_insert_eq|].
  rewrite list_elem_of_filter. intros [_ Hy].
  apply (bool_decide_pack _) in Hy. by vm_compute in Hy.
Qed.

Lemma cleaned_sales cols r c :
  c ∈ sales_columns → c ∈ cols →
  cleaned cols r !!! c = fillna 0 (to_numeric (r !!! c)).
Proof.
  intros Hc Hcols. unfold cleaned.
  rewrite (lookup_foldl_insert (λ x, fillna 0 (to_numeric x)))
    by apply sales_columns_NoDup.
  rewrite decide_True by (by apply list_elem_of_filter).
  rewrite lookup_total_insert_ne; [done|].
  intros <-. apply (bool_decide_pack _) in Hc. by vm_compute in Hc.
Qed.

Lemma cleaned_other cols r c :
  c ≠ "Year" → ¬ (c ∈ sales_columns ∧ c ∈ cols) →
  cleaned cols r !!! c = r !!! c.
Proof.
  intros Hy Hc. unfold cleaned.
  rewrite (lookup_foldl_insert (λ x, fillna 0 (to_numeric x)))
    by apply sales_columns_NoDup.
  rewrite decide_False by (rewrite list_elem_of_filter; naive_solver).
  by rewrite lookup_total_insert_ne.
Qed.

(** The columns of the cleaned table depend on the columns alone. *)
Lemma columns_foldl_assign_rows (f : cell → cell) cs df1 df2 :
  columns df1 = columns df2 →
  columns (foldl (λ out c, assign c f out) df1 cs)
  = columns (foldl (λ out c, assign c f out) df2 cs).
Proof.
  revert df1 df2. induction cs as [|c cs IH]; intros df1 df2 E; [done|].
  cbn [foldl]. apply IH. unfold assign. cbn [columns]. by rewrite E.
Qed.

Lemma clean_df_columns_rows cols l1 l2 :
  columns (clean_df (mkDF cols l1)) = columns (clean_df (mkDF cols l2)).
Proof.
  unfold clean_df. cbv zeta.
  set (out1 := assign "Year" astype_int _).
  set (out2 := assign "Year" astype_int _).
  assert (columns out1 = columns out2) as E by done.
  rewrite E. by apply columns_foldl_assign_rows.
Qed.

Lemma clean_df_same_rows cols l1 l2 :
  rows (clean_df (mkDF cols l1)) = rows (clean_df (mkDF cols l2)) →
  clean_df (mkDF cols l1) = clean_df (mkDF cols l2).
Proof.
  intros Hr. pose proof (clean_df_columns_rows cols l1 l2) as Hc.
  destruct (clean_df (mkDF cols l1)), (clean_df (mkDF cols l2)).
  cbn in *. by subst.
Qed.

(** The row makes the conversion of the years raise. *)
Definition raises_at (r : gmap string cell) : bool :=
  reads_infinite (r !!! "Year") && notna_all ["Platform"; "Global_Sales"] r.

Lemma raises_at_iff r :
  raises_at r ↔
  coerce (r !!! "Year") = infinite ∧ r !!! "Platform" ≠ NaN
  ∧ r !!! "Global_Sales" ≠ NaN.
Proof.
  unfold raises_at, reads_infinite, notna_all. simpl.
  destruct (coerce (r !!! "Year")), (r !!! "Platform"),
    (r !!! "Global_Sales"); simpl; naive_solver.
Qed.

Lemma survives_not_infinite r : survives r → raises_at r = false.
Proof.
  intros (Hy & _)%survives_iff. unfold raises_at, reads_infinite.
  unfold to_numeric in Hy. by destruct (coerce (r !!! "Year")).
Qed.

Lemma clean_df_raises_app cols l1 l2 :
  clean_df_raises (mkDF cols (l1 ++ l2))
  = clean_df_raises (mkDF cols l1) || clean_df_raises (mkDF cols l2).
Proof. unfold clean_df_raises. cbn [rows]. apply existsb_app. Qed.

Lemma clean_df_raises_cons cols r l :
  clean_df_raises (mkDF cols (r :: l))
  = raises_at r || clean_df_raises (mkDF cols l).
Proof. done. Qed.

Lemma clean_df_call_Returned df t :
  clean_df_call df = Returned t ↔ clean_df_raises df = false ∧ t = clean_df df.
Proof.
  unfold clean_df_call. destruct (clean_df_raises df); naive_solver.
Qed.

Lemma clean_df_call_Raised df e :
  clean_df_call df = Raised e ↔
  clean_df_raises df = true ∧ e = "IntCastingNaNError".
Proof.
  unfold clean_df_call. destruct (clean_df_raises df); naive_solver.
Qed.

(** A row that does not pass, and whose year is no infinity, might as well
    not be there. *)
Lemma clean_df_call_dropped cols l1 r l2 :
  ¬ survives r → raises_at r = false →
  clean_df_call (mkDF cols (l1 ++ r :: l2))
  = clean_df_call (mkDF cols (l1 ++ l2)).
Proof.
  intros Hr Hi. unfold clean_df_call.
  rewrite !clean_df_raises_app, clean_df_raises_cons, Hi. cbn [orb].
  destruct (_ || _); [done|]. f_equal. apply clean_df_same_rows.
  rewrite clean_df_dropped by done. by rewrite <-clean_df_app.
Qed.

(** A row that passes is cleaned where it stands, and the rows before it and
    after it are cleaned as they are without it. *)
Lemma clean_df_call_kept cols l1 r l2 t :
  survives r →
  clean_df_call (mkDF cols (l1 ++ r :: l2)) = Returned t →
  ∃ t1 t2, clean_df_call (mkDF cols l1) = Returned t1
           ∧ clean_df_call (mkDF cols l2) = Returned t2
           ∧ rows t = rows t1 ++ cleaned cols r :: rows t2.
Proof.
  intros Hr [Hraise ->]%clean_df_call_Returned.
  rewrite clean_df_raises_app, clean_df_raises_cons in Hraise.
  apply orb_false_iff in Hraise as [H1 [_ H2]%orb_false_iff].
  exists (clean_df (mkDF cols l1)), (clean_df (mkDF cols l2)).
  split; [by apply clean_df_call_Returned|].
  split; [by apply clean_df_call_Returned|].
  by apply clean_df_kept.
Qed.


End rows.

(** Two readings that agree on the years and on the sales of a table clean
    it to the same table. *)
Lemma columns_foldl_assign_fun (f g : cell → cell) cs df1 df2 :
  columns df1 = columns df2 →
  columns (foldl (λ out c, assign c f out) df1 cs)
  = columns (foldl (λ out c, assign c g out) df2 cs).
Proof.
  revert df1 df2. induction cs as [|c cs IH]; intros df1 df2 E; [done|].
  cbn [foldl]. apply IH. unfold assign. cbn [columns]. by rewrite E.
Qed.

Lemma foldl_insert_agree (f g : cell → cell) cs (r : gmap string cell) :
  NoDup cs → (∀ c, c ∈ cs → f (r !!! c) = g (r !!! c)) →
  foldl (λ r c, <[c := f (r !!! c)]> r) r cs
  = foldl (λ r c, <[c := g (r !!! c)]> r) r cs.
Proof.
  revert r. induction cs as [|c cs IH]; intros r Hnd Hfg; [done|].
  apply NoDup_cons in Hnd as [Hc Hnd]. cbn [foldl].
  rewrite (Hfg c) by apply list_elem_of_here. apply IH; [done|].
  intros c' Hc'. rewrite lookup_total_insert_ne by (by intros ->).
  apply Hfg. by apply list_elem_of_further.
Qed.

Definition agree (H1 H2 : ToNumeric) (r : gmap string cell) : Prop :=
  ∀ c, c ∈ "Year" :: sales_columns →
       @to_numeric H1 (r !!! c) = @to_numeric H2 (r !!! c).

Lemma clean_df_agree (H1 H2 : ToNumeric) (df : DataFrame) :
  Forall (agree H1 H2) (rows df) →
  @clean_df H1 df = @clean_df H2 df.
Proof.
  intros Hag.
  assert (rows (@clean_df H1 df) = rows (@clean_df H2 df)) as Hr.
  { rewrite !clean_df_rows.
    rewrite (filter_ext_elem (@survives H1) (@survives H2)).
    2:{ intros r Hr. rewrite list.Forall_forall in Hag.
        rewrite !survives_iff, (Hag r Hr "Year") by apply list_elem_of_here.
        done. }
    apply list_fmap_ext. intros _ r Hr%list_elem_of_lookup_2.
    apply list_elem_of_filter in Hr as [_ Hr].
    rewrite list.Forall_forall in Hag. specialize (Hag r Hr).
    unfold cleaned. rewrite (Hag "Year") by apply list_elem_of_here.
    apply (foldl_insert_agree (λ x, fillna 0 (@to_numeric H1 x))
                              (λ x, fillna 0 (@to_numeric H2 x)));
      [apply sales_columns_NoDup|].
    intros c [_ Hc]%list_elem_of_filter.
    rewrite lookup_total_insert_ne.
    - rewrite (Hag c); [done|by apply list_elem_of_further].
    - intros <-. apply (bool_decide_pack _) in Hc. by vm_compute in Hc. }
  assert (columns (@clean_df H1 df) = columns (@clean_df H2 df)) as Hc.
  { unfold clean_df. cbv zeta.
    set (out1 := assign "Year" astype_int _).
    set (out2 := assign "Year" astype_int _).
    assert (columns out1 = columns out2) as E by done.
    rewrite E. by apply columns_foldl_assign_fun. }
  destruct (@clean_df H1 df), (@clean_df H2 df). cbn in *. by subst.
Qed.

End Clean.

(** ** Loading in app_2.py, row by row *)

Module Load.

Import App2.

Section rows.

Context `{ToNumeric}.

(** A reader that parses every file to the table [df]. *)
Definition reading (df : DataFrame) : reader := λ _ _, Returned df.


(** What [load_data] makes of a row it keeps. *)
Definition loaded (r : gmap string cell) : gmap string cell :=
  <["Global_Sales" := fillna 0 (to_numeric (r !!! "Global_Sales"))]>
    (<["Year" := astype_int (to_numeric (r !!! "Year"))]> r).

Definition year_reads (r : gmap string cell) : bool :=
  negb (isna (to_numeric (r !!! "Year"))).

(** No year of the rows is an infinity. *)
Definition years_finite (l : list (gmap string cell)) : Prop :=
  Forall (λ r, reads_infinite (r !!! "Year") = false) l.

Lemma years_finite_existsb l :
  existsb reads_infinite ((λ r, r !!! "Year") <$> l) = false ↔ years_finite l.
Proof.
  unfold years_finite. induction l as [|r l IH]; cbn.
  - split; [by constructor|done].
  - rewrite orb_false_iff, IH, list.Forall_cons. naive_solver.
Qed.

Lemma years_finite_app l1 l2 :
  years_finite (l1 ++ l2) ↔ years_finite l1 ∧ years_finite l2.
Proof. apply list.Forall_app. Qed.

(** [load_data] returns when the table has the required columns and no year
    is an infinity; its rows are then the rows whose year reads as a
    number, each made over. *)
Lemma load_data_returns cols l file t :
  load_data (reading (mkDF cols l)) file = Returned t →
  Forall (λ c, c ∈ cols) required_cols ∧ years_finite l
  ∧ rows t = loaded <$> filter year_reads l.
Proof.
  unfold load_data, reading. cbn [columns].
  destruct (filter _ required_cols) as [|c0 cs] eqn:Hmiss; [|done].
  cbv zeta. unfold tolist. cbn [rows].
  destruct (existsb _ _) eqn:Hinf; [done|]. intros [= <-].
  split; [|split].
  - apply list.Forall_forall. intros c Hc.
    destruct (decide (c ∈ cols)) as [|Hn]; [done|].
    assert (c ∈ filter (λ c, c ∉ cols) required_cols) as Hin
      by (by apply list_elem_of_filter).
    rewrite Hmiss in Hin. by apply not_elem_of_nil in Hin.
  - by apply years_finite_existsb.
  - rewrite !rows_assign, rows_dropna, rows_assign.
    rewrite filter_fmap, <-!list_fmap_compose.
    erewrite (filter_ext_elem _ (λ r, year_reads r)).
    + apply list_fmap_ext. intros _ r _. unfold loaded, compose.
      rewrite lookup_total_insert_eq, insert_insert_eq.
      by rewrite lookup_total_insert_ne.
    + intros r _. unfold notna_all, year_reads. simpl.
      rewrite lookup_total_insert_eq. by rewrite andb_true_r.
Qed.

Lemma load_data_returned cols l file :
  Forall (λ c, c ∈ cols) required_cols → years_finite l →
  ∃ t, load_data (reading (mkDF cols l)) file = Returned t
       ∧ rows t = loaded <$> filter year_reads l.
Proof.
  intros Hreq Hfin.
  destruct (load_data (reading (mkDF cols l)) file) as [t|e] eqn:E.
  { exists t. split; [done|]. by apply load_data_returns in E as (_ & _ & ?). }
  exfalso. revert E. unfold load_data, reading. cbn [columns].
  assert (filter (λ c, c ∉ cols) required_cols = []) as ->.
  { apply filter_none. eapply list.Forall_impl; [exact Hreq|]. naive_solver. }
  cbv zeta. unfold tolist. cbn [rows].
  apply years_finite_existsb in Hfin. by rewrite Hfin.
Qed.


Lemma year_reads_iff r : year_reads r ↔ ∃ q, coerce (r !!! "Year") = finite q.
Proof.
  unfold year_reads, to_numeric.
  destruct (coerce (r !!! "Year")); cbn; naive_solver.
Qed.

Lemma years_finite_cons r l :
  years_finite (r :: l) ↔ reads_infinite (r !!! "Year") = false ∧ years_finite l.
Proof. unfold years_finite. by rewrite list.Forall_cons. Qed.

(** A row whose year is not read is left out, and the table is loaded as it
    is without the row. *)
Lemma load_data_dropped cols l1 r l2 file :
  coerce (r !!! "Year") = unreadable →
  load_data (reading (mkDF cols (l1 ++ r :: l2))) file
  = load_data (reading (mkDF cols (l1 ++ l2))) file.
Proof.
  intros Hr.
  assert (reads_infinite (r !!! "Year") = false) as Hi
    by (unfold reads_infinite; by rewrite Hr).
  assert (notna_all ["Year"] (<["Year" := to_numeric (r !!! "Year")]> r)
          = false) as Hn.
  { unfold notna_all. simpl. rewrite lookup_total_insert_eq.
    unfold to_numeric. by rewrite Hr. }
  unfold load_data, reading. cbn [columns].
  destruct (filter _ required_cols); [|done]. cbv zeta.
  unfold tolist. cbn [rows].
  rewrite !fmap_app, fmap_cons, !existsb_app. cbn [existsb].
  rewrite Hi. cbn [orb].
  destruct (_ || _); [done|]. f_equal.
  unfold assign, dropna, select. cbn [columns rows]. f_equal.
  rewrite !fmap_app, fmap_cons, !filter_app, filter_cons_False; [done|].
  rewrite Hn. by intros [].
Qed.

(** A row whose year is read is made over where it stands. *)
Lemma load_data_kept cols l1 r l2 file t q :
  coerce (r !!! "Year") = finite q →
  load_data (reading (mkDF cols (l1 ++ r :: l2))) file = Returned t →
  ∃ t1 t2, load_data (reading (mkDF cols l1)) file = Returned t1
           ∧ load_data (reading (mkDF cols l2)) file = Returned t2
           ∧ rows t = rows t1 ++ loaded r :: rows t2.
Proof.
  intros Hr (Hreq & Hfin & Hrows)%load_data_returns.
  apply years_finite_app in Hfin as [Hf1 [_ Hf2]%years_finite_cons].
  destruct (load_data_returned cols l1 file Hreq Hf1) as (t1 & E1 & R1).
  destruct (load_data_returned cols l2 file Hreq Hf2) as (t2 & E2 & R2).
  exists t1, t2. split; [done|]. split; [done|].
  rewrite Hrows, R1, R2, filter_app, filter_cons_True, fmap_app; [done|].
  apply year_reads_iff. by exists q.
Qed.


End rows.

End Load.

(** ** Truncation *)


(** * The claims *)

(** ** Cleaning *)


(** The texts of the specification, under every reading: ["abc"] and the
    empty text are no numbers, ["2006.0"] is [2006], and ["2006.7"] lies
    between [2006] and [2007]. *)
Lemma coerce_abc `{ToNumeric} : coerce (Str "abc") = unreadable.
Proof. by apply coerce_plain. Qed.




(** C1.  [clean_df] (and [load_data] in app_2.py) treat a failed coercion
    differently by column.  A row whose [Year] is not read as a number is
    deleted: the table is cleaned as it is without the row.  A row that
    passes the year and missing-value step stays, in its place; a text in a
    sales column of the table that is not read as a number gives [0.0]
    there, and one that is read gives the number.  The text ["abc"] is not
    read as a number, whatever the reading. *)
Theorem coercion_policy `{ToNumeric} (cols : list string)
    (before after : list (gmap string cell)) (r : gmap string cell)
    (file : UploadedFile) :
  let clean := λ l, StreamApp.clean_df_call (mkDF cols l) in
  let load := λ l, App2.load_data (Load.reading (mkDF cols l)) file in
  (coerce (r !!! "Year") = unreadable →
     clean (before ++ r :: after) = clean (before ++ after)
     ∧ load (before ++ r :: after) = load (before ++ after))
  ∧ (∀ c q table, c ∈ StreamApp.sales_columns → c ∈ cols →
       coerce (r !!! "Year") = finite q →
       r !!! "Platform" ≠ NaN → r !!! "Global_Sales" ≠ NaN →
       clean (before ++ r :: after) = Returned table →
       ∃ tb ta r',
         clean before = Returned tb ∧ clean after = Returned ta
         ∧ rows table = rows tb ++ r' :: rows ta
         ∧ r' !!! "Platform" = r !!! "Platform"
         ∧ (∀ s, r !!! c = Str s → read_text s = unreadable →
                 r' !!! c = Num 0)
         ∧ (∀ x, coerce (r !!! c) = finite x → r' !!! c = Num x))
  ∧ (∀ q table, coerce (r !!! "Year") = finite q →
       load (before ++ r :: after) = Returned table →
       ∃ tb ta r',
         load before = Returned tb ∧ load after = Returned ta
         ∧ rows table = rows tb ++ r' :: rows ta
         ∧ r' !!! "Platform" = r !!! "Platform"
         ∧ (∀ s, r !!! "Global_Sales" = Str s → read_text s = unreadable →
                 r' !!! "Global_Sales" = Num 0)
         ∧ (∀ x, coerce (r !!! "Global_Sales") = finite x →
                 r' !!! "Global_Sales" = Num x))
  ∧ coerce (Str "abc") = unreadable.
Proof.
  intros clean load. split; [|split; [|split; [|apply coerce_abc]]].
  - intros Hy. split.
    + apply Clean.clean_df_call_dropped.
      * rewrite Clean.survives_iff. unfold to_numeric. rewrite Hy.
        naive_solver.
      * unfold Clean.raises_at, reads_infinite. by rewrite Hy.
    + by apply Load.load_data_dropped.
  - intros c q table Hc Hcols Hy Hpl Hg Hret.
    assert (Clean.survives r) as Hs.
    { apply Clean.survives_iff. unfold to_numeric. by rewrite Hy. }
    destruct (Clean.clean_df_call_kept cols before r after table Hs Hret)
      as (tb & ta & Eb & Ea & Hrows).
    exists tb, ta, (Clean.cleaned cols r).
    split; [done|]. split; [done|]. split; [done|]. split; [|split].
    + apply Clean.cleaned_other; [done|].
      intros [Hin _]. apply (bool_decide_pack _) in Hin. by vm_compute in Hin.
    + intros s Hs' Hread. rewrite Clean.cleaned_sales by done.
      rewrite Hs'. unfold to_numeric. cbn [coerce]. by rewrite Hread.
    + intros x Hx. rewrite Clean.cleaned_sales by done.
      unfold to_numeric. by rewrite Hx.
  - intros q table Hy Hret.
    destruct (Load.load_data_kept cols before r after file table q Hy Hret)
      as (tb & ta & Eb & Ea & Hrows).
    exists tb, ta, (Load.loaded r).
    split; [done|]. split; [done|]. split; [done|]. split; [|split].
    + unfold Load.loaded. by rewrite !lookup_total_insert_ne.
    + intros s Hs' Hread. unfold Load.loaded.
      rewrite lookup_total_insert_eq, Hs'. unfold to_numeric.
      cbn [coerce]. by rewrite Hread.
    + intros x Hx. unfold Load.loaded. rewrite lookup_total_insert_eq.
      unfold to_numeric. by rewrite Hx.
Qed.



(** A row whose sales are not a number. *)
Definition unread_sales : gmap string cell :=
  list_to_map [("Platform", Str "Wii"); ("Year", Str "2006");
               ("Global_Sales", Str "abc")].

Lemma coercion_policy_witness :
  ∃ table r',
    @StreamApp.clean_df_call decimal_reader
      (mkDF ["Platform"; "Year"; "Global_Sales"] [unread_sales])
    = Returned table
    ∧ r' ∈ rows table
    ∧ r' !!! "Platform" = Str "Wii"
    ∧ r' !!! "Global_Sales" = Num 0.
Proof.
  destruct (@coercion_policy decimal_reader
              ["Platform"; "Year"; "Global_Sales"] [] [] unread_sales
              (mkFile [] 0)) as (_ & Hsales & _).
  edestruct (Hsales "Global_Sales")
    as (tb & ta & r' & _ & _ & Hrows & Hpl & Hzero & _).
  - apply (bool_decide_unpack _). by vm_compute.
  - apply (bool_decide_unpack _). by vm_compute.
  - reflexivity.
  - by vm_compute.
  - by vm_compute.
  - reflexivity.
  - cbn [app] in Hrows. eexists _, r'. split; [reflexivity|].
    split; [|split].
    + rewrite Hrows. apply elem_of_app. right. apply list_elem_of_here.
    + by rewrite Hpl.
    + by apply (Hzero "abc").
Defined.


(** A table with a regional sales column, and one row that has no value in
    it. *)
Definition regional_gap : DataFrame :=
  mkDF ["Platform"; "Year"; "NA_Sales"; "Global_Sales"]
       [list_to_map [("Platform", Str "Wii"); ("Year", Str "2006");
                     ("NA_Sales", NaN); ("Global_Sales", Str "82.74")]].

(** C10, as stated, fails: zero-filling is not kept to text that does not
    read as a number.  The row of [regional_gap] has nothing in [NA_Sales];
    it is kept, and its [NA_Sales] is [0.0]. *)
Lemma missing_regional_sales_zero_filled :
  tolist "NA_Sales" regional_gap = [NaN]
  ∧ @StreamApp.clean_df_call decimal_reader regional_gap
    = Returned (@StreamApp.clean_df decimal_reader regional_gap)
  ∧ tolist "NA_Sales" (@StreamApp.clean_df decimal_reader regional_gap)
    = [Num 0]
  ∧ tolist "Platform" (@StreamApp.clean_df decimal_reader regional_gap)
    = [Str "Wii"].
Proof.
  split; [apply (bool_decide_unpack _); by vm_compute|].
  split; [by vm_compute|].
  split; apply (bool_decide_unpack _); by vm_compute.
Qed.

(** C10, amended.  [clean_df] deletes every row whose [Platform] or
    [Global_Sales] is missing, so no missing [Global_Sales] is ever
    zero-filled: where a kept row gets [0.0] for a [Global_Sales] that was
    not read as a number, the cell held text.  The regional sales columns
    are not looked at when rows are deleted: a missing cell there is set to
    [0.0]. *)
Theorem missing_values_policy `{ToNumeric} (cols : list string)
    (before after : list (gmap string cell)) (r : gmap string cell) :
  let clean := λ l, StreamApp.clean_df_call (mkDF cols l) in
  (r !!! "Platform" = NaN ∨ r !!! "Global_Sales" = NaN →
     clean (before ++ r :: after) = clean (before ++ after))
  ∧ (∀ q table, coerce (r !!! "Year") = finite q →
     r !!! "Platform" ≠ NaN → r !!! "Global_Sales" ≠ NaN →
     clean (before ++ r :: after) = Returned table →
     ∃ tb ta r',
       clean before = Returned tb ∧ clean after = Returned ta
       ∧ rows table = rows tb ++ r' :: rows ta
       ∧ ("Global_Sales" ∈ cols →
          coerce (r !!! "Global_Sales") = unreadable →
          r' !!! "Global_Sales" = Num 0
          ∧ ∃ s, r !!! "Global_Sales" = Str s ∧ read_text s = unreadable)
       ∧ (∀ c, c ∈ ["NA_Sales"; "EU_Sales"; "JP_Sales"; "Other_Sales"] →
          c ∈ cols → r !!! c = NaN → r' !!! c = Num 0)).
Proof.
  intros clean. split.
  - intros Hm. apply Clean.clean_df_call_dropped.
    + rewrite Clean.survives_iff. naive_solver.
    + destruct (Clean.raises_at r) eqn:E; [|done].
      apply Is_true_true, Clean.raises_at_iff in E. naive_solver.
  - intros q table Hy Hpl Hg Hret.
    assert (Clean.survives r) as Hs.
    { apply Clean.survives_iff. unfold to_numeric. by rewrite Hy. }
    destruct (Clean.clean_df_call_kept cols before r after table Hs Hret)
      as (tb & ta & Eb & Ea & Hrows).
    exists tb, ta, (Clean.cleaned cols r).
    split; [done|]. split; [done|]. split; [done|]. split.
    + intros Hcols Hn.
      rewrite Clean.cleaned_sales by (done || by apply (bool_decide_unpack _)).
      unfold to_numeric. rewrite Hn. split; [done|].
      destruct (r !!! "Global_Sales") as [|p|s] eqn:E; try done.
      by exists s.
    + intros c Hc Hcols Hn.
      rewrite Clean.cleaned_sales; [by rewrite Hn| |done].
      unfold StreamApp.sales_columns. set_solver.
Qed.

(** What a cleaned table is made of: integer years, a platform in every
    row, numbers in the sales columns. *)
Lemma clean_df_typed `{ToNumeric} df r :
  r ∈ rows (StreamApp.clean_df df) →
  (∃ y : Z, r !!! "Year" = Num (Qc_of_Z y))
  ∧ r !!! "Platform" ≠ NaN
  ∧ (∀ c, c ∈ StreamApp.sales_columns → c ∈ columns df →
       ∃ q, r !!! c = Num q).
Proof.
  rewrite Clean.clean_df_rows, list_elem_of_fmap.
  intros (r0 & -> & Hr0). apply list_elem_of_filter in Hr0 as [Hs _].
  apply Clean.survives_iff in Hs as (Hy & Hp & Hg).
  split; [|split].
  - rewrite Clean.cleaned_year.
    destruct (to_numeric_typed (r0 !!! "Year")) as [E|[q E]]; [done|].
    rewrite E. by eexists.
  - rewrite Clean.cleaned_other; [done|done|].
    intros [Hin _]. apply (bool_decide_pack _) in Hin. by vm_compute in Hin.
  - intros c Hc Hcols. rewrite Clean.cleaned_sales by done.
    destruct (to_numeric_typed (r0 !!! c)) as [E|[q E]]; rewrite E;
      by eexists.
Qed.

(** ** Filtering *)

(** The rows the filter is to keep: the year within the bounds, and the
    platform among the selected ones when some are selected. *)
Definition retained (y0 y1 : Z) (platforms : list cell)
    (r : gmap string cell) : Prop :=
  (∃ q, r !!! "Year" = Num q ∧ Qc_of_Z y0 ≤ q ∧ q ≤ Qc_of_Z y1)
  ∧ (platforms = [] ∨ r !!! "Platform" ∈ platforms).

Global Instance retained_dec y0 y1 platforms r :
  Decision (retained y0 y1 platforms r).
Proof.
  unfold retained. destruct (r !!! "Year") as [|q|s].
  - right. by intros [(q' & ? & _) _].
  - destruct (decide (Qc_of_Z y0 ≤ q ∧ q ≤ Qc_of_Z y1
                      ∧ (platforms = [] ∨ r !!! "Platform" ∈ platforms)))
      as [Hd|Hd]; [left|right]; [naive_solver|].
    intros [(q' & [= <-] & ?) ?]. naive_solver.
  - right. by intros [(q' & ? & _) _].
Defined.

Lemma year_mask_iff (c : cell) (y0 y1 : Z) :
  ge_int c y0 && le_int c y1
  ↔ ∃ q, c = Num q ∧ Qc_of_Z y0 ≤ q ∧ q ≤ Qc_of_Z y1.
Proof.
  destruct c as [|q|s]; simpl; [naive_solver| |naive_solver].
  rewrite andb_True, !bool_decide_spec. naive_solver.
Qed.

Lemma fdf_rows y0 y1 platforms df :
  rows (StreamApp.fdf y0 y1 platforms df)
  = filter (retained y0 y1 platforms) (rows df).
Proof.
  unfold StreamApp.fdf. destruct platforms as [|p ps].
  - rewrite rows_select. apply filter_ext_elem. intros r _.
    rewrite year_mask_iff. unfold retained. naive_solver.
  - rewrite !rows_select, list_filter_filter. apply filter_ext_elem.
    intros r _. rewrite year_mask_iff. unfold retained, isin.
    rewrite bool_decide_spec. naive_solver.
Qed.

(** C2.  On a cleaned table the filter keeps exactly the rows whose year
    lies within the two bounds, both included, and whose platform is one of
    the selected ones; with no platform selected the platform is not looked
    at.  The rows kept stand in the order they had. *)
Theorem filter_retains_exactly `{ToNumeric} (df : DataFrame) (y0 y1 : Z)
    (platforms : list cell) :
  let table := StreamApp.clean_df df in
  let out := StreamApp.fdf y0 y1 platforms table in
  columns out = columns table
  ∧ rows out = filter (retained y0 y1 platforms) (rows table)
  ∧ rows out `sublist_of` rows table
  ∧ (∀ r, r ∈ rows table →
       ∃ y : Z, r !!! "Year" = Num (Qc_of_Z y)
         ∧ (r ∈ rows out ↔
            (y0 ≤ y ≤ y1)%Z
            ∧ (platforms = [] ∨ r !!! "Platform" ∈ platforms)))
  ∧ (∀ r, r ∈ rows table →
       ∃ y : Z, r !!! "Year" = Num (Qc_of_Z y)
         ∧ (r ∈ rows (StreamApp.fdf y0 y1 [] table) ↔ (y0 ≤ y ≤ y1)%Z)).
Proof.
  intros table out. subst out.
  assert (∀ ps r, r ∈ rows table →
    ∃ y : Z, r !!! "Year" = Num (Qc_of_Z y)
      ∧ (r ∈ rows (StreamApp.fdf y0 y1 ps table) ↔
         (y0 ≤ y ≤ y1)%Z ∧ (ps = [] ∨ r !!! "Platform" ∈ ps))) as Hin.
  { intros ps r Hr. destruct (clean_df_typed df r Hr) as [[y Hy] _].
    exists y. split; [done|].
    rewrite fdf_rows, list_elem_of_filter. unfold retained. rewrite Hy.
    rewrite !Z2Qc_inj_le. split.
    - intros [[(q & [= <-] & ? & ?) ?] _]. done.
    - intros [[??] ?]. split; [|done]. split; [|done]. by exists (Qc_of_Z y). }
  split; [|split; [|split; [|split]]].
  - unfold StreamApp.fdf. by destruct platforms.
  - apply fdf_rows.
  - rewrite fdf_rows. apply sublist_filter.
  - apply Hin.
  - intros r Hr. destruct (Hin [] r Hr) as (y & Hy & Hiff).
    exists y. split; [done|]. rewrite Hiff. naive_solver.
Qed.

(** ** Reading the upload *)

(** C5.  [load_csv] reads the bytes left in the file and parses them as
    UTF-8 first; only when that raises does it try Latin-1, and only when
    that raises too does it parse without an encoding.  The first parse that
    returns gives the result, and nothing is tried after it.  The call
    raises only when all three parses raise, and then with the exception of
    the last.  The cursor of the file is put back to the start. *)
Theorem load_csv_fallback (read_csv : reader) (f : UploadedFile) :
  let raw := drop (position f) (content f) in
  let result := (StreamApp.load_csv read_csv f).1.1 in
  let left := (StreamApp.load_csv read_csv f).1.2 in
  let calls := (StreamApp.load_csv read_csv f).2 in
  left = mkFile (content f) 0
  ∧ match read_csv raw (Some utf_8) with
    | Returned df => result = Returned df ∧ calls = [Some utf_8]
    | Raised _ =>
        match read_csv raw (Some latin_1) with
        | Returned df =>
            result = Returned df ∧ calls = [Some utf_8; Some latin_1]
        | Raised _ =>
            result = read_csv raw None
            ∧ calls = [Some utf_8; Some latin_1; None]
        end
    end
  ∧ ((∃ e, result = Raised e) ↔
     ∃ e1 e2 e3, read_csv raw (Some utf_8) = Raised e1
                 ∧ read_csv raw (Some latin_1) = Raised e2
                 ∧ read_csv raw None = Raised e3
                 ∧ result = Raised e3).
Proof.
  intros raw result left calls.
  subst result left calls. unfold StreamApp.load_csv. cbn [read seek content].
  fold raw. cbn [StreamApp.try_encodings].
  destruct (read_csv raw (Some utf_8)) as [df1|e1] eqn:E1;
    [|destruct (read_csv raw (Some latin_1)) as [df2|e2] eqn:E2]; cbn.
  - split; [done|]. split; [done|]. split; [by intros [??]|].
    by intros (?&?&?&?&_).
  - split; [done|]. split; [done|]. split; [by intros [??]|].
    by intros (?&?&?&_&?&_).
  - split; [done|]. split; [done|]. split.
    + intros [e He]. exists e1, e2, e. by rewrite He.
    + intros (?&?&e3&_&_&_&He). by exists e3.
Qed.

(** ** Empty results *)

Lemma ensure_columns_empty df c :
  StreamApp.ensure_columns df = ∅ → c ∈ StreamApp.required → c ∈ columns df.
Proof.
  unfold StreamApp.ensure_columns. intros He Hc.
  assert (c ∈ (list_to_set StreamApp.required : gset string)) as Hin
    by (by apply elem_of_list_to_set).
  destruct (decide (c ∈ columns df)) as [|Hn]; [done|].
  assert (c ∈ (∅ : gset string)) as Hf; [|set_solver].
  rewrite <-He. apply elem_of_difference. split; [done|].
  by rewrite elem_of_list_to_set.
Qed.

Lemma columns_foldl_assign f cs df c :
  c ∈ columns df → c ∈ columns (foldl (λ out c, assign c f out) df cs).
Proof.
  revert df. induction cs as [|c' cs IH]; intros df Hc; simpl; [done|].
  apply IH. apply elem_of_columns_assign. by left.
Qed.

Lemma clean_df_columns `{ToNumeric} df c :
  c ∈ columns df → c ∈ columns (StreamApp.clean_df df).
Proof.
  intros Hc. unfold StreamApp.clean_df. cbv zeta.
  apply columns_foldl_assign, elem_of_columns_assign. left.
  unfold dropna. rewrite columns_select. apply elem_of_columns_assign.
  by left.
Qed.

Lemma empty_rows df : columns df ≠ [] → empty df ↔ rows df = [].
Proof. intros Hc. unfold empty. rewrite bool_decide_spec. naive_solver. Qed.

(** ** How a run of stream_app.py goes *)

Lemma load_csv_result (read_csv : reader) (f : UploadedFile) :
  (StreamApp.load_csv read_csv f).1.1
  = let raw := drop (position f) (content f) in
    match read_csv raw (Some utf_8) with
    | Returned df => Returned df
    | Raised _ =>
        match read_csv raw (Some latin_1) with
        | Returned df => Returned df
        | Raised _ => read_csv raw None
        end
    end.
Proof.
  unfold StreamApp.load_csv, read. cbn [StreamApp.try_encodings]. cbv zeta.
  destruct (read_csv _ (Some utf_8)); [done|].
  destruct (read_csv _ (Some latin_1)); done.
Qed.

Lemma sorted_Returned (l opts : list cell) :
  sorted l = Returned opts → opts = merge_sort cell_le l.
Proof. unfold sorted. destruct (_ && _); [done|]. by intros [= <-]. Qed.

(** Sorting raises exactly on a list that holds text and something that is
    not text. *)
Lemma sorted_Raised (l : list cell) (e : string) :
  sorted l = Raised e
  ↔ e = "TypeError"
    ∧ (∃ s, Str s ∈ l) ∧ (∃ c, c ∈ l ∧ is_text c = false).
Proof.
  unfold sorted.
  destruct (existsb is_text l) eqn:Ht; cbn [andb].
  - destruct (existsb (λ c, negb (is_text c)) l) eqn:Hn.
    + apply existsb_exists in Ht as (x & Hx%list_elem_of_In & Hxt).
      apply existsb_exists in Hn as (y & Hy%list_elem_of_In & Hyt).
      split; [intros [= <-]|by intros [-> _]]. split; [done|]. split.
      * destruct x as [| |s]; try done. by exists s.
      * exists y. split; [done|]. by destruct (is_text y).
    + split; [done|]. intros (_ & _ & c & Hc & Hct).
      assert (existsb (λ c, negb (is_text c)) l = true) as Hex;
        [|by rewrite Hex in Hn].
      apply existsb_exists. exists c.
      split; [by apply list_elem_of_In|by rewrite Hct].
  - split; [done|]. intros (_ & [s Hs] & _).
    assert (existsb is_text l = true) as Hex; [|by rewrite Hex in Ht].
    apply existsb_exists. exists (Str s).
    split; [by apply list_elem_of_In|done].
Qed.

Section script.

Context (read_csv : reader) `{Quicksort} `{ToNumeric}.
Context (file : UploadedFile) (ui : StreamApp.Widgets)
        (boxes : StreamApp.Boxes).

Let script := StreamApp.script read_csv (Some file) ui boxes.

Lemma script_load_fails e :
  (StreamApp.load_csv read_csv file).1.1 = Raised e →
  script = StreamApp.Failed e.
Proof. intros Hload. unfold script, StreamApp.script. by rewrite Hload. Qed.

Lemma script_missing df :
  (StreamApp.load_csv read_csv file).1.1 = Returned df →
  StreamApp.ensure_columns df ≠ ∅ →
  script
  = StreamApp.Stopped
      (StreamApp.error_missing (StreamApp.ensure_columns df) (columns df)).
Proof.
  intros Hload Hm. unfold script, StreamApp.script. rewrite Hload. cbv zeta.
  by rewrite bool_decide_true.
Qed.

Lemma script_clean_fails df e :
  (StreamApp.load_csv read_csv file).1.1 = Returned df →
  StreamApp.ensure_columns df = ∅ →
  StreamApp.clean_df_call df = Raised e →
  script = StreamApp.Failed e.
Proof.
  intros Hload Hm Hclean. unfold script, StreamApp.script.
  rewrite Hload. cbv zeta.
  rewrite bool_decide_false by (by intros ?). by rewrite Hclean.
Qed.

Lemma table_empty df table :
  StreamApp.ensure_columns df = ∅ →
  StreamApp.clean_df_call df = Returned table →
  empty table ↔ rows table = [].
Proof.
  intros Hcols [_ ->]%Clean.clean_df_call_Returned. apply empty_rows.
  assert ("Year" ∈ columns (StreamApp.clean_df df)) as Hy.
  { apply clean_df_columns, ensure_columns_empty; [done|].
    by apply (bool_decide_unpack _). }
  intros He. rewrite He in Hy. by apply not_elem_of_nil in Hy.
Qed.

Lemma script_no_valid_data df table :
  (StreamApp.load_csv read_csv file).1.1 = Returned df →
  StreamApp.ensure_columns df = ∅ →
  StreamApp.clean_df_call df = Returned table →
  rows table = [] →
  script = StreamApp.Stopped StreamApp.warning_no_valid_data.
Proof.
  intros Hload Hm Hclean Hrows. unfold script, StreamApp.script.
  rewrite Hload. cbv zeta.
  rewrite bool_decide_false by (by intros ?). rewrite Hclean.
  apply (table_empty df table Hm Hclean) in Hrows.
  by destruct (empty table).
Qed.

Lemma script_sort_fails df table e :
  (StreamApp.load_csv read_csv file).1.1 = Returned df →
  StreamApp.ensure_columns df = ∅ →
  StreamApp.clean_df_call df = Returned table →
  rows table ≠ [] →
  sorted (remove_dups (tolist "Platform" table)) = Raised e →
  script = StreamApp.Failed e.
Proof.
  intros Hload Hm Hclean Hrows Hsort. unfold script, StreamApp.script.
  rewrite Hload. cbv zeta.
  rewrite bool_decide_false by (by intros ?). rewrite Hclean.
  destruct (empty table) eqn:He.
  { destruct Hrows. apply (table_empty df table Hm Hclean). by rewrite He. }
  by rewrite Hsort.
Qed.

(** A run that gets past the sort of the platforms: the rest of it. *)
Lemma script_sorted df table opts :
  (StreamApp.load_csv read_csv file).1.1 = Returned df →
  StreamApp.ensure_columns df = ∅ →
  StreamApp.clean_df_call df = Returned table →
  rows table ≠ [] →
  sorted (remove_dups (tolist "Platform" table)) = Returned opts →
  let range :=
    default (StreamApp.minimum (StreamApp.year_values table),
             StreamApp.maximum (StreamApp.year_values table))
            (StreamApp.year_range ui) in
  let selected :=
    default (StreamApp.top_platforms table (8 `min` length opts))
            (StreamApp.selected_platforms ui) in
  let fdf := StreamApp.fdf range.1 range.2 selected table in
  script
  = if empty fdf then StreamApp.Stopped StreamApp.warning_no_data
    else StreamApp.Shown
           (StreamApp.mkPage
              (StreamApp.kpis range.1 range.2 selected fdf)
              (StreamApp.mkCharts (StreamApp.by_year fdf)
                 (StreamApp.top_plat fdf) (StreamApp.by_year_platform fdf))
              (StreamApp.region_panel
                 (StreamApp.show_region_breakdown boxes) fdf)
              (if StreamApp.show_raw_table boxes
               then Some (StreamApp.cols fdf) else None)).
Proof.
  intros Hload Hm Hclean Hrows Hsort range selected fdf.
  unfold script, StreamApp.script. rewrite Hload. cbv zeta.
  rewrite bool_decide_false by (by intros ?). rewrite Hclean.
  destruct (empty table) eqn:He.
  { destruct Hrows. apply (table_empty df table Hm Hclean). by rewrite He. }
  rewrite Hsort. subst fdf selected. fold range.
  by destruct range as [y0 y1].
Qed.

End script.

(** C9.  Once the file is read and has the required columns, a table that
    cleaning or filtering leaves without rows ends the run with a warning:
    not with the error of a missing column, not with an exception.  A table
    in which no year is read as a number is cleaned, without an exception,
    to no rows, and that is such a run. *)
Theorem empty_result_is_a_warning (read_csv : reader) `{Quicksort}
    `{ToNumeric} (file : UploadedFile) (ui : StreamApp.Widgets)
    (boxes : StreamApp.Boxes) (df : DataFrame) :
  (StreamApp.load_csv read_csv file).1.1 = Returned df →
  StreamApp.ensure_columns df = ∅ →
  let run := StreamApp.script read_csv (Some file) ui boxes in
  (∀ table, StreamApp.clean_df_call df = Returned table → rows table = [] →
     run = StreamApp.Stopped StreamApp.warning_no_valid_data)
  ∧ (∀ table platform_options,
       StreamApp.clean_df_call df = Returned table → rows table ≠ [] →
       sorted (remove_dups (tolist "Platform" table))
       = Returned platform_options →
       let range :=
         default (StreamApp.minimum (StreamApp.year_values table),
                  StreamApp.maximum (StreamApp.year_values table))
                 (StreamApp.year_range ui) in
       let selected :=
         default (StreamApp.top_platforms table
                    (8 `min` length platform_options))
                 (StreamApp.selected_platforms ui) in
       let fdf := StreamApp.fdf range.1 range.2 selected table in
       (rows fdf = [] → run = StreamApp.Stopped StreamApp.warning_no_data)
       ∧ (rows fdf ≠ [] → ∃ page, run = StreamApp.Shown page))
  ∧ (Forall (λ r, coerce (r !!! "Year") = unreadable) (rows df) →
     ∃ table, StreamApp.clean_df_call df = Returned table
              ∧ rows table = []
              ∧ run = StreamApp.Stopped StreamApp.warning_no_valid_data)
  ∧ (∀ m, run = StreamApp.Stopped m →
          (m = StreamApp.warning_no_valid_data
           ∨ m = StreamApp.warning_no_data)
          ∧ StreamApp.level m = StreamApp.warning).
Proof.
  intros Hload Hcols run.
  split; [|split; [|split]].
  - intros table Hclean Hrows.
    by apply (script_no_valid_data read_csv file ui boxes df table).
  - intros table opts Hclean Hrows Hsort range selected fdf.
    subst run.
    rewrite (script_sorted read_csv file ui boxes df table opts) by done.
    cbv zeta. fold range. fold selected. fold fdf.
    assert (columns fdf ≠ []) as Hne.
    { apply Clean.clean_df_call_Returned in Hclean as [_ ->].
      assert ("Year" ∈ columns (StreamApp.clean_df df)) as Hy.
      { apply clean_df_columns, ensure_columns_empty; [done|].
        by apply (bool_decide_unpack _). }
      assert (columns fdf = columns (StreamApp.clean_df df)) as ->.
      { subst fdf. unfold StreamApp.fdf. cbv zeta.
        destruct selected; by rewrite !columns_select. }
      intros He. rewrite He in Hy. by apply not_elem_of_nil in Hy. }
    pose proof (empty_rows fdf Hne) as Hf.
    split.
    + intros Hr. apply Hf in Hr. by destruct (empty fdf).
    + intros Hr. destruct (empty fdf); [by destruct Hr; apply Hf|].
      by eexists.
  - intros Hall.
    assert (StreamApp.clean_df_raises df = false) as Hraise.
    { unfold StreamApp.clean_df_raises.
      destruct (existsb _ _) eqn:E; [|done].
      apply existsb_exists in E as (r & Hr%list_elem_of_In & Hr').
      rewrite list.Forall_forall in Hall. specialize (Hall r Hr).
      unfold reads_infinite in Hr'. by rewrite Hall in Hr'. }
    assert (rows (StreamApp.clean_df df) = []) as Hrows.
    { rewrite Clean.clean_df_rows. rewrite filter_none; [done|].
      eapply list.Forall_impl; [exact Hall|]. intros r Hr.
      rewrite Clean.survives_iff. unfold to_numeric. rewrite Hr.
      naive_solver. }
    exists (StreamApp.clean_df df).
    assert (StreamApp.clean_df_call df = Returned (StreamApp.clean_df df))
      as Hclean by (by apply Clean.clean_df_call_Returned).
    split; [done|]. split; [done|].
    by apply (script_no_valid_data read_csv file ui boxes df
                (StreamApp.clean_df df)).
  - intros m Hm. subst run.
    destruct (StreamApp.clean_df_call df) as [table|e] eqn:Hclean.
    2:{ by rewrite (script_clean_fails read_csv file ui boxes df e) in Hm. }
    destruct (decide (rows table = [])) as [Hr|Hr].
    { rewrite (script_no_valid_data read_csv file ui boxes df table) in Hm
        by done.
      injection Hm as <-. split; [by left|done]. }
    destruct (sorted (remove_dups (tolist "Platform" table)))
      as [opts|e] eqn:Hsort.
    2:{ by rewrite (script_sort_fails read_csv file ui boxes df table e)
          in Hm. }
    rewrite (script_sorted read_csv file ui boxes df table opts) in Hm
      by done.
    cbv zeta in Hm. destruct (empty (StreamApp.fdf _ _ _ _)); [|done].
    injection Hm as <-. split; [by right|done].
Qed.

(** ** Grouping *)

Lemma key_lt_le_ne k1 k2 : key_lt k1 k2 ↔ key_le k1 k2 ∧ k1 ≠ k2.
Proof.
  unfold key_lt, key_le. destruct (key_compare k1 k2) eqn:E; simpl.
  - apply key_compare_eq in E. naive_solver.
  - split; [|done]. intros _. split; [done|]. intros ->.
    by rewrite key_compare_refl in E.
  - naive_solver.
Qed.

Lemma cell_lt_le_ne a b : cell_lt a b ↔ cell_le a b ∧ a ≠ b.
Proof.
  unfold cell_lt, cell_le. destruct (cell_compare a b) eqn:E; simpl.
  - apply cell_compare_eq in E. naive_solver.
  - split; [|done]. intros _. split; [done|]. intros ->.
    by rewrite cell_compare_refl in E.
  - naive_solver.
Qed.

Lemma key_le_singleton a b : key_le [a] [b] ↔ cell_le a b.
Proof. unfold key_le, cell_le. simpl. by destruct (cell_compare a b). Qed.

Lemma key_lt_pair a1 a2 b1 b2 :
  key_lt [a1; a2] [b1; b2] ↔ cell_lt a1 b1 ∨ (a1 = b1 ∧ cell_lt a2 b2).
Proof.
  unfold key_lt, cell_lt. simpl.
  destruct (cell_compare a1 b1) eqn:E1.
  - apply cell_compare_eq in E1 as ->.
    destruct (cell_compare a2 b2); naive_solver.
  - naive_solver.
  - split; [done|]. intros [?|[-> _]]; [done|].
    by rewrite cell_compare_refl in E1.
Qed.

Lemma StronglySorted_weaken {A} (R1 R2 : relation A) (l : list A) :
  (∀ x y, R1 x y → R2 x y) → StronglySorted R1 l → StronglySorted R2 l.
Proof.
  intros HR. induction 1 as [|x l Hs IH Hx]; constructor; [done|].
  eapply list.Forall_impl; [exact Hx|]. auto.
Qed.

Lemma StronglySorted_strict {A} (R : relation A) (l : list A) :
  StronglySorted R l → NoDup l → StronglySorted (λ x y, R x y ∧ x ≠ y) l.
Proof.
  induction 1 as [|x l Hs IH Hx]; intros Hnd; constructor.
  - apply IH. by apply NoDup_cons in Hnd as [_ ?].
  - apply NoDup_cons in Hnd as [Hx' _].
    apply list.Forall_forall. intros y Hy. split.
    + by eapply list.Forall_forall in Hx.
    + by intros ->.
Qed.

Lemma NoDup_fmap_eq {A B} (f : A → B) (l : list A) x y :
  NoDup (f <$> l) → x ∈ l → y ∈ l → f x = f y → x = y.
Proof.
  induction l as [|z l IH]; intros Hnd Hx Hy Hf; [by apply not_elem_of_nil in Hx|].
  rewrite fmap_cons in Hnd. apply NoDup_cons in Hnd as [Hz Hnd].
  apply elem_of_cons in Hx as [->|Hx]; apply elem_of_cons in Hy as [->|Hy].
  - done.
  - destruct Hz. rewrite Hf. by apply list_elem_of_fmap_2.
  - destruct Hz. rewrite <-Hf. by apply list_elem_of_fmap_2.
  - by apply IH.
Qed.

Section groups.

Context (by_ : list string) (col : string).

Lemma length_key_of r : length (key_of by_ r) = length by_.
Proof. unfold key_of. by rewrite length_fmap. Qed.

Lemma elem_of_group_keys df k :
  k ∈ group_keys by_ df ↔
  key_present k ∧ ∃ r, r ∈ rows df ∧ key_of by_ r = k.
Proof.
  unfold group_keys.
  rewrite merge_sort_Permutation, elem_of_remove_dups.
  rewrite list_elem_of_filter, list_elem_of_fmap. naive_solver.
Qed.

Lemma group_keys_NoDup df : NoDup (group_keys by_ df).
Proof.
  unfold group_keys. rewrite merge_sort_Permutation. apply NoDup_remove_dups.
Qed.

(** The keys of the groups ascend strictly. *)
Lemma group_keys_sorted df : StronglySorted key_lt (group_keys by_ df).
Proof.
  apply (StronglySorted_weaken (λ k1 k2, key_le k1 k2 ∧ k1 ≠ k2)).
  - intros k1 k2. by rewrite key_lt_le_ne.
  - apply StronglySorted_strict; [|apply group_keys_NoDup].
    apply StronglySorted_merge_sort; apply _.
Qed.

Lemma group_keys_length df k : k ∈ group_keys by_ df → length k = length by_.
Proof.
  rewrite elem_of_group_keys. intros (_ & r & _ & <-). apply length_key_of.
Qed.

Lemma key_of_insert_ne c a (m : gmap string cell) l :
  c ∉ l → key_of l (<[c := a]> m) = key_of l m.
Proof.
  intros Hc. unfold key_of. apply list_fmap_ext. intros i c' Hi.
  rewrite lookup_total_insert_ne; [done|].
  intros ->. apply Hc. by eapply list_elem_of_lookup_2.
Qed.

Lemma key_of_list_to_map (l : list string) (k : list cell)
    (m : gmap string cell) :
  NoDup l → length k = length l →
  key_of l (list_to_map (zip l k) ∪ m) = k.
Proof.
  revert k. induction l as [|c l IH]; intros [|a k] Hnd Hlen; try done.
  apply NoDup_cons in Hnd as [Hc Hnd]. simpl in Hlen.
  cbn [zip zip_with]. rewrite list_to_map_cons, <-insert_union_l.
  unfold key_of. rewrite fmap_cons, lookup_total_insert_eq. f_equal.
  fold (key_of l (<[c:=a]> (list_to_map (zip l k) ∪ m))).
  rewrite key_of_insert_ne by done. apply IH; [done|lia].
Qed.

Hypothesis by_NoDup : NoDup by_.
Hypothesis col_fresh : col ∉ by_.

Lemma key_of_group_row k total :
  length k = length by_ → key_of by_ (group_row by_ col k total) = k.
Proof.
  intros Hlen. unfold group_row. rewrite list_to_map_app.
  by apply key_of_list_to_map.
Qed.

Lemma lookup_group_row k total :
  group_row by_ col k total !! col = Some (Num total).
Proof.
  unfold group_row. rewrite list_to_map_app, lookup_union_r.
  - cbn. apply lookup_insert_eq.
  - apply not_elem_of_list_to_map_1. intros Hin.
    apply list_elem_of_fmap in Hin as ([c v] & -> & Hin).
    apply elem_of_zip_l in Hin. done.
Qed.

Lemma lookup_total_group_row k total :
  group_row by_ col k total !!! col = Num total.
Proof. by rewrite lookup_total_alt, lookup_group_row. Qed.

Lemma elem_of_groupby_sum df r :
  r ∈ rows (groupby_sum by_ col df) ↔
  ∃ k, k ∈ group_keys by_ df ∧ r = group_row by_ col k (group_sum by_ col k df).
Proof. unfold groupby_sum. cbn. rewrite list_elem_of_fmap. naive_solver. Qed.

(** The keys of the rows of the result are the keys of the groups, in
    order. *)
Lemma keys_groupby_sum df :
  key_of by_ <$> rows (groupby_sum by_ col df) = group_keys by_ df.
Proof.
  unfold groupby_sum. cbn. rewrite <-list_fmap_compose.
  rewrite <-(list_fmap_id (group_keys by_ df)) at 2.
  apply list_fmap_ext. intros i k Hk. cbn.
  apply key_of_group_row, (group_keys_length df).
  by eapply list_elem_of_lookup_2.
Qed.

(** Each row of the result holds the sum of its group. *)
Lemma total_groupby_sum df r :
  r ∈ rows (groupby_sum by_ col df) →
  key_of by_ r ∈ group_keys by_ df
  ∧ r !!! col = Num (group_sum by_ col (key_of by_ r) df).
Proof.
  rewrite elem_of_groupby_sum. intros (k & Hk & ->).
  rewrite key_of_group_row by (by eapply group_keys_length).
  by rewrite lookup_total_group_row.
Qed.

Lemma groupby_sum_NoDup_keys df :
  NoDup (key_of by_ <$> rows (groupby_sum by_ col df)).
Proof. rewrite keys_groupby_sum. apply group_keys_NoDup. Qed.

Lemma groupby_sum_sorted df :
  StronglySorted (λ r1 r2, key_lt (key_of by_ r1) (key_of by_ r2))
                 (rows (groupby_sum by_ col df)).
Proof.
  pose proof (group_keys_sorted df) as Hs.
  rewrite <-keys_groupby_sum in Hs.
  induction (rows (groupby_sum by_ col df)) as [|r l IH]; [constructor|].
  rewrite fmap_cons in Hs. apply StronglySorted_inv in Hs as [Hl Hr].
  constructor; [by apply IH|]. rewrite Forall_fmap in Hr. exact Hr.
Qed.

End groups.

(** ** Sorting a table *)

Lemma filter_all {A} (P : A → Prop) `{!∀ x, Decision (P x)} (l : list A) :
  Forall P l → filter P l = l.
Proof.
  induction 1 as [|x l Hx _ IH]; [done|]. by rewrite filter_cons_True, IH.
Qed.

Lemma column_order_antisym c asc (r1 r2 : gmap string cell) :
  column_order c asc r1 r2 → column_order c asc r2 r1 → r1 !!! c = r2 !!! c.
Proof.
  unfold column_order. destruct asc; intros H1 H2.
  - by apply (anti_symm cell_le).
  - by apply (anti_symm cell_le).
Qed.

(** With every key present, [sort_values] is the sort alone. *)
Lemma sort_values_rows `{Quicksort} c asc df :
  Forall (λ r, r !!! c ≠ NaN) (rows df) →
  rows (sort_values c asc df) = quicksort (column_order c asc) (rows df).
Proof.
  intros Hp. unfold sort_values. cbn [rows].
  rewrite filter_all, filter_none, app_nil_r; [done| |].
  - eapply list.Forall_impl; [exact Hp|]. intros r Hr. cbv beta in Hr.
    destruct (r !!! c); simpl; [congruence|tauto..].
  - eapply list.Forall_impl; [exact Hp|]. intros r Hr. cbv beta in Hr.
    destruct (r !!! c); simpl; [congruence|tauto..].
Qed.

(** With every key present and no key twice, the result of [sort_values]
    does not depend on the sorting algorithm. *)
Lemma sort_values_unique `{Quicksort} c asc df l' :
  Forall (λ r, r !!! c ≠ NaN) (rows df) →
  NoDup (tolist c df) →
  StronglySorted (column_order c asc) l' → l' ≡ₚ rows df →
  rows (sort_values c asc df) = l'.
Proof.
  intros Hp Hnd Hs Hperm. rewrite sort_values_rows by done.
  apply quicksort_unique; [apply _..| |done|done].
  intros r1 r2 Hr1 Hr2 H12 H21.
  eapply (NoDup_fmap_eq (λ r, r !!! c)); [exact Hnd|done|done|].
  by eapply column_order_antisym.
Qed.

Lemma columns_sort_values `{Quicksort} c asc df :
  columns (sort_values c asc df) = columns df.
Proof. done. Qed.

Lemma DataFrame_eq (df1 df2 : DataFrame) :
  columns df1 = columns df2 → rows df1 = rows df2 → df1 = df2.
Proof. destruct df1, df2. simpl. by intros -> ->. Qed.

Lemma key_present_singleton a : key_present [a] ↔ a ≠ NaN.
Proof. unfold key_present. simpl. destruct a; naive_solver. Qed.

Lemma key_present_pair a b : key_present [a; b] ↔ a ≠ NaN ∧ b ≠ NaN.
Proof. unfold key_present. simpl. destruct a, b; naive_solver. Qed.

(** Sorting the sums of a grouping on one column by that column changes
    nothing: the groups come out ascending. *)
Lemma sort_values_groupby_sum `{Quicksort} c col df :
  c ≠ col →
  sort_values c true (groupby_sum [c] col df) = groupby_sum [c] col df.
Proof.
  intros Hne.
  assert (NoDup [c]) as Hnd by (apply NoDup_singleton).
  assert (col ∉ [c]) as Hfresh by set_solver.
  apply DataFrame_eq; [done|].
  apply sort_values_unique; [| | |done].
  - apply list.Forall_forall. intros r Hr.
    apply (total_groupby_sum [c] col Hnd Hfresh) in Hr as [Hk _].
    apply elem_of_group_keys in Hk as [Hk _].
    by apply key_present_singleton in Hk.
  - pose proof (groupby_sum_NoDup_keys [c] col Hnd df) as Hk.
    unfold tolist.
    eapply (NoDup_fmap_1 (λ a : cell, [a])).
    rewrite <-list_fmap_compose. exact Hk.
  - eapply StronglySorted_weaken;
      [|apply (groupby_sum_sorted [c] col Hnd)].
    intros r1 r2 Hlt. apply key_lt_le_ne in Hlt as [Hle _].
    by apply key_le_singleton in Hle.
Qed.

Lemma sort_values_by_groupby_sum by_ col df :
  NoDup by_ → col ∉ by_ →
  sort_values_by by_ (groupby_sum by_ col df) = groupby_sum by_ col df.
Proof.
  intros Hnd Hfresh. apply DataFrame_eq; [done|].
  unfold sort_values_by. cbn [rows]. apply stable_sort_sorted_id.
  eapply StronglySorted_weaken; [|by apply groupby_sum_sorted].
  intros r1 r2 Hlt. by apply key_lt_le_ne in Hlt as [Hle _].
Qed.

Lemma by_year_eq `{Quicksort} f :
  StreamApp.by_year f = groupby_sum ["Year"] "Global_Sales" f.
Proof. by apply sort_values_groupby_sum. Qed.

Lemma by_year_platform_eq f :
  StreamApp.by_year_platform f
  = groupby_sum ["Year"; "Platform"] "Global_Sales" f.
Proof.
  apply sort_values_by_groupby_sum; by apply (bool_decide_unpack _).
Qed.

Lemma key_lt_singleton a b : key_lt [a] [b] ↔ cell_lt a b.
Proof. unfold key_lt, cell_lt. simpl. by destruct (cell_compare a b). Qed.

Lemma group_key_has_row by_ col df k :
  NoDup by_ →
  k ∈ group_keys by_ df ↔
  ∃ r, r ∈ rows (groupby_sum by_ col df) ∧ key_of by_ r = k.
Proof.
  intros Hnd. rewrite <-(keys_groupby_sum by_ col Hnd df), list_elem_of_fmap.
  naive_solver.
Qed.

(** ** Aggregation *)

(** C6.  The sums by year, and by year and platform, come out in ascending
    order of the year and, within a year, of the platform; the order is
    strict, so a group has one row.  There is a row for a group exactly when
    the filtered table has a row of that year (and platform): a group
    without rows has no row in the result.  The row holds the sum of
    [Global_Sales] over the rows of its group. *)
Theorem aggregate_groups_sorted `{Quicksort} (fdf : DataFrame) :
  let by_year := rows (StreamApp.by_year fdf) in
  let by_year_platform := rows (StreamApp.by_year_platform fdf) in
  StronglySorted (λ r1 r2, cell_lt (r1 !!! "Year") (r2 !!! "Year")) by_year
  ∧ StronglySorted
      (λ r1 r2, cell_lt (r1 !!! "Year") (r2 !!! "Year")
                ∨ (r1 !!! "Year" = r2 !!! "Year"
                   ∧ cell_lt (r1 !!! "Platform") (r2 !!! "Platform")))
      by_year_platform
  ∧ (∀ y, (∃ r, r ∈ by_year ∧ r !!! "Year" = y) ↔
          y ≠ NaN ∧ ∃ r, r ∈ rows fdf ∧ r !!! "Year" = y)
  ∧ (∀ y p,
       (∃ r, r ∈ by_year_platform ∧ r !!! "Year" = y ∧ r !!! "Platform" = p) ↔
       y ≠ NaN ∧ p ≠ NaN
       ∧ ∃ r, r ∈ rows fdf ∧ r !!! "Year" = y ∧ r !!! "Platform" = p)
  ∧ (∀ r, r ∈ by_year →
       r !!! "Global_Sales"
       = Num (sum_cells
                ((λ r', r' !!! "Global_Sales")
                   <$> filter (λ r', r' !!! "Year" = r !!! "Year") (rows fdf))))
  ∧ (∀ r, r ∈ by_year_platform →
       r !!! "Global_Sales"
       = Num (sum_cells
                ((λ r', r' !!! "Global_Sales")
                   <$> filter (λ r', r' !!! "Year" = r !!! "Year"
                                     ∧ r' !!! "Platform" = r !!! "Platform")
                              (rows fdf)))).
Proof.
  intros by_year by_year_platform. subst by_year by_year_platform.
  rewrite by_year_eq, by_year_platform_eq.
  assert (NoDup ["Year"]) as Hnd1 by (by apply (bool_decide_unpack _)).
  assert (NoDup ["Year"; "Platform"]) as Hnd2
    by (by apply (bool_decide_unpack _)).
  assert ("Global_Sales" ∉ ["Year"]) as Hf1
    by (by apply (bool_decide_unpack _)).
  assert ("Global_Sales" ∉ ["Year"; "Platform"]) as Hf2
    by (by apply (bool_decide_unpack _)).
  split; [|split; [|split; [|split; [|split]]]].
  - eapply StronglySorted_weaken; [|by apply groupby_sum_sorted].
    intros r1 r2. cbn. by rewrite key_lt_singleton.
  - eapply StronglySorted_weaken; [|by apply groupby_sum_sorted].
    intros r1 r2. cbn. by rewrite key_lt_pair.
  - intros y.
    transitivity (∃ r, r ∈ rows (groupby_sum ["Year"] "Global_Sales" fdf)
                       ∧ key_of ["Year"] r = [y]).
    { cbn. naive_solver. }
    rewrite <-group_key_has_row by done.
    rewrite elem_of_group_keys, key_present_singleton. cbn. naive_solver.
  - intros y p.
    transitivity (∃ r, r ∈ rows (groupby_sum ["Year"; "Platform"]
                                   "Global_Sales" fdf)
                       ∧ key_of ["Year"; "Platform"] r = [y; p]).
    { cbn. naive_solver. }
    rewrite <-group_key_has_row by done.
    rewrite elem_of_group_keys, key_present_pair. cbn. naive_solver.
  - intros r Hr. apply total_groupby_sum in Hr as [_ ->]; [|done..].
    unfold group_sum, group. do 3 f_equal.
    apply filter_ext_elem. intros r' _. unfold key_of. cbn.
    split; [by intros [= ->]|by intros ->].
  - intros r Hr. apply total_groupby_sum in Hr as [_ ->]; [|done..].
    unfold group_sum, group. do 3 f_equal.
    apply filter_ext_elem. intros r' _. unfold key_of. cbn.
    split; [by intros [= -> ->]|by intros [-> ->]].
Qed.

(** ** Ranking *)

Lemma StronglySorted_weaken_elem {A} (R1 R2 : relation A) (l : list A) :
  (∀ x y, x ∈ l → y ∈ l → R1 x y → R2 x y) →
  StronglySorted R1 l → StronglySorted R2 l.
Proof.
  intros HR Hs. induction Hs as [|x l Hs IH Hx]; constructor.
  - apply IH. intros y z ??. apply HR; set_solver.
  - apply list.Forall_forall. intros y Hy.
    apply HR; [set_solver..|]. by eapply list.Forall_forall in Hx.
Qed.

Lemma cell_le_Num p q : cell_le (Num p) (Num q) ↔ p ≤ q.
Proof.
  unfold cell_le. simpl. rewrite Qcle_alt.
  destruct (p ?= q); simpl; naive_solver.
Qed.

(** The sums of a grouping, sorted by the sum, largest first: the same rows,
    rearranged so that no sum is followed by a larger one. *)
Lemma ranked `{Quicksort} c col t :
  c ≠ col →
  let g := groupby_sum [c] col t in
  rows (sort_values col false g) ≡ₚ rows g
  ∧ StronglySorted (λ r1 r2, number (r2 !!! col) ≤ number (r1 !!! col))
                   (rows (sort_values col false g)).
Proof.
  intros Hne g.
  assert (NoDup [c]) as Hnd by (apply NoDup_singleton).
  assert (col ∉ [c]) as Hfresh by set_solver.
  assert (∀ r, r ∈ rows g → ∃ q, r !!! col = Num q) as Hnum.
  { intros r Hr. apply total_groupby_sum in Hr as [_ ->]; [by eexists|done..]. }
  rewrite sort_values_rows.
  2:{ apply list.Forall_forall. intros r Hr.
      destruct (Hnum r Hr) as [q ->]. done. }
  split; [apply quicksort_Permutation|].
  eapply StronglySorted_weaken_elem;
    [|apply quicksort_StronglySorted; apply _].
  intros r1 r2 Hr1 Hr2. rewrite quicksort_Permutation in Hr1, Hr2.
  destruct (Hnum r1 Hr1) as [q1 E1], (Hnum r2 Hr2) as [q2 E2].
  unfold column_order. rewrite E1, E2. by rewrite cell_le_Num.
Qed.

(** Two platforms that sold the same; the one the table names first comes
    second in the alphabet. *)
Definition tied : DataFrame :=
  mkDF ["Platform"; "Year"; "Global_Sales"]
       [list_to_map [("Platform", Str "Wii"); ("Year", Num (Qc_of_Z 2006));
                     ("Global_Sales", Num 1)];
        list_to_map [("Platform", Str "NES"); ("Year", Num (Qc_of_Z 1985));
                     ("Global_Sales", Num 1)];
        list_to_map [("Platform", Str "Wii"); ("Year", Num (Qc_of_Z 2009));
                     ("Global_Sales", Num 1)];
        list_to_map [("Platform", Str "NES"); ("Year", Num (Qc_of_Z 1990));
                     ("Global_Sales", Num 1)]].

(** C3, as stated, fails: platforms with equal totals do not come out in
    the order in which the table first names them.  In [tied] the first
    platform is Wii, then NES, both with the total 2.  The grouping puts
    the platforms in ascending order, NES then Wii, and a sort that keeps
    equal keys in the order they come in returns them so: NES is ranked
    before Wii, in both scripts. *)
Lemma rank_ties_not_in_input_order :
  remove_dups (tolist "Platform" tied) = [Str "Wii"; Str "NES"]
  ∧ tolist "Platform" (groupby_sum ["Platform"] "Global_Sales" tied)
    = [Str "NES"; Str "Wii"]
  ∧ tolist "Global_Sales" (groupby_sum ["Platform"] "Global_Sales" tied)
    = [Num 2; Num 2]
  ∧ tolist "Platform" (@StreamApp.rank merge_quicksort 8 tied)
    = [Str "NES"; Str "Wii"]
  ∧ @StreamApp.top_platforms merge_quicksort tied 8 = [Str "NES"; Str "Wii"]
  ∧ tolist "Platform" (@App2.ranking merge_quicksort (App2.agg tied))
    = [Str "NES"; Str "Wii"].
Proof. repeat split; apply (bool_decide_unpack _); by vm_compute. Qed.

(** C3, amended.  The ranking holds the platforms of the filtered table,
    each once, with the sum of its [Global_Sales]; no total is followed by a
    larger one; the first [n] rows are returned, all of them when there are
    no more than [n].  Which of two platforms with equal totals comes first
    is left to the sort, which works on the groups, in the order of the
    grouping, and not on the rows of the input.  The ranking of app_2.py is
    the same without the limit. *)
Theorem rank_sorted_top `{Quicksort} (n : nat) (fdf agg : DataFrame) :
  let groups := rows (groupby_sum ["Platform"] "Global_Sales" fdf) in
  let out := rows (StreamApp.rank n fdf) in
  (∃ full, full ≡ₚ groups
     ∧ StronglySorted
         (λ r1 r2, number (r2 !!! "Global_Sales")
                   ≤ number (r1 !!! "Global_Sales")) full
     ∧ out = take n full)
  ∧ length out = n `min` length groups
  ∧ ((length groups ≤ n)%nat → out ≡ₚ groups)
  ∧ StreamApp.top_platforms fdf n = (λ r, r !!! "Platform") <$> out
  ∧ NoDup ((λ r, r !!! "Platform") <$> groups)
  ∧ (∀ p, (∃ r, r ∈ groups ∧ r !!! "Platform" = p) ↔
          p ≠ NaN ∧ ∃ r, r ∈ rows fdf ∧ r !!! "Platform" = p)
  ∧ (∀ r, r ∈ groups →
       r !!! "Global_Sales"
       = Num (sum_cells
                ((λ r', r' !!! "Global_Sales")
                   <$> filter (λ r', r' !!! "Platform" = r !!! "Platform")
                              (rows fdf))))
  ∧ rows (App2.ranking agg)
    ≡ₚ rows (groupby_sum ["Platform"] "Ventas_Globales" agg)
  ∧ StronglySorted
      (λ r1 r2, number (r2 !!! "Ventas_Globales")
                ≤ number (r1 !!! "Ventas_Globales"))
      (rows (App2.ranking agg)).
Proof.
  intros groups out.
  assert (NoDup ["Platform"]) as Hnd by (apply NoDup_singleton).
  assert ("Global_Sales" ∉ ["Platform"]) as Hf
    by (by apply (bool_decide_unpack _)).
  destruct (ranked "Platform" "Global_Sales" fdf) as [Hperm Hsorted]; [done|].
  destruct (ranked "Platform" "Ventas_Globales" agg) as [Hperm' Hsorted'];
    [done|].
  fold groups in Hperm.
  assert (length out = n `min` length groups) as Hlen.
  { subst out. unfold StreamApp.rank, head. cbn [rows].
    by rewrite length_take, Hperm. }
  split; [|split; [|split; [|split; [|split; [|split; [|split; [|split]]]]]]].
  - eexists. split; [exact Hperm|]. split; [exact Hsorted|done].
  - done.
  - intros Hn. subst out. unfold StreamApp.rank, head. cbn [rows].
    rewrite take_ge; [done|]. by rewrite Hperm.
  - done.
  - subst groups.
    pose proof (groupby_sum_NoDup_keys ["Platform"] "Global_Sales" Hnd fdf)
      as Hk.
    eapply (NoDup_fmap_1 (λ a : cell, [a])).
    rewrite <-list_fmap_compose. exact Hk.
  - intros p.
    transitivity (∃ r, r ∈ groups ∧ key_of ["Platform"] r = [p]).
    { cbn. naive_solver. }
    subst groups. rewrite <-group_key_has_row by done.
    rewrite elem_of_group_keys, key_present_singleton. cbn. naive_solver.
  - intros r Hr. apply total_groupby_sum in Hr as [_ ->]; [|done..].
    unfold group_sum, group. do 3 f_equal.
    apply filter_ext_elem. intros r' _. unfold key_of. cbn.
    split; [by intros [= ->]|by intros ->].
  - exact Hperm'.
  - exact Hsorted'.
Qed.

(** ** The scenario of the specification *)

Definition scenario : DataFrame :=
  mkDF ["Platform"; "Year"; "Global_Sales"]
       [list_to_map [("Platform", Str "Wii"); ("Year", Str "2006");
                     ("Global_Sales", Num (Q2Qc 82.74))];
        list_to_map [("Platform", Str "NES"); ("Year", Str "1985");
                     ("Global_Sales", Num (Q2Qc 40.24))];
        list_to_map [("Platform", Str "Wii"); ("Year", Str "2009");
                     ("Global_Sales", Num (Q2Qc 15.0))]].

(** When the totals differ, the ranking is the groups read backwards if
    that is a descending list. *)
Lemma rank_unique `{Quicksort} n fdf :
  let g := groupby_sum ["Platform"] "Global_Sales" fdf in
  NoDup (tolist "Global_Sales" g) →
  StronglySorted (column_order "Global_Sales" false) (reverse (rows g)) →
  rows (StreamApp.rank n fdf) = take n (reverse (rows g)).
Proof.
  intros g Hnd Hs. unfold StreamApp.rank, head. cbn [rows]. f_equal.
  apply sort_values_unique; [|done|done|apply reverse_Permutation].
  apply list.Forall_forall. intros r Hr.
  apply total_groupby_sum in Hr as [_ ->]; [done|apply NoDup_singleton|].
  by apply (bool_decide_unpack _).
Qed.

(** The years of the scenario are plain integers, which every reading
    reads alike: the table is cleaned to the same table under each. *)
Lemma to_numeric_agree_integer (H1 H2 : ToNumeric) s (z : Z) :
  decimal_literal s = Some (Qc_of_Z z) → (count_digits s ≤ 15)%nat →
  (Z.abs z < 2 ^ 53)%Z →
  @to_numeric H1 (Str s) = @to_numeric H2 (Str s).
Proof. intros Hs Hn Hz. by rewrite !(to_numeric_integer s z). Qed.

Lemma clean_df_scenario `{ToNumeric} :
  StreamApp.clean_df scenario = @StreamApp.clean_df decimal_reader scenario.
Proof.
  apply Clean.clean_df_agree. unfold scenario. cbn [rows].
  repeat (apply List.Forall_cons); [..|apply List.Forall_nil];
    intros c Hc;
    repeat (apply elem_of_cons in Hc as [->|Hc]);
    try (by apply not_elem_of_nil in Hc); try reflexivity.
  - apply (to_numeric_agree_integer _ _ "2006" 2006);
      [apply (bool_decide_unpack _); by vm_compute|vm_compute; lia|done].
  - apply (to_numeric_agree_integer _ _ "1985" 1985);
      [apply (bool_decide_unpack _); by vm_compute|vm_compute; lia|done].
  - apply (to_numeric_agree_integer _ _ "2009" 2009);
      [apply (bool_decide_unpack _); by vm_compute|vm_compute; lia|done].
Qed.

(** C8.  The three rows of the scenario are all kept by cleaning, with the
    years 2006, 1985 and 2009 as integers; the sums by year are 40.24 for
    1985, 82.74 for 2006 and 15.0 for 2009; the ranking is Wii with 97.74,
    then NES with 40.24. *)
Theorem scenario_results `{Quicksort} `{ToNumeric} :
  let table := StreamApp.clean_df scenario in
  length (rows table) = 3%nat
  ∧ tolist "Year" table
    = [Num (Qc_of_Z 2006); Num (Qc_of_Z 1985); Num (Qc_of_Z 2009)]
  ∧ tolist "Year" (StreamApp.by_year table)
    = [Num (Qc_of_Z 1985); Num (Qc_of_Z 2006); Num (Qc_of_Z 2009)]
  ∧ tolist "Global_Sales" (StreamApp.by_year table)
    = [Num (Q2Qc 40.24); Num (Q2Qc 82.74); Num (Q2Qc 15.0)]
  ∧ tolist "Platform" (StreamApp.top_plat table) = [Str "Wii"; Str "NES"]
  ∧ tolist "Global_Sales" (StreamApp.top_plat table)
    = [Num (Q2Qc 97.74); Num (Q2Qc 40.24)]
  ∧ StreamApp.top_platforms table 8 = [Str "Wii"; Str "NES"].
Proof.
  rewrite clean_df_scenario. intros table.
  assert (∀ n, rows (StreamApp.rank n table)
               = take n (reverse (rows (groupby_sum ["Platform"]
                                          "Global_Sales" table)))) as Hrank.
  { intros n. apply rank_unique; apply (bool_decide_unpack _); by vm_compute. }
  unfold StreamApp.top_platforms, StreamApp.top_plat, tolist.
  rewrite by_year_eq, !Hrank.
  repeat split; apply (bool_decide_unpack _); by vm_compute.
Qed.

(** ** Sums over a partition *)

Section sum_partition.

Context {A : Type} (key : A → cell) (val : A → cell).

(** The sum of [val] over the elements of [l] whose key is [p]. *)
Definition sum_at (l : list A) (p : cell) : Qc :=
  sum_cells (val <$> filter (λ x, key x = p) l).

Lemma sum_at_nil p : sum_at [] p = 0.
Proof. done. Qed.

Lemma sum_at_cons x l p :
  sum_at (x :: l) p
  = (if decide (key x = p) then number (val x) else 0) + sum_at l p.
Proof.
  unfold sum_at. rewrite filter_cons. case_decide; [done|].
  by rewrite Qcplus_0_l.
Qed.

Lemma sum_cells_zero (ps : list cell) :
  sum_cells ((λ _, Num 0) <$> ps) = 0.
Proof.
  induction ps as [|p ps IH]; [done|]. cbn. rewrite Qcplus_0_l. exact IH.
Qed.

Lemma sum_cells_plus (f g : cell → Qc) (ps : list cell) :
  sum_cells ((λ p, Num (f p + g p)) <$> ps)
  = sum_cells ((λ p, Num (f p)) <$> ps) + sum_cells ((λ p, Num (g p)) <$> ps).
Proof.
  induction ps as [|p ps IH]; [by rewrite Qcplus_0_l|]. cbn.
  fold (sum_cells ((λ p, Num (f p + g p)) <$> ps)).
  fold (sum_cells ((λ p, Num (f p)) <$> ps)).
  fold (sum_cells ((λ p, Num (g p)) <$> ps)).
  rewrite IH. ring.
Qed.

Lemma sum_cells_indicator (k : cell) (q : Qc) (ps : list cell) :
  NoDup ps → k ∈ ps →
  sum_cells ((λ p, Num (if decide (k = p) then q else 0)) <$> ps) = q.
Proof.
  induction ps as [|p ps IH]; intros Hnd Hk; [by apply not_elem_of_nil in Hk|].
  apply NoDup_cons in Hnd as [Hp Hnd]. cbn.
  fold (sum_cells ((λ p, Num (if decide (k = p) then q else 0)) <$> ps)).
  destruct (decide (k = p)) as [->|Hne].
  - rewrite (list_fmap_ext _ (λ _, Num 0) ps).
    + rewrite sum_cells_zero. ring.
    + intros i p' Hi. rewrite decide_False; [done|].
      intros ->. apply Hp. by eapply list_elem_of_lookup_2.
  - rewrite IH; [ring|done|]. set_solver.
Qed.

(** Summing group by group gives the sum of the whole, when the groups
    cover the list and no group is named twice. *)
Lemma sum_cells_partition (l : list A) (ps : list cell) :
  NoDup ps → Forall (λ x, key x ∈ ps) l →
  sum_cells ((λ p, Num (sum_at l p)) <$> ps) = sum_cells (val <$> l).
Proof.
  intros Hnd. induction 1 as [|x l Hx _ IH].
  - apply sum_cells_zero.
  - rewrite (list_fmap_ext _
      (λ p, Num ((if decide (key x = p) then number (val x) else 0)
                 + sum_at l p)) ps).
    + rewrite (sum_cells_plus
                 (λ p, if decide (key x = p) then number (val x) else 0)
                 (sum_at l)).
      rewrite sum_cells_indicator by done. rewrite IH. done.
    + intros i p _. by rewrite sum_at_cons.
Qed.

End sum_partition.

(** ** The pivot *)

Lemma filter_key_singleton {A B} `{EqDecision B} (k : A → B) (l : list A) x :
  NoDup (k <$> l) → x ∈ l → filter (λ z, k z = k x) l = [x].
Proof.
  induction l as [|z l IH]; intros Hnd Hx; [by apply not_elem_of_nil in Hx|].
  rewrite fmap_cons in Hnd. apply NoDup_cons in Hnd as [Hz Hnd].
  rewrite filter_cons. apply elem_of_cons in Hx as [->|Hx].
  - rewrite decide_True by done. f_equal. apply filter_none.
    apply list.Forall_forall. intros y Hy Hk. apply Hz. rewrite <-Hk.
    by apply list_elem_of_fmap_2.
  - rewrite decide_False; [by apply IH|].
    intros Hk. apply Hz. rewrite Hk. by apply list_elem_of_fmap_2.
Qed.

Lemma filter_key_absent {A B} `{EqDecision B} (k : A → B) (l : list A) b :
  b ∉ k <$> l → filter (λ z, k z = b) l = [].
Proof.
  intros Hb. apply filter_none, list.Forall_forall. intros z Hz Hk.
  apply Hb. rewrite <-Hk. by apply list_elem_of_fmap_2.
Qed.

Lemma zip_fmap_r {A B} (f : A → B) (l : list A) :
  zip l (f <$> l) = (λ x, (x, f x)) <$> l.
Proof. induction l as [|x l IH]; [done|]. cbn. by rewrite <-IH. Qed.

Lemma zip_fst_snd_eq {A B} (l : list (A * B)) : zip (l.*1) (l.*2) = l.
Proof. induction l as [|[a b] l IH]; [done|]. cbn. by rewrite IH. Qed.

Module Pivot.

(** The row of [agg] for the platform [p] and the year [y], with the sum
    [s]. *)
Definition agg_row (p y : cell) (s : Qc) : gmap string cell :=
  rename_row "Global_Sales" "Ventas_Globales"
    (group_row ["Platform"; "Year"] "Global_Sales" [p; y] s).

Lemma agg_row_lookup p y s :
  agg_row p y s !!! "Platform" = p
  ∧ agg_row p y s !!! "Year" = y
  ∧ agg_row p y s !!! "Ventas_Globales" = Num s.
Proof.
  unfold agg_row, rename_row, group_row. cbn.
  rewrite !lookup_total_alt. by simplify_map_eq.
Qed.

Lemma key_of_agg_row p y s :
  key_of ["Year"; "Platform"] (agg_row p y s) = [y; p].
Proof.
  destruct (agg_row_lookup p y s) as (Hp & Hy & _).
  unfold key_of. cbn. by rewrite Hp, Hy.
Qed.

Lemma two_cells (k : list cell) : length k = 2%nat → ∃ a b, k = [a; b].
Proof. destruct k as [|a [|b [|??]]]; try done. by eexists _, _. Qed.

Lemma elem_of_agg f r :
  r ∈ rows (App2.agg f) ↔
  ∃ p y, [p; y] ∈ group_keys ["Platform"; "Year"] f
         ∧ r = agg_row p y (group_sum ["Platform"; "Year"] "Global_Sales"
                              [p; y] f).
Proof.
  unfold App2.agg, rename. cbn [rows].
  rewrite list_elem_of_fmap. split.
  - intros (r0 & -> & Hr0). apply elem_of_groupby_sum in Hr0 as (k & Hk & ->).
    destruct (two_cells k) as (p & y & ->).
    { by apply (group_keys_length ["Platform"; "Year"] f). }
    by exists p, y.
  - intros (p & y & Hk & ->). eexists. split; [done|].
    apply elem_of_groupby_sum. by eexists.
Qed.

Lemma agg_keys_NoDup f :
  NoDup (key_of ["Year"; "Platform"] <$> rows (App2.agg f)).
Proof.
  unfold App2.agg, rename, groupby_sum. cbn [rows].
  rewrite <-!list_fmap_compose.
  apply NoDup_fmap_2_strong; [|apply group_keys_NoDup].
  intros k1 k2 Hk1 Hk2.
  destruct (two_cells k1) as (p1 & y1 & ->);
    [by apply (group_keys_length ["Platform"; "Year"] f)|].
  destruct (two_cells k2) as (p2 & y2 & ->);
    [by apply (group_keys_length ["Platform"; "Year"] f)|].
  unfold compose.
  pose proof (key_of_agg_row p1 y1 (group_sum ["Platform"; "Year"]
                "Global_Sales" [p1; y1] f)) as E1.
  pose proof (key_of_agg_row p2 y2 (group_sum ["Platform"; "Year"]
                "Global_Sales" [p2; y2] f)) as E2.
  unfold agg_row in E1, E2. rewrite E1, E2. by intros [= -> ->].
Qed.

(** The sum of [Global_Sales] over the rows of the year [y] and the
    platform [p]; zero when there are none. *)
Definition cell_sum (f : DataFrame) (y p : cell) : Qc :=
  sum_at (λ r, r !!! "Platform") (λ r, r !!! "Global_Sales")
         (filter (λ r, r !!! "Year" = y) (rows f)) p.

Lemma group_sum_cell f p y :
  group_sum ["Platform"; "Year"] "Global_Sales" [p; y] f = cell_sum f y p.
Proof.
  unfold group_sum, group, cell_sum, sum_at. rewrite list_filter_filter.
  do 2 f_equal. apply filter_ext_elem. intros r _. unfold key_of. cbn.
  split; [by intros [= -> ->]|by intros [-> ->]].
Qed.

Lemma group_key_iff f p y :
  [p; y] ∈ group_keys ["Platform"; "Year"] f ↔
  p ≠ NaN ∧ y ≠ NaN
  ∧ ∃ r, r ∈ rows f ∧ r !!! "Platform" = p ∧ r !!! "Year" = y.
Proof.
  rewrite elem_of_group_keys, key_present_pair. unfold key_of. cbn.
  split.
  - intros ([??] & r & ? & [= ??]). eauto 10.
  - intros (? & ? & r & ? & <- & <-). eauto 10.
Qed.

Lemma pivot_group_keys f y p :
  [y; p] ∈ group_keys ["Year"; "Platform"] (App2.agg f) ↔
  [p; y] ∈ group_keys ["Platform"; "Year"] f.
Proof.
  rewrite elem_of_group_keys. split.
  - intros (_ & r & Hr & Hk). apply elem_of_agg in Hr as (p' & y' & Hk' & ->).
    rewrite key_of_agg_row in Hk. by injection Hk as -> ->.
  - intros Hk. split.
    + apply group_key_iff in Hk as (? & ? & _). by apply key_present_pair.
    + eexists. split; [|apply key_of_agg_row].
      apply elem_of_agg. eauto.
Qed.

Lemma pivot_group_sum f y p :
  [p; y] ∈ group_keys ["Platform"; "Year"] f →
  group_sum ["Year"; "Platform"] "Ventas_Globales" [y; p] (App2.agg f)
  = cell_sum f y p.
Proof.
  intros Hk. unfold group_sum, group.
  set (s := group_sum ["Platform"; "Year"] "Global_Sales" [p; y] f).
  assert (agg_row p y s ∈ rows (App2.agg f)) as Hr
    by (apply elem_of_agg; eauto).
  rewrite <-(key_of_agg_row p y s).
  rewrite (filter_key_singleton (key_of ["Year"; "Platform"]));
    [|apply agg_keys_NoDup|done].
  cbn. destruct (agg_row_lookup p y s) as (_ & _ & ->). cbn.
  rewrite Qcplus_0_r. apply group_sum_cell.
Qed.

Lemma pivot_cell_eq f y p :
  y ≠ NaN → p ≠ NaN →
  pivot_cell "Year" "Platform" "Ventas_Globales" 0
    (groupby_sum ["Year"; "Platform"] "Ventas_Globales" (App2.agg f)) y p
  = Num (cell_sum f y p).
Proof.
  intros Hy Hp. unfold pivot_cell.
  assert (NoDup ["Year"; "Platform"]) as Hnd
    by (by apply (bool_decide_unpack _)).
  assert ("Ventas_Globales" ∉ ["Year"; "Platform"]) as Hf
    by (by apply (bool_decide_unpack _)).
  set (g := groupby_sum ["Year"; "Platform"] "Ventas_Globales" (App2.agg f)).
  destruct (decide ([p; y] ∈ group_keys ["Platform"; "Year"] f)) as [Hk|Hk].
  - set (t := group_sum ["Year"; "Platform"] "Ventas_Globales" [y; p]
                (App2.agg f)).
    set (r := group_row ["Year"; "Platform"] "Ventas_Globales" [y; p] t).
    assert (r ∈ rows g) as Hr.
    { apply elem_of_groupby_sum. exists [y; p]. split; [|done].
      by apply pivot_group_keys. }
    assert (key_of ["Year"; "Platform"] r = [y; p]) as Hkr
      by (by apply key_of_group_row).
    rewrite <-Hkr.
    rewrite (filter_key_singleton (key_of ["Year"; "Platform"]));
      [|by apply groupby_sum_NoDup_keys|done].
    subst r. rewrite lookup_total_group_row by done.
    subst t. by rewrite pivot_group_sum.
  - rewrite (filter_key_absent (key_of ["Year"; "Platform"])).
    + f_equal. unfold cell_sum, sum_at. rewrite list_filter_filter.
      rewrite filter_none; [done|].
      apply list.Forall_forall. intros r Hr [Hrp Hry]. apply Hk.
      apply group_key_iff. eauto 10.
    + subst g. rewrite keys_groupby_sum by done. by rewrite pivot_group_keys.
Qed.

Lemma elem_of_sorted_distinct (l : list cell) x :
  x ∈ merge_sort cell_le (remove_dups l) ↔ x ∈ l.
Proof. by rewrite merge_sort_Permutation, elem_of_remove_dups. Qed.

Lemma elem_of_pivot_index f y :
  y ∈ index (pivot_table "Year" "Platform" "Ventas_Globales" 0 (App2.agg f))
  ↔ ∃ p, [p; y] ∈ group_keys ["Platform"; "Year"] f.
Proof.
  assert (NoDup ["Year"; "Platform"]) as Hnd
    by (by apply (bool_decide_unpack _)).
  assert ("Ventas_Globales" ∉ ["Year"; "Platform"]) as Hf
    by (by apply (bool_decide_unpack _)).
  unfold pivot_table. cbn [index].
  rewrite elem_of_sorted_distinct. unfold tolist. rewrite list_elem_of_fmap.
  split.
  - intros (r & -> & Hr). exists (r !!! "Platform").
    apply total_groupby_sum in Hr as [Hk _]; [|done..].
    by apply pivot_group_keys.
  - intros (p & Hk). apply pivot_group_keys in Hk.
    apply (group_key_has_row _ "Ventas_Globales") in Hk as (r & Hr & Hkr);
      [|done].
    exists r. split; [|done]. unfold key_of in Hkr. cbn in Hkr. congruence.
Qed.

Lemma elem_of_pivot_labels f p :
  p ∈ labels (pivot_table "Year" "Platform" "Ventas_Globales" 0 (App2.agg f))
  ↔ ∃ y, [p; y] ∈ group_keys ["Platform"; "Year"] f.
Proof.
  assert (NoDup ["Year"; "Platform"]) as Hnd
    by (by apply (bool_decide_unpack _)).
  assert ("Ventas_Globales" ∉ ["Year"; "Platform"]) as Hf
    by (by apply (bool_decide_unpack _)).
  unfold pivot_table. cbn [labels].
  rewrite elem_of_sorted_distinct. unfold tolist. rewrite list_elem_of_fmap.
  split.
  - intros (r & -> & Hr). exists (r !!! "Year").
    apply total_groupby_sum in Hr as [Hk _]; [|done..].
    by apply pivot_group_keys.
  - intros (y & Hk). apply pivot_group_keys in Hk.
    apply (group_key_has_row _ "Ventas_Globales") in Hk as (r & Hr & Hkr);
      [|done].
    exists r. split; [|done]. unfold key_of in Hkr. cbn in Hkr. congruence.
Qed.

Lemma pivot_labels_NoDup f :
  NoDup (labels (pivot_table "Year" "Platform" "Ventas_Globales" 0
                   (App2.agg f))).
Proof.
  unfold pivot_table. cbn [labels]. rewrite merge_sort_Permutation.
  apply NoDup_remove_dups.
Qed.

(** Every row of the pivot is the row of one year of the table; its cells
    are the sums of the platforms in that year, and they add up to the sum
    of the year. *)
Lemma pivot_rows `{Quicksort} f y cells :
  Forall (λ r, r !!! "Platform" ≠ NaN) (rows f) →
  (y, cells) ∈ zip (index (App2.pivot (App2.agg f)))
                   (values (App2.pivot (App2.agg f))) →
  cells = (λ p, Num (cell_sum f y p))
            <$> labels (App2.pivot (App2.agg f))
  ∧ [y] ∈ group_keys ["Year"] f
  ∧ sum_cells cells = group_sum ["Year"] "Global_Sales" [y] f.
Proof.
  intros Hplat. unfold App2.pivot, sort_index. cbn [index values labels].
  rewrite zip_fst_snd_eq, quicksort_Permutation.
  set (P0 := pivot_table "Year" "Platform" "Ventas_Globales" 0 (App2.agg f)).
  unfold pivot_table in P0. subst P0. cbn [index values labels].
  rewrite zip_fmap_r, list_elem_of_fmap. intros (y' & [= <- ->] & Hy).
  fold (labels (pivot_table "Year" "Platform" "Ventas_Globales" 0
                  (App2.agg f))).
  fold (index (pivot_table "Year" "Platform" "Ventas_Globales" 0
                 (App2.agg f))) in Hy.
  apply elem_of_pivot_index in Hy as (p0 & Hk0).
  apply group_key_iff in Hk0 as (_ & Hy & r0 & Hr0 & _ & Hr0y).
  rewrite (list_fmap_ext _ (λ p, Num (cell_sum f y p))).
  2:{ intros i p Hp. apply list_elem_of_lookup_2 in Hp.
      apply elem_of_pivot_labels in Hp as (y1 & Hk1).
      apply group_key_iff in Hk1 as (Hpn & _).
      by apply pivot_cell_eq. }
  split; [done|]. split.
  - apply elem_of_group_keys. split; [by apply key_present_singleton|].
    exists r0. split; [done|]. unfold key_of. cbn. by rewrite Hr0y.
  - unfold cell_sum. rewrite sum_cells_partition.
    + unfold group_sum, group. do 2 f_equal. apply filter_ext_elem.
      intros r _. unfold key_of. cbn.
      split; [by intros ->|by intros [= ->]].
    + apply pivot_labels_NoDup.
    + apply list.Forall_forall. intros r Hr.
      apply list_elem_of_filter in Hr as [Hry Hr].
      apply elem_of_pivot_labels. exists y. apply group_key_iff.
      split; [|split; [done|by eauto]].
      by eapply list.Forall_forall in Hplat.
Qed.

Lemma pivot_index `{Quicksort} f y :
  Forall (λ r, r !!! "Platform" ≠ NaN) (rows f) →
  [y] ∈ group_keys ["Year"] f → y ∈ index (App2.pivot (App2.agg f)).
Proof.
  intros Hplat Hk. unfold App2.pivot, sort_index. cbn [index].
  set (P0 := pivot_table "Year" "Platform" "Ventas_Globales" 0 (App2.agg f)).
  assert (y ∈ index P0) as Hy.
  { apply elem_of_pivot_index.
    apply elem_of_group_keys in Hk as (Hp & r & Hr & Hkr).
    apply key_present_singleton in Hp.
    unfold key_of in Hkr. cbn in Hkr. injection Hkr as Hry.
    exists (r !!! "Platform"). apply group_key_iff.
    split; [|split; [done|by eauto]].
    by eapply list.Forall_forall in Hplat. }
  assert (length (index P0) = length (values P0)) as Hlen.
  { unfold P0, pivot_table. cbn [index values]. by rewrite length_fmap. }
  rewrite <-(fst_zip (index P0) (values P0)) in Hy by lia.
  apply list_elem_of_fmap in Hy as (yc & -> & Hyc).
  apply list_elem_of_fmap. exists yc. split; [done|].
  by rewrite quicksort_Permutation.
Qed.

End Pivot.

(** C4.  Take a filtered table, sum it by platform and year, and pivot the
    sums with the years as rows and the platforms as columns.  The cell of a
    year and a platform is the sum of [Global_Sales] over the rows of that
    year and platform, which is [0.0] where there is no such row.  The cells
    of a year add up to the sum that grouping on the year alone gives for
    that year, and every year of the one is a year of the other.  (Sums are
    exact here; the rounding of floating-point addition is outside the
    model.) *)
Theorem pivot_row_sums `{Quicksort} `{ToNumeric} (df : DataFrame) (y0 y1 : Z)
    (platforms : list cell) :
  let fdf := StreamApp.fdf y0 y1 platforms (StreamApp.clean_df df) in
  let p := App2.pivot (App2.agg fdf) in
  let by_year := rows (StreamApp.by_year fdf) in
  length (index p) = length (values p)
  ∧ (∀ y cells, (y, cells) ∈ zip (index p) (values p) →
       length cells = length (labels p)
       ∧ ∃ r, r ∈ by_year ∧ r !!! "Year" = y
              ∧ r !!! "Global_Sales" = Num (sum_cells cells))
  ∧ (∀ r, r ∈ by_year → r !!! "Year" ∈ index p)
  ∧ (∀ y cells j pl, (y, cells) ∈ zip (index p) (values p) →
       labels p !! j = Some pl →
       cells !! j
       = Some (Num (sum_cells
                      ((λ r, r !!! "Global_Sales")
                         <$> filter (λ r, r !!! "Year" = y
                                          ∧ r !!! "Platform" = pl)
                                    (rows fdf)))))
  ∧ (∀ y cells j pl, (y, cells) ∈ zip (index p) (values p) →
       labels p !! j = Some pl →
       (∀ r, r ∈ rows fdf → ¬ (r !!! "Year" = y ∧ r !!! "Platform" = pl)) →
       cells !! j = Some (Num 0)).
Proof.
  intros fdf p by_year.
  assert (NoDup ["Year"]) as Hnd by (by apply (bool_decide_unpack _)).
  assert ("Global_Sales" ∉ ["Year"]) as Hf
    by (by apply (bool_decide_unpack _)).
  assert (Forall (λ r, r !!! "Platform" ≠ NaN) (rows fdf)) as Hplat.
  { apply list.Forall_forall. intros r Hr. subst fdf.
    rewrite fdf_rows in Hr. apply list_elem_of_filter in Hr as [_ Hr].
    by apply clean_df_typed in Hr as (_ & ? & _). }
  assert (∀ y cells j pl, (y, cells) ∈ zip (index p) (values p) →
       labels p !! j = Some pl →
       cells !! j
       = Some (Num (sum_cells
                      ((λ r, r !!! "Global_Sales")
                         <$> filter (λ r, r !!! "Year" = y
                                          ∧ r !!! "Platform" = pl)
                                    (rows fdf))))) as Hcell.
  { intros y cells j pl Hin Hj.
    apply Pivot.pivot_rows in Hin as (-> & _); [|done].
    rewrite list_lookup_fmap. fold p. rewrite Hj. cbn. do 2 f_equal.
    unfold Pivot.cell_sum, sum_at. rewrite list_filter_filter.
    do 2 f_equal. apply filter_ext_elem. intros r _. naive_solver. }
  split; [|split; [|split; [|split]]].
  - subst p. unfold App2.pivot, sort_index. cbn [index values].
    by rewrite !length_fmap.
  - intros y cells Hin.
    apply Pivot.pivot_rows in Hin as (Hcells & Hk & Hsum); [|done].
    split; [by rewrite Hcells, length_fmap|].
    apply (group_key_has_row _ "Global_Sales") in Hk as (r & Hr & Hkr);
      [|done].
    exists r. subst by_year. rewrite by_year_eq. split; [done|].
    unfold key_of in Hkr. cbn in Hkr. injection Hkr as Hry.
    split; [done|].
    apply total_groupby_sum in Hr as [_ ->]; [|done..].
    unfold key_of. cbn. by rewrite Hry, Hsum.
  - intros r Hr. subst by_year. rewrite by_year_eq in Hr.
    apply total_groupby_sum in Hr as [Hk _]; [|done..].
    by apply Pivot.pivot_index.
  - exact Hcell.
  - intros y cells j pl Hin Hj Hnone. rewrite (Hcell y cells j pl) by done.
    rewrite filter_none; [done|].
    apply list.Forall_forall. intros r Hr. by apply Hnone.
Qed.

(** ** A run that ends with the warning *)

(** A file whose only row has a year that does not read as a number. *)
Definition no_valid_year : DataFrame :=
  mkDF ["Platform"; "Year"; "Global_Sales"]
       [list_to_map [("Platform", Str "Wii"); ("Year", Str "abc");
                     ("Global_Sales", Str "82.74")]].

(** C9, at a concrete file: the run on [no_valid_year] stops with the
    warning of no valid data. *)
Lemma empty_result_is_a_warning_witness :
  @StreamApp.script (Load.reading no_valid_year) merge_quicksort
    decimal_reader (Some (mkFile [] 0)) (StreamApp.mkWidgets None None)
    (StreamApp.mkBoxes true false)
  = StreamApp.Stopped StreamApp.warning_no_valid_data.
Proof.
  destruct (@empty_result_is_a_warning (Load.reading no_valid_year)
              merge_quicksort decimal_reader (mkFile [] 0)
              (StreamApp.mkWidgets None None) (StreamApp.mkBoxes true false)
              no_valid_year) as (Hrun & _).
  - reflexivity.
  - by vm_compute.
  - apply (Hrun (@StreamApp.clean_df decimal_reader no_valid_year)).
    + reflexivity.
    + apply (bool_decide_unpack _). by vm_compute.
Defined.

(** * Further properties of the scripts *)

(** ** How a run of stream_app.py ends *)

(** Cleaning raises exactly on a table with a row that has a platform and
    global sales and whose year reads as an infinity. *)
Lemma clean_df_raises_iff `{ToNumeric} (df : DataFrame) :
  StreamApp.clean_df_raises df = true
  ↔ ∃ r, r ∈ rows df ∧ coerce (r !!! "Year") = infinite
         ∧ r !!! "Platform" ≠ NaN ∧ r !!! "Global_Sales" ≠ NaN.
Proof.
  unfold StreamApp.clean_df_raises. rewrite existsb_exists. split.
  - intros (r & Hr%list_elem_of_In & Hraise). exists r. split; [done|].
    apply Clean.raises_at_iff. unfold Clean.raises_at. by rewrite Hraise.
  - intros (r & Hr & Hraise). exists r. split; [by apply list_elem_of_In|].
    apply Clean.raises_at_iff in Hraise. by apply Is_true_true.
Qed.

(** X1.  A run of stream_app.py dies of an exception in three cases, and in no
    other.  The three parses of the file all raise: the exception is that of
    the last parse, the one without an encoding, and nothing in the script
    catches it.  Or the file was parsed, has the required columns, and a row
    that has a platform and global sales has a year that reads as an
    infinity: the conversion of the years to integers raises.  Or the table
    was cleaned, and its platforms hold text and numbers: sorting them for the
    sidebar raises. *)
Theorem script_failures (read_csv : reader) `{Quicksort} `{ToNumeric}
    (file : UploadedFile) (ui : StreamApp.Widgets) (boxes : StreamApp.Boxes)
    (e : string) :
  let raw := drop (position file) (content file) in
  StreamApp.script read_csv (Some file) ui boxes = StreamApp.Failed e
  ↔ (∃ e1 e2, read_csv raw (Some utf_8) = Raised e1
              ∧ read_csv raw (Some latin_1) = Raised e2
              ∧ read_csv raw None = Raised e)
    ∨ (∃ df r,
         (StreamApp.load_csv read_csv file).1.1 = Returned df
         ∧ StreamApp.ensure_columns df = ∅
         ∧ e = "IntCastingNaNError"
         ∧ r ∈ rows df ∧ coerce (r !!! "Year") = infinite
         ∧ r !!! "Platform" ≠ NaN ∧ r !!! "Global_Sales" ≠ NaN)
    ∨ (∃ df table s q,
         (StreamApp.load_csv read_csv file).1.1 = Returned df
         ∧ StreamApp.ensure_columns df = ∅
         ∧ StreamApp.clean_df_call df = Returned table
         ∧ e = "TypeError"
         ∧ Str s ∈ tolist "Platform" table
         ∧ Num q ∈ tolist "Platform" table).
Proof.
  intros raw.
  pose proof (load_csv_result read_csv file) as Hres. cbv zeta in Hres.
  fold raw in Hres.
  destruct ((StreamApp.load_csv read_csv file).1.1) as [df|e'] eqn:Hload.
  - assert (¬ ∃ e1 e2, read_csv raw (Some utf_8) = Raised e1
                       ∧ read_csv raw (Some latin_1) = Raised e2
                       ∧ read_csv raw None = Raised e) as Hparsed.
    { intros (e1 & e2 & E1 & E2 & E3). by rewrite E1, E2, E3 in Hres. }
    destruct (decide (StreamApp.ensure_columns df = ∅)) as [Hm|Hm].
    2:{ rewrite (script_missing read_csv file ui boxes df) by done.
        split; [done|].
        intros [?|[(df' & r & [= <-] & ? & _)
                  |(df' & t & s & q & [= <-] & ? & _)]]; done. }
    destruct (StreamApp.clean_df_call df) as [table|e0] eqn:Hclean.
    2:{ rewrite (script_clean_fails read_csv file ui boxes df e0) by done.
        apply Clean.clean_df_call_Raised in Hclean as [Hraise ->].
        split.
        - intros [= <-]. right. left.
          apply clean_df_raises_iff in Hraise as (r & Hr & Hy & Hp & Hg).
          by exists df, r.
        - intros [?|[(df' & r & [= <-] & _ & -> & _)
                    |(df' & t & s & q & [= <-] & _ & Hc & _)]]; [done|done|].
          apply Clean.clean_df_call_Returned in Hc as [Hc _].
          by rewrite Hc in Hraise. }
    assert (¬ ∃ r, r ∈ rows df ∧ coerce (r !!! "Year") = infinite
                   ∧ r !!! "Platform" ≠ NaN ∧ r !!! "Global_Sales" ≠ NaN)
      as Hfinite.
    { intros Hr%clean_df_raises_iff.
      apply Clean.clean_df_call_Returned in Hclean as [Hc _].
      by rewrite Hc in Hr. }
    destruct (decide (rows table = [])) as [Hrows|Hrows].
    { rewrite (script_no_valid_data read_csv file ui boxes df table) by done.
      split; [done|].
      intros [?|[(df' & r & [= <-] & _ & _ & ?)
                |(df' & t & s & q & [= <-] & _ & Ht & _ & Hs & _)]];
        [done|by destruct Hfinite; eauto|].
      rewrite Hclean in Ht. injection Ht as <-.
      unfold tolist in Hs. rewrite Hrows in Hs.
      by apply not_elem_of_nil in Hs. }
    assert (∀ e0,
      sorted (remove_dups (tolist "Platform" table)) = Raised e0
      ↔ e0 = "TypeError"
        ∧ ∃ s q, Str s ∈ tolist "Platform" table
                 ∧ Num q ∈ tolist "Platform" table)
      as Hsort.
    { intros e0. rewrite sorted_Raised. split.
      - intros (-> & [s Hs] & c & Hc & Hct). split; [done|].
        apply (proj1 (elem_of_remove_dups _ _)) in Hs.
        apply (proj1 (elem_of_remove_dups _ _)) in Hc. exists s.
        assert (c ≠ NaN) as Hcn.
        { unfold tolist in Hc.
          apply list_elem_of_fmap in Hc as (r & -> & Hr).
          apply Clean.clean_df_call_Returned in Hclean as [_ ->].
          by apply clean_df_typed in Hr as (_ & ? & _). }
        destruct c as [|q|]; try done. by exists q.
      - intros (-> & s & q & Hs & Hq). split; [done|].
        split; [exists s|exists (Num q)];
          rewrite elem_of_remove_dups; done. }
    destruct (sorted (remove_dups (tolist "Platform" table)))
      as [opts|e0] eqn:Hs.
    + rewrite (script_sorted read_csv file ui boxes df table opts) by done.
      cbv zeta. split; [by destruct (empty (StreamApp.fdf _ _ _ _))|].
      intros [?|[(df' & r & [= <-] & _ & _ & ?)
                |(df' & t & s & q & [= <-] & _ & Ht & -> & Hmix)]];
        [done|by destruct Hfinite; eauto|].
      rewrite Hclean in Ht. injection Ht as <-.
      assert (Returned opts = (Raised "TypeError" : result (list cell)))
        as Habs; [|done].
      apply Hsort. eauto.
    + rewrite (script_sort_fails read_csv file ui boxes df table e0) by done.
      split.
      * intros [= <-]. right. right.
        destruct (proj1 (Hsort e0) eq_refl) as (-> & s & q & ? & ?).
        by exists df, table, s, q.
      * intros [?|[(df' & r & [= <-] & _ & _ & ?)
                  |(df' & t & s & q & [= <-] & _ & Ht & -> & Hmix)]];
          [done|by destruct Hfinite; eauto|].
        rewrite Hclean in Ht. injection Ht as <-.
        f_equal. apply Hsort. eauto.
  - rewrite (script_load_fails read_csv file ui boxes e') by done. split.
    + intros [= ->]. left.
      destruct (read_csv raw (Some utf_8)) as [|e1]; [done|].
      destruct (read_csv raw (Some latin_1)) as [|e2]; [done|].
      by exists e1, e2.
    + intros [(e1 & e2 & E1 & E2 & E3)|[(? & ? & ? & _)|(? & ? & ? & ? & ? & _)]];
        [|done..].
      rewrite E1, E2, E3 in Hres. by injection Hres as ->.
Qed.

(** X2.  A run of stream_app.py stops with the error of missing columns
    exactly when the file was parsed and the table lacks a required column;
    the message carries the required columns the table lacks, and those
    only, and the columns that were found. *)
Theorem missing_columns_stop (read_csv : reader) `{Quicksort} `{ToNumeric}
    (file : UploadedFile) (ui : StreamApp.Widgets) (boxes : StreamApp.Boxes)
    (missing : gset string) (detected : list string) :
  StreamApp.script read_csv (Some file) ui boxes
  = StreamApp.Stopped (StreamApp.error_missing missing detected)
  ↔ ∃ df, (StreamApp.load_csv read_csv file).1.1 = Returned df
          ∧ detected = columns df
          ∧ (∃ c, c ∈ missing)
          ∧ (∀ c, c ∈ missing ↔
                  c ∈ ["Platform"; "Year"; "Global_Sales"] ∧ c ∉ columns df).
Proof.
  destruct ((StreamApp.load_csv read_csv file).1.1) as [df|e] eqn:Hload.
  2:{ rewrite (script_load_fails read_csv file ui boxes e) by done.
      split; [done|by intros (? & ? & _)]. }
  assert (∀ c, c ∈ StreamApp.ensure_columns df ↔
               c ∈ ["Platform"; "Year"; "Global_Sales"] ∧ c ∉ columns df)
    as Hin.
  { intros c. unfold StreamApp.ensure_columns, StreamApp.required.
    rewrite elem_of_difference, !elem_of_list_to_set. done. }
  destruct (decide (StreamApp.ensure_columns df = ∅)) as [Hm|Hm].
  - split.
    + destruct (StreamApp.clean_df_call df) as [table|e0] eqn:Hclean.
      2:{ by rewrite (script_clean_fails read_csv file ui boxes df e0). }
      destruct (decide (rows table = [])) as [Hr|Hr].
      { by rewrite (script_no_valid_data read_csv file ui boxes df table). }
      destruct (sorted (remove_dups (tolist "Platform" table)))
        as [opts|e0] eqn:Hs.
      * rewrite (script_sorted read_csv file ui boxes df table opts) by done.
        cbv zeta. by destruct (empty (StreamApp.fdf _ _ _ _)).
      * by rewrite (script_sort_fails read_csv file ui boxes df table e0).
    + intros (df' & [= <-] & -> & [c Hc] & Hiff).
      apply Hiff, Hin in Hc. rewrite Hm in Hc. set_solver.
  - rewrite (script_missing read_csv file ui boxes df) by done. split.
    + intros [= <- <-]. exists df. split; [done|]. split; [done|].
      split; [|done]. by apply set_choose_L.
    + intros (df' & [= <-] & -> & _ & Hc). do 2 f_equal.
      apply set_eq. intros c. by rewrite Hin, Hc.
Qed.

(** ** What cleaning keeps *)

Lemma columns_assign_elem c f df :
  c ∈ columns df → columns (assign c f df) = columns df.
Proof. intros Hc. unfold assign. cbn. by rewrite decide_True. Qed.

Lemma columns_foldl_assign_elem f cs df :
  Forall (λ c, c ∈ columns df) cs →
  columns (foldl (λ out c, assign c f out) df cs) = columns df.
Proof.
  revert df. induction cs as [|c cs IH]; intros df Hcs; [done|].
  apply Forall_cons in Hcs as [Hc Hcs]. cbn.
  rewrite IH; rewrite columns_assign_elem; done.
Qed.

Lemma clean_df_columns_eq `{ToNumeric} df :
  "Year" ∈ columns df → columns (StreamApp.clean_df df) = columns df.
Proof.
  intros Hy. unfold StreamApp.clean_df. cbv zeta.
  assert (columns (assign "Year" astype_int
                     (dropna ["Year"; "Platform"; "Global_Sales"]
                        (assign "Year" to_numeric df))) = columns df) as Hc.
  { rewrite columns_assign_elem.
    - unfold dropna. rewrite columns_select. by apply columns_assign_elem.
    - unfold dropna. rewrite columns_select. by rewrite columns_assign_elem. }
  rewrite columns_foldl_assign_elem; [done|].
  apply list.Forall_forall. intros c Hin.
  by apply list_elem_of_filter in Hin as [? _].
Qed.

Lemma lookup_total_Some (r : gmap string cell) c v :
  r !!! c = v → v ≠ NaN → r !! c = Some v.
Proof.
  rewrite lookup_total_alt. destruct (r !! c) as [w|]; cbn; [by intros ->|].
  by intros <-.
Qed.


Lemma foldl_insert_id (f : cell → cell) (cs : list string)
    (r : gmap string cell) :
  Forall (λ c, r !! c = Some (f (r !!! c))) cs →
  foldl (λ r c, <[c := f (r !!! c)]> r) r cs = r.
Proof.
  induction cs as [|a cs IH]; intros Hcs; [done|].
  apply Forall_cons in Hcs as [Ha Hcs]. cbn.
  rewrite insert_id by done. by apply IH.
Qed.

Lemma trunc_Qc_of_Z z : trunc (Qc_of_Z z) = z.
Proof.
  unfold trunc, Qc_of_Z. cbn. apply Z.quot_1_r.
Qed.


Lemma int64_idem z : int64 (int64 z) = int64 z.
Proof.
  unfold int64. destruct (bool_decide (- 2 ^ 63 ≤ z < 2 ^ 63)%Z) eqn:E.
  - by rewrite E.
  - by vm_compute.
Qed.

Lemma cleaned_fixed `{ToNumeric} cols r :
  Clean.survives r →
  Clean.survives (Clean.cleaned cols r)
  ∧ Clean.cleaned cols (Clean.cleaned cols r) = Clean.cleaned cols r.
Proof.
  intros Hs. apply Clean.survives_iff in Hs as (Hy & Hp & Hg).
  set (r' := Clean.cleaned cols r).
  assert (∃ z, r' !!! "Year" = Num (Qc_of_Z (int64 z))) as [z Hz].
  { subst r'. rewrite Clean.cleaned_year.
    destruct (to_numeric_typed (r !!! "Year")) as [E|[q E]]; [done|].
    rewrite E. by eexists. }
  assert (∀ c, c ∈ StreamApp.sales_columns → c ∈ cols →
               ∃ q, r' !!! c = Num q) as Hsales.
  { intros c Hc Hcols. subst r'. rewrite Clean.cleaned_sales by done.
    destruct (to_numeric_typed (r !!! c)) as [E|[q E]]; rewrite E;
      by eexists. }
  split.
  - apply Clean.survives_iff. rewrite Hz. split; [done|]. split.
    + subst r'. rewrite Clean.cleaned_other; [done|done|].
      intros [Hin _]. unfold StreamApp.sales_columns in Hin. set_solver.
    + destruct (decide ("Global_Sales" ∈ cols)) as [Hin|Hin].
      * destruct (Hsales "Global_Sales") as [q ->]; [|done..].
        by apply (bool_decide_unpack _).
      * subst r'. rewrite Clean.cleaned_other; [done|done|]. by intros [_ ?].
  - unfold Clean.cleaned at 1. fold r'.
    rewrite (insert_id r').
    + apply (foldl_insert_id (λ x, fillna 0 (to_numeric x))).
      apply list.Forall_forall. intros c Hin.
      apply list_elem_of_filter in Hin as [Hcols Hc].
      destruct (Hsales c Hc Hcols) as [q Hq].
      rewrite Hq. cbn. by apply lookup_total_Some.
    + rewrite Hz. cbn. rewrite trunc_Qc_of_Z, int64_idem.
      by apply lookup_total_Some.
Qed.

(** X3.  Cleaning a cleaned table changes nothing: the years are integers, no
    value is missing where a row would be deleted for it, and the sales
    cells are numbers already. *)
Theorem clean_df_idempotent `{ToNumeric} (df : DataFrame) :
  StreamApp.ensure_columns df = ∅ →
  StreamApp.clean_df (StreamApp.clean_df df) = StreamApp.clean_df df.
Proof.
  intros Hcols.
  assert ("Year" ∈ columns df) as Hy.
  { apply ensure_columns_empty; [done|]. by apply (bool_decide_unpack _). }
  apply DataFrame_eq.
  - rewrite !clean_df_columns_eq; [done|done|].
    by rewrite clean_df_columns_eq.
  - rewrite (Clean.clean_df_rows (StreamApp.clean_df df)).
    rewrite clean_df_columns_eq by done.
    rewrite Clean.clean_df_rows.
    rewrite filter_all.
    + rewrite <-list_fmap_compose. apply list_fmap_ext.
      intros _ r Hr%list_elem_of_lookup_2.
      apply list_elem_of_filter in Hr as [Hs _]. cbn.
      by apply cleaned_fixed.
    + apply list.Forall_forall. intros r' Hr'.
      apply list_elem_of_fmap in Hr' as (r & -> & Hr).
      apply list_elem_of_filter in Hr as [Hs _].
      by apply cleaned_fixed.
Qed.

Lemma clean_df_idempotent_witness :
  @StreamApp.clean_df decimal_reader
    (@StreamApp.clean_df decimal_reader scenario)
  = @StreamApp.clean_df decimal_reader scenario.
Proof. apply (@clean_df_idempotent decimal_reader). by vm_compute. Defined.



(** ** How filters compose *)

Lemma columns_fdf y0 y1 ps df :
  columns (StreamApp.fdf y0 y1 ps df) = columns df.
Proof. unfold StreamApp.fdf. by destruct ps. Qed.

Lemma Qc_of_Z_max_le (a b : Z) (q : Qc) :
  Qc_of_Z (a `max` b) ≤ q ↔ Qc_of_Z a ≤ q ∧ Qc_of_Z b ≤ q.
Proof.
  destruct (Z.max_spec a b) as [[Hlt ->]|[Hle ->]].
  - split; [|by intros [_ ?]]. intros Hb. split; [|done].
    etrans; [|exact Hb]. apply (proj1 (Z2Qc_inj_le _ _)). lia.
  - split; [|by intros [? _]]. intros Ha. split; [done|].
    etrans; [|exact Ha]. by apply (proj1 (Z2Qc_inj_le _ _)).
Qed.

Lemma Qc_of_Z_le_min (a b : Z) (q : Qc) :
  q ≤ Qc_of_Z (a `min` b) ↔ q ≤ Qc_of_Z a ∧ q ≤ Qc_of_Z b.
Proof.
  destruct (Z.min_spec a b) as [[Hlt ->]|[Hle ->]].
  - split; [|by intros [? _]]. intros Ha. split; [done|].
    etrans; [exact Ha|]. apply (proj1 (Z2Qc_inj_le _ _)). lia.
  - split; [|by intros [_ ?]]. intros Hb. split; [|done].
    etrans; [exact Hb|]. by apply (proj1 (Z2Qc_inj_le _ _)).
Qed.

Lemma retained_both y0 y1 y0' y1' ps r :
  retained y0' y1' ps r ∧ retained y0 y1 ps r
  ↔ retained (y0 `max` y0') (y1 `min` y1') ps r.
Proof.
  unfold retained. split.
  - intros [[(q & Hq & ? & ?) Hp] [(q' & Hq' & ? & ?) _]].
    rewrite Hq in Hq'. injection Hq' as <-.
    split; [|done]. exists q. split; [done|].
    by rewrite Qc_of_Z_max_le, Qc_of_Z_le_min.
  - intros [(q & Hq & Hlo & Hhi) Hp].
    apply Qc_of_Z_max_le in Hlo as [? ?].
    apply Qc_of_Z_le_min in Hhi as [? ?].
    split; (split; [by exists q|done]).
Qed.

(** X5.  Filtering the cleaned table a second time is filtering it once, on
    the intersection of the two ranges of years; so a filter applied twice
    is the filter applied once.  Selecting every platform the sidebar
    offers is the same as selecting none.  A range whose lower bound is
    above its upper bound keeps no row. *)
Theorem filter_composition `{ToNumeric} (df : DataFrame) (y0 y1 y0' y1' : Z)
    (platforms : list cell) :
  let table := StreamApp.clean_df df in
  StreamApp.fdf y0' y1' platforms (StreamApp.fdf y0 y1 platforms table)
  = StreamApp.fdf (y0 `max` y0') (y1 `min` y1') platforms table
  ∧ StreamApp.fdf y0 y1 platforms (StreamApp.fdf y0 y1 platforms table)
    = StreamApp.fdf y0 y1 platforms table
  ∧ (∀ platform_options,
       sorted (remove_dups (tolist "Platform" table))
       = Returned platform_options →
       StreamApp.fdf y0 y1 platform_options table
       = StreamApp.fdf y0 y1 [] table)
  ∧ ((y1 < y0)%Z → rows (StreamApp.fdf y0 y1 platforms table) = []).
Proof.
  intros table.
  assert (∀ a b a' b',
    StreamApp.fdf a' b' platforms (StreamApp.fdf a b platforms table)
    = StreamApp.fdf (a `max` a') (b `min` b') platforms table) as Hcomp.
  { intros a b a' b'. apply DataFrame_eq; [by rewrite !columns_fdf|].
    rewrite !fdf_rows, list_filter_filter.
    apply filter_ext_elem. intros r _. apply retained_both. }
  split; [apply Hcomp|]. split; [|split].
  - rewrite Hcomp. by rewrite Z.max_id, Z.min_id.
  - intros opts Hopts. apply sorted_Returned in Hopts as ->.
    apply DataFrame_eq; [by rewrite !columns_fdf|].
    rewrite !fdf_rows. apply filter_ext_elem. intros r Hr.
    unfold retained. split; intros [Hy _]; (split; [done|]); [by left|].
    right. rewrite merge_sort_Permutation, elem_of_remove_dups.
    unfold tolist. apply list_elem_of_fmap. by exists r.
  - intros Hlt. rewrite fdf_rows. apply filter_none, list.Forall_forall.
    intros r _ [(q & _ & Hlo & Hhi) _].
    assert (Qc_of_Z y0 ≤ Qc_of_Z y1) as Hle by (by etrans).
    apply (proj2 (Z2Qc_inj_le _ _)) in Hle. lia.
Qed.

(** ** Sums and groups *)

Lemma sum_cells_nil : sum_cells [] = 0.
Proof. done. Qed.

Lemma sum_cells_cons (c : cell) (l : list cell) :
  sum_cells (c :: l) = number c + sum_cells l.
Proof. done. Qed.

Lemma sum_cells_app (l1 l2 : list cell) :
  sum_cells (l1 ++ l2) = sum_cells l1 + sum_cells l2.
Proof.
  induction l1 as [|c l1 IH].
  - by rewrite sum_cells_nil, Qcplus_0_l.
  - rewrite <-app_comm_cons, !sum_cells_cons, IH. ring.
Qed.

Lemma remove_dups_fmap_inj {A B} `{EqDecision A} `{EqDecision B}
    (f : A → B) `{!Inj (=) (=) f} (l : list A) :
  remove_dups (f <$> l) = f <$> remove_dups l.
Proof.
  induction l as [|x l IH]; [done|]. cbn.
  destruct (decide_rel elem_of x l) as [Hin|Hin];
    destruct (decide_rel elem_of (f x) (f <$> l)) as [Hin'|Hin'].
  - done.
  - destruct Hin'. by apply list_elem_of_fmap_2.
  - apply list_elem_of_fmap in Hin' as (y & Hy & Hyl).
    apply (inj f) in Hy. by subst.
  - cbn. by rewrite IH.
Qed.

Lemma rows_fdf_clean_typed `{ToNumeric} y0 y1 ps df r :
  r ∈ rows (StreamApp.fdf y0 y1 ps (StreamApp.clean_df df)) →
  r !!! "Year" ≠ NaN ∧ r !!! "Platform" ≠ NaN.
Proof.
  rewrite fdf_rows. intros [_ Hr]%list_elem_of_filter.
  apply clean_df_typed in Hr as ([y Hy] & Hp & _). by rewrite Hy.
Qed.

(** The number of groups of a table in which no platform is missing: the
    number of its distinct platforms. *)
Lemma length_platform_groups (f : DataFrame) :
  Forall (λ r, r !!! "Platform" ≠ NaN) (rows f) →
  length (rows (groupby_sum ["Platform"] "Global_Sales" f))
  = length (remove_dups (tolist "Platform" f)).
Proof.
  intros Hp. unfold groupby_sum. cbn [rows]. rewrite length_fmap.
  unfold group_keys. rewrite merge_sort_Permutation.
  rewrite filter_all.
  - unfold tolist.
    rewrite <-(length_fmap (λ p : cell, [p]) (remove_dups _)).
    rewrite <-remove_dups_fmap_inj by (by intros ?? [= ->]).
    by rewrite <-list_fmap_compose.
  - apply Forall_fmap. eapply list.Forall_impl; [exact Hp|].
    intros r Hr. cbn. by apply key_present_singleton.
Qed.

(** ** The view the page opens with *)

Lemma foldr_min_le (z : Z) (l : list Z) :
  (foldr Z.min z l ≤ z)%Z ∧ Forall (λ x, (foldr Z.min z l ≤ x)%Z) l.
Proof.
  induction l as [|x l [IH1 IH2]]; [by split; [|constructor]|].
  cbn [foldr]. split; [lia|]. constructor; [lia|].
  eapply list.Forall_impl; [exact IH2|]. intros y Hy. cbn beta in *. lia.
Qed.

Lemma foldr_max_ge (z : Z) (l : list Z) :
  (z ≤ foldr Z.max z l)%Z ∧ Forall (λ x, (x ≤ foldr Z.max z l)%Z) l.
Proof.
  induction l as [|x l [IH1 IH2]]; [by split; [|constructor]|].
  cbn [foldr]. split; [lia|]. constructor; [lia|].
  eapply list.Forall_impl; [exact IH2|]. intros y Hy. cbn beta in *. lia.
Qed.

Lemma minimum_le (zs : list Z) (z : Z) :
  z ∈ zs → (StreamApp.minimum zs ≤ z)%Z.
Proof.
  destruct zs as [|z0 zs]; [by intros ?%not_elem_of_nil|].
  destruct (foldr_min_le z0 zs) as [H1 H2].
  rewrite list.Forall_forall in H2.
  intros [->|Hin]%elem_of_cons; [done|by apply H2].
Qed.

Lemma maximum_ge (zs : list Z) (z : Z) :
  z ∈ zs → (z ≤ StreamApp.maximum zs)%Z.
Proof.
  destruct zs as [|z0 zs]; [by intros ?%not_elem_of_nil|].
  destruct (foldr_max_ge z0 zs) as [H1 H2].
  rewrite list.Forall_forall in H2.
  intros [->|Hin]%elem_of_cons; [done|by apply H2].
Qed.

Lemma rank_rows `{Quicksort} (n : nat) (f : DataFrame) :
  ∃ full, full ≡ₚ rows (groupby_sum ["Platform"] "Global_Sales" f)
          ∧ rows (StreamApp.rank n f) = take n full.
Proof.
  destruct (ranked "Platform" "Global_Sales" f) as [Hperm _]; [done|].
  eexists. split; [exact Hperm|done].
Qed.

(** A row of the sums by platform stands for a platform of the table. *)
Lemma platform_group_row (f : DataFrame) (g : gmap string cell) :
  g ∈ rows (groupby_sum ["Platform"] "Global_Sales" f) →
  ∃ r, r ∈ rows f ∧ r !!! "Platform" = g !!! "Platform".
Proof.
  intros Hg.
  apply total_groupby_sum in Hg as [Hk _];
    [|apply NoDup_singleton|by apply (bool_decide_unpack _)].
  apply elem_of_group_keys in Hk as (_ & r & Hr & Hkey).
  exists r. split; [done|]. by injection Hkey.
Qed.

(** Every platform of the table that is not missing has a row in the sums
    by platform. *)
Lemma platform_has_group (f : DataFrame) (r : gmap string cell) :
  r ∈ rows f → r !!! "Platform" ≠ NaN →
  ∃ g, g ∈ rows (groupby_sum ["Platform"] "Global_Sales" f)
       ∧ g !!! "Platform" = r !!! "Platform".
Proof.
  intros Hr Hp.
  assert ([r !!! "Platform"] ∈ group_keys ["Platform"] f) as Hk.
  { apply elem_of_group_keys. split; [by apply key_present_singleton|].
    by exists r. }
  apply (group_key_has_row _ "Global_Sales") in Hk as (g & Hg & Hkey);
    [|apply NoDup_singleton].
  exists g. split; [done|]. by injection Hkey.
Qed.

Lemma platform_groups_NoDup (f : DataFrame) :
  NoDup ((λ g, g !!! "Platform")
           <$> rows (groupby_sum ["Platform"] "Global_Sales" f)).
Proof.
  eapply (NoDup_fmap_1 (λ a : cell, [a])). rewrite <-list_fmap_compose.
  apply (groupby_sum_NoDup_keys ["Platform"] "Global_Sales").
  apply NoDup_singleton.
Qed.

(** X7.  With the sidebar as the page opens it, a table that cleaning left with
    rows and whose platforms sort is never filtered down to nothing: the
    range of years keeps every row, and the platforms selected are distinct
    platforms of the table, eight of them or all when there are fewer, in
    which case every row is kept.  So the test for an empty selection
    fails, and the warning of no data is not what the page opens with. *)
Theorem default_view_keeps_data `{Quicksort} `{ToNumeric} (df : DataFrame)
    (platform_options : list cell) :
  StreamApp.ensure_columns df = ∅ →
  rows (StreamApp.clean_df df) ≠ [] →
  sorted (remove_dups (tolist "Platform" (StreamApp.clean_df df)))
  = Returned platform_options →
  let table := StreamApp.clean_df df in
  let y0 := StreamApp.minimum (StreamApp.year_values table) in
  let y1 := StreamApp.maximum (StreamApp.year_values table) in
  let selected :=
    StreamApp.top_platforms table (8 `min` length platform_options) in
  let platforms := remove_dups (tolist "Platform" table) in
  StreamApp.fdf y0 y1 [] table = table
  ∧ NoDup selected
  ∧ length selected = 8 `min` length platforms
  ∧ (∀ p, p ∈ selected → p ∈ platforms)
  ∧ rows (StreamApp.fdf y0 y1 selected table) ≠ []
  ∧ ((length platforms ≤ 8)%nat →
     StreamApp.fdf y0 y1 selected table = table)
  ∧ empty (StreamApp.fdf y0 y1 selected table) = false.
Proof.
  intros Hcols Hrows Hsort table y0 y1 selected platforms.
  assert (Forall (λ r, r !!! "Platform" ≠ NaN) (rows table)) as Hplat.
  { apply list.Forall_forall. intros r Hr.
    by apply clean_df_typed in Hr as (_ & ? & _). }
  (* the range of years *)
  assert (∀ ps r, r ∈ rows table →
            (ps = [] ∨ r !!! "Platform" ∈ ps) → retained y0 y1 ps r)
    as Hyears.
  { intros ps r Hr Hps. split; [|done].
    destruct (clean_df_typed df r Hr) as ([y Hy] & _).
    exists (Qc_of_Z y). split; [done|].
    assert (y ∈ StreamApp.year_values table) as Hin.
    { unfold StreamApp.year_values. apply list_elem_of_fmap.
      exists r. split; [|done]. rewrite Hy. cbn [number].
      by rewrite trunc_Qc_of_Z. }
    subst y0 y1.
    split; apply (proj1 (Z2Qc_inj_le _ _));
      [by apply minimum_le|by apply maximum_ge]. }
  assert (StreamApp.fdf y0 y1 [] table = table) as Hfull.
  { apply DataFrame_eq; [apply columns_fdf|].
    rewrite fdf_rows. apply filter_all, list.Forall_forall.
    intros r Hr. apply Hyears; [done|by left]. }
  (* the platforms selected *)
  assert (length platform_options = length platforms) as Hopts.
  { rewrite (sorted_Returned _ _ Hsort). by rewrite merge_sort_Permutation. }
  destruct (rank_rows (8 `min` length platforms) table)
    as (full & Hperm & Hrank).
  assert (selected = (λ g, g !!! "Platform")
                       <$> take (8 `min` length platforms) full) as Hsel.
  { subst selected. rewrite Hopts.
    unfold StreamApp.top_platforms, tolist. by rewrite Hrank. }
  assert (length full = length platforms) as Hlen.
  { rewrite Hperm. by apply length_platform_groups. }
  assert (∀ p, p ∈ selected → p ∈ platforms) as Hsub.
  { intros p. rewrite Hsel. intros (g & -> & Hg)%list_elem_of_fmap.
    apply subseteq_take in Hg. rewrite Hperm in Hg.
    apply platform_group_row in Hg as (r & Hr & <-).
    apply elem_of_remove_dups, list_elem_of_fmap. by exists r. }
  assert (length platforms ≠ 0%nat) as Hsome.
  { destruct (rows table) as [|r l] eqn:Hl; [done|].
    assert (r !!! "Platform" ∈ platforms) as Hin.
    { apply elem_of_remove_dups. unfold tolist. rewrite Hl. by left. }
    intros Hz. apply nil_length_inv in Hz. rewrite Hz in Hin.
    by apply not_elem_of_nil in Hin. }
  assert (rows (StreamApp.fdf y0 y1 selected table) ≠ []) as Hkept.
  { destruct (take (8 `min` length platforms) full) as [|g l] eqn:Htake.
    { apply (f_equal length) in Htake. rewrite length_take in Htake.
      cbn [length] in Htake. lia. }
    assert (g ∈ full) as Hg.
    { apply (subseteq_take (8 `min` length platforms)). rewrite Htake.
      by left. }
    rewrite Hperm in Hg. apply platform_group_row in Hg as (r & Hr & Hp).
    assert (r ∈ rows (StreamApp.fdf y0 y1 selected table)) as Hin.
    { rewrite fdf_rows. apply list_elem_of_filter. split; [|done].
      apply Hyears; [done|]. right. rewrite Hsel, Hp. cbn. by left. }
    intros Hnil. rewrite Hnil in Hin. by apply not_elem_of_nil in Hin. }
  split; [done|]. split; [|split; [|split; [done|split; [done|split]]]].
  - rewrite Hsel, fmap_take. eapply sublist_NoDup; [|apply sublist_take].
    rewrite Hperm. apply platform_groups_NoDup.
  - rewrite Hsel, length_fmap, length_take. lia.
  - intros Hfew. apply DataFrame_eq; [apply columns_fdf|].
    rewrite fdf_rows. apply filter_all, list.Forall_forall.
    intros r Hr. apply Hyears; [done|]. right.
    rewrite Hsel, take_ge by lia.
    rewrite list.Forall_forall in Hplat.
    destruct (platform_has_group table r Hr (Hplat r Hr)) as (g & Hg & <-).
    apply list_elem_of_fmap. exists g. split; [done|]. by rewrite Hperm.
  - destruct (empty (StreamApp.fdf y0 y1 selected table)) eqn:He'; [|done].
    apply Is_true_true, empty_rows in He'; [done|].
    rewrite columns_fdf.
    assert ("Year" ∈ columns table) as Hy.
    { apply clean_df_columns, ensure_columns_empty; [done|].
      by apply (bool_decide_unpack _). }
    intros He. rewrite He in Hy. by apply not_elem_of_nil in Hy.
Qed.

Lemma default_view_keeps_data_witness :
  let table := @StreamApp.clean_df decimal_reader scenario in
  let opts := merge_sort cell_le (remove_dups (tolist "Platform" table)) in
  empty (StreamApp.fdf (StreamApp.minimum (StreamApp.year_values table))
           (StreamApp.maximum (StreamApp.year_values table))
           (@StreamApp.top_platforms merge_quicksort table
              (8 `min` length opts))
           table)
  = false.
Proof.
  apply (@default_view_keeps_data merge_quicksort decimal_reader scenario
           (merge_sort cell_le
              (remove_dups
                 (tolist "Platform"
                    (@StreamApp.clean_df decimal_reader scenario))))).
  - by vm_compute.
  - apply (bool_decide_unpack _). by vm_compute.
  - reflexivity.
Defined.

(** ** The breakdown by region *)

Lemma lookup_list_to_map_fmap (f : string → cell) (cs : list string) c :
  c ∈ cs →
  (list_to_map ((λ c, (c, f c)) <$> cs) : gmap string cell) !! c = Some (f c).
Proof.
  induction cs as [|c' cs IH]; [by intros ?%not_elem_of_nil|].
  intros Hin. cbn. destruct (decide (c = c')) as [->|Hne].
  - apply lookup_insert_eq.
  - rewrite lookup_insert_ne by done. apply IH.
    by apply elem_of_cons in Hin as [?|?].
Qed.

Section group_sums.

Context (by_ cols : list string).
Hypothesis by_NoDup : NoDup by_.
Hypothesis cols_fresh : ∀ c, c ∈ cols → c ∉ by_.

Lemma key_of_sums_row k df :
  length k = length by_ → key_of by_ (sums_row by_ cols k df) = k.
Proof.
  intros Hlen. unfold sums_row. rewrite list_to_map_app.
  by apply key_of_list_to_map.
Qed.

Lemma lookup_total_sums_row k df c :
  c ∈ cols → sums_row by_ cols k df !!! c = Num (group_sum by_ c k df).
Proof.
  intros Hc. unfold sums_row. rewrite list_to_map_app.
  rewrite lookup_total_alt, lookup_union_r.
  - by rewrite (lookup_list_to_map_fmap (λ c, Num (group_sum by_ c k df))).
  - apply not_elem_of_list_to_map_1. intros Hin.
    apply list_elem_of_fmap in Hin as ([c' v] & -> & Hin).
    apply elem_of_zip_l in Hin. by apply (cols_fresh c').
Qed.

Lemma keys_groupby_sums df :
  key_of by_ <$> rows (groupby_sums by_ cols df) = group_keys by_ df.
Proof.
  unfold groupby_sums. cbn. rewrite <-list_fmap_compose.
  rewrite <-(list_fmap_id (group_keys by_ df)) at 2.
  apply list_fmap_ext. intros i k Hk. cbn.
  apply key_of_sums_row, (group_keys_length by_ df).
  by eapply list_elem_of_lookup_2.
Qed.

End group_sums.

Lemma StronglySorted_fmap_inv {A B} (f : A → B) (R : relation B)
    (l : list A) :
  StronglySorted R (f <$> l) → StronglySorted (λ x y, R (f x) (f y)) l.
Proof.
  induction l as [|x l IH]; [constructor|].
  rewrite fmap_cons. intros [Hl Hx]%StronglySorted_inv.
  constructor; [by apply IH|]. by rewrite Forall_fmap in Hx.
Qed.

(** A table whose rows stand for the groups of a grouping on one column, in
    the order of the groups, is sorted by that column already. *)
Lemma sort_values_keyed `{Quicksort} (c : string) (g src : DataFrame) :
  key_of [c] <$> rows g = group_keys [c] src →
  sort_values c true g = g.
Proof.
  intros Hkeys. apply DataFrame_eq; [done|].
  apply sort_values_unique; [| | |done].
  - apply list.Forall_forall. intros r Hr.
    assert (key_of [c] r ∈ group_keys [c] src) as Hk.
    { rewrite <-Hkeys. by apply list_elem_of_fmap_2. }
    apply elem_of_group_keys in Hk as [Hk _].
    by apply key_present_singleton in Hk.
  - unfold tolist. eapply (NoDup_fmap_1 (λ a : cell, [a])).
    rewrite <-list_fmap_compose.
    change ((λ a : cell, [a]) ∘ (λ r : gmap string cell, r !!! c))
      with (key_of [c]).
    rewrite Hkeys. apply group_keys_NoDup.
  - pose proof (group_keys_sorted [c] src) as Hs. rewrite <-Hkeys in Hs.
    apply StronglySorted_fmap_inv in Hs.
    eapply StronglySorted_weaken; [|exact Hs].
    intros r1 r2 Hlt. cbn in Hlt.
    apply key_lt_le_ne in Hlt as [Hle _].
    by apply key_le_singleton in Hle.
Qed.

Lemma region_cols_spec (fdf : DataFrame) (c : string) :
  c ∈ StreamApp.region_cols fdf
  ↔ c ∈ StreamApp.region_columns ∧ c ∈ columns fdf.
Proof. unfold StreamApp.region_cols. rewrite list_elem_of_filter. tauto. Qed.

Lemma region_cols_fresh (fdf : DataFrame) (c : string) :
  c ∈ StreamApp.region_cols fdf → c ∉ ["Year"].
Proof.
  intros [Hc _]%region_cols_spec. unfold StreamApp.region_columns in Hc.
  set_solver.
Qed.

Lemma by_year_regions_Some `{Quicksort} (fdf t : DataFrame) :
  StreamApp.by_year_regions fdf = Some t →
  t = groupby_sums ["Year"] (StreamApp.region_cols fdf) fdf.
Proof.
  unfold StreamApp.by_year_regions.
  destruct (StreamApp.region_cols fdf) as [|c cs] eqn:Hcols; [done|].
  intros [= <-]. rewrite <-Hcols.
  apply (sort_values_keyed "Year" _ fdf), keys_groupby_sums.
  apply NoDup_singleton.
Qed.

Lemma group_sum_year (c : string) (y : cell) (fdf : DataFrame) :
  group_sum ["Year"] c [y] fdf
  = sum_cells ((λ r, r !!! c)
                 <$> filter (λ r, r !!! "Year" = y) (rows fdf)).
Proof.
  unfold group_sum, group. do 2 f_equal. apply filter_ext_elem.
  intros r _. unfold key_of. cbn. split; [by intros [= ->]|by intros ->].
Qed.

Lemma sums_row_year (cols : list string) (y : cell) (df : DataFrame) :
  sums_row ["Year"] cols [y] df !!! "Year" = y.
Proof.
  pose proof (key_of_sums_row ["Year"] cols (NoDup_singleton _) [y] df
                eq_refl) as Hk.
  by injection Hk.
Qed.

Lemma group_row_year (col : string) (y : cell) (total : Qc) :
  group_row ["Year"] col [y] total !!! "Year" = y.
Proof.
  pose proof (key_of_group_row ["Year"] col (NoDup_singleton _) [y] total
                eq_refl) as Hk.
  by injection Hk.
Qed.

Lemma regions_by_year_of `{Quicksort} (fdf : DataFrame) :
  (StreamApp.by_year_regions fdf = None
   ↔ ∀ c, c ∈ ["NA_Sales"; "EU_Sales"; "JP_Sales"; "Other_Sales"] →
          c ∉ columns fdf)
  ∧ ∀ t, StreamApp.by_year_regions fdf = Some t →
      columns t
      = "Year" :: filter (λ c, c ∈ columns fdf)
                    ["NA_Sales"; "EU_Sales"; "JP_Sales"; "Other_Sales"]
      ∧ tolist "Year" t = tolist "Year" (StreamApp.by_year fdf)
      ∧ ∀ r c, r ∈ rows t →
          c ∈ ["NA_Sales"; "EU_Sales"; "JP_Sales"; "Other_Sales"] →
          c ∈ columns fdf →
          r !!! c
          = Num (sum_cells
                   ((λ r', r' !!! c)
                      <$> filter (λ r', r' !!! "Year" = r !!! "Year")
                                 (rows fdf))).
Proof.
  split.
  - unfold StreamApp.by_year_regions.
    destruct (StreamApp.region_cols fdf) as [|c cs] eqn:Hcols.
    + split; [|done]. intros _ c Hc Hin.
      assert (c ∈ StreamApp.region_cols fdf) as Hrc
        by (by apply region_cols_spec).
      rewrite Hcols in Hrc. by apply not_elem_of_nil in Hrc.
    + split; [done|]. intros Hnone.
      assert (c ∈ StreamApp.region_cols fdf) as Hrc
        by (rewrite Hcols; by left).
      apply region_cols_spec in Hrc as [Hc Hin]. by apply Hnone in Hin.
  - intros t Ht. apply by_year_regions_Some in Ht as ->.
    split; [done|]. split.
    + rewrite by_year_eq. unfold tolist, groupby_sums, groupby_sum.
      cbn [rows]. rewrite <-!list_fmap_compose. apply list_fmap_ext.
      intros _ k Hk%list_elem_of_lookup_2. unfold compose.
      pose proof (group_keys_length ["Year"] fdf k Hk) as Hlen.
      destruct k as [|y [|??]]; try done.
      by rewrite sums_row_year, group_row_year.
    + intros r c Hr Hc Hin.
      apply list_elem_of_fmap in Hr as (k & -> & Hk).
      pose proof (group_keys_length ["Year"] fdf k Hk) as Hlen.
      destruct k as [|y [|??]]; try done.
      rewrite lookup_total_sums_row;
        [|apply region_cols_fresh|by apply region_cols_spec].
      by rewrite sums_row_year, group_sum_year.
Qed.

(** X8.  The regional sums of the filtered table.  They are computed exactly
    when the table has a regional column.  They have a row for every year
    of the yearly totals, in the same order, and in each regional column of
    the table the sum of that column over the filtered rows of the year. *)
Theorem regions_by_year `{Quicksort} `{ToNumeric} (df : DataFrame) (y0 y1 : Z)
    (selected : list cell) :
  let fdf := StreamApp.fdf y0 y1 selected (StreamApp.clean_df df) in
  (StreamApp.by_year_regions fdf = None
   ↔ ∀ c, c ∈ ["NA_Sales"; "EU_Sales"; "JP_Sales"; "Other_Sales"] →
          c ∉ columns fdf)
  ∧ ∀ t, StreamApp.by_year_regions fdf = Some t →
      columns t
      = "Year" :: filter (λ c, c ∈ columns fdf)
                    ["NA_Sales"; "EU_Sales"; "JP_Sales"; "Other_Sales"]
      ∧ tolist "Year" t = tolist "Year" (StreamApp.by_year fdf)
      ∧ ∀ r c, r ∈ rows t →
          c ∈ ["NA_Sales"; "EU_Sales"; "JP_Sales"; "Other_Sales"] →
          c ∈ columns fdf →
          r !!! c
          = Num (sum_cells
                   ((λ r', r' !!! c)
                      <$> filter (λ r', r' !!! "Year" = r !!! "Year")
                                 (rows fdf))).
Proof. intros fdf. apply regions_by_year_of. Qed.

Lemma melt_row_fields (v : string) (r : gmap string cell) :
  melt_row "Year" "Región" "Ventas" v r !!! "Year" = r !!! "Year"
  ∧ melt_row "Year" "Región" "Ventas" v r !!! "Región" = Str v
  ∧ melt_row "Year" "Región" "Ventas" v r !!! "Ventas" = r !!! v.
Proof.
  unfold melt_row. cbn [list_to_map foldr uncurry fst snd].
  split; [|split].
  - by rewrite lookup_total_insert_eq.
  - rewrite lookup_total_insert_ne by done.
    by rewrite lookup_total_insert_eq.
  - rewrite !lookup_total_insert_ne by done.
    by rewrite lookup_total_insert_eq.
Qed.

Lemma length_bind_const {A B} (f : A → list B) (l : list A) (n : nat) :
  (∀ x, length (f x) = n) → length (x ← l; f x) = (length l * n)%nat.
Proof.
  intros Hf. induction l as [|x l IH]; [done|].
  cbn. rewrite length_app, Hf. fold (mbind f l). rewrite IH. lia.
Qed.

Lemma melt_year_sum (cs : list string) (l : list (gmap string cell))
    (r : gmap string cell) :
  NoDup ((λ r, r !!! "Year") <$> l) → r ∈ l →
  sum_cells
    ((λ m, m !!! "Ventas")
       <$> filter (λ m, m !!! "Year" = r !!! "Year")
             (c ← cs; melt_row "Year" "Región" "Ventas" c <$> l))
  = sum_cells ((λ c, r !!! c) <$> cs).
Proof.
  intros Hnd Hr. induction cs as [|c cs IH]; [done|].
  cbn [mbind list_bind]. fold (mbind (M := list)
    (λ c, melt_row "Year" "Región" "Ventas" c <$> l) cs).
  rewrite filter_app, fmap_app, sum_cells_app, IH.
  rewrite fmap_cons, sum_cells_cons. f_equal.
  rewrite filter_fmap.
  erewrite (filter_ext_elem _ (λ r', r' !!! "Year" = r !!! "Year"));
    [|intros r' _; by rewrite (proj1 (melt_row_fields c r'))].
  rewrite (filter_key_singleton (λ r, r !!! "Year")) by done.
  rewrite !fmap_cons, !fmap_nil, sum_cells_cons, sum_cells_nil.
  rewrite (proj2 (proj2 (melt_row_fields c r))). by rewrite Qcplus_0_r.
Qed.

Lemma regions_long_form_of `{Quicksort} (fdf : DataFrame) :
  StreamApp.region_panel false fdf = StreamApp.panel_hidden
  ∧ match StreamApp.by_year_regions fdf with
    | None =>
        StreamApp.region_panel true fdf = StreamApp.panel_no_region_columns
    | Some t =>
        ∃ long,
          StreamApp.region_panel true fdf = StreamApp.panel_chart long
          ∧ columns long = ["Year"; "Región"; "Ventas"]
          ∧ rows long
            = (c ← StreamApp.region_cols fdf;
               melt_row "Year" "Región" "Ventas" c <$> rows t)
          ∧ length (rows long)
            = (length (StreamApp.region_cols fdf) * length (rows t))%nat
          ∧ (∀ c r,
               melt_row "Year" "Región" "Ventas" c r !!! "Year" = r !!! "Year"
               ∧ melt_row "Year" "Región" "Ventas" c r !!! "Región" = Str c
               ∧ melt_row "Year" "Región" "Ventas" c r !!! "Ventas" = r !!! c)
          ∧ (∀ r, r ∈ rows t →
               sum_cells
                 ((λ m, m !!! "Ventas")
                    <$> filter (λ m, m !!! "Year" = r !!! "Year")
                               (rows long))
               = sum_cells ((λ c, r !!! c) <$> StreamApp.region_cols fdf))
    end.
Proof.
  split; [done|].
  unfold StreamApp.region_panel, StreamApp.by_year_regions_long.
  destruct (StreamApp.by_year_regions fdf) as [t|] eqn:Ht; [|done].
  cbn [fmap option_fmap option_map].
  eexists. split; [done|]. split; [done|].
  pose proof (by_year_regions_Some fdf t Ht) as Heq.
  assert (rows (melt "Year" "Región" "Ventas" t)
          = (c ← StreamApp.region_cols fdf;
             melt_row "Year" "Región" "Ventas" c <$> rows t)) as Hrows.
  { unfold melt. cbn [rows]. f_equal. rewrite Heq at 1.
    unfold groupby_sums. cbn [columns app]. rewrite filter_cons.
    rewrite decide_False by (by intros ?). apply filter_all.
    apply list.Forall_forall. intros c Hc ->.
    apply region_cols_fresh in Hc. apply Hc. by left. }
  split; [done|]. split; [|split].
  - rewrite Hrows. apply length_bind_const. intros c. by rewrite length_fmap.
  - intros c r. apply melt_row_fields.
  - intros r Hr. rewrite Hrows. apply melt_year_sum; [|done].
    rewrite Heq. eapply (NoDup_fmap_1 (λ a : cell, [a])).
    rewrite <-list_fmap_compose.
    change ((λ a : cell, [a]) ∘ (λ r : gmap string cell, r !!! "Year"))
      with (key_of ["Year"]).
    rewrite keys_groupby_sums by apply NoDup_singleton.
    apply group_keys_NoDup.
Qed.

(** X9.  The region panel.  Without the tick nothing is shown; with it, a note
    when the filtered table has no regional column, and otherwise the
    stacked chart of the long form: one row for every regional column of
    the table and every year, holding the year, the name of the column and
    the sum; the rows of a year add up to the sum of the regional sums of
    that year. *)
Theorem regions_long_form `{Quicksort} `{ToNumeric} (df : DataFrame) (y0 y1 : Z)
    (selected : list cell) :
  let fdf := StreamApp.fdf y0 y1 selected (StreamApp.clean_df df) in
  StreamApp.region_panel false fdf = StreamApp.panel_hidden
  ∧ match StreamApp.by_year_regions fdf with
    | None =>
        StreamApp.region_panel true fdf = StreamApp.panel_no_region_columns
    | Some t =>
        ∃ long,
          StreamApp.region_panel true fdf = StreamApp.panel_chart long
          ∧ columns long = ["Year"; "Región"; "Ventas"]
          ∧ rows long
            = (c ← StreamApp.region_cols fdf;
               melt_row "Year" "Región" "Ventas" c <$> rows t)
          ∧ length (rows long)
            = (length (StreamApp.region_cols fdf) * length (rows t))%nat
          ∧ (∀ c r,
               melt_row "Year" "Región" "Ventas" c r !!! "Year" = r !!! "Year"
               ∧ melt_row "Year" "Región" "Ventas" c r !!! "Región" = Str c
               ∧ melt_row "Year" "Región" "Ventas" c r !!! "Ventas" = r !!! c)
          ∧ (∀ r, r ∈ rows t →
               sum_cells
                 ((λ m, m !!! "Ventas")
                    <$> filter (λ m, m !!! "Year" = r !!! "Year")
                               (rows long))
               = sum_cells ((λ c, r !!! c) <$> StreamApp.region_cols fdf))
    end.
Proof. intros fdf. apply regions_long_form_of. Qed.

(** ** The table of filtered rows *)

Lemma preferred_NoDup : NoDup StreamApp.preferred.
Proof. by apply (bool_decide_unpack _). Qed.

(** X10.  The table of filtered rows shows every column of the data: the columns
    it lists are those of the filtered table, none added and none left out,
    and each once when the labels of the table are distinct.  The usual
    ones come first, in the fixed order; the others follow as the file has
    them. *)
Theorem table_columns_rearranged (fdf : DataFrame) :
  NoDup (columns fdf) →
  StreamApp.cols fdf ≡ₚ columns fdf
  ∧ NoDup (StreamApp.cols fdf)
  ∧ ∃ usual others,
      StreamApp.cols fdf = usual ++ others
      ∧ usual `sublist_of`
          ["Name"; "Platform"; "Year"; "Genre"; "Publisher"; "NA_Sales";
           "EU_Sales"; "JP_Sales"; "Other_Sales"; "Global_Sales"]
      ∧ others `sublist_of` columns fdf
      ∧ (∀ c, c ∈ usual ↔ c ∈ StreamApp.preferred ∧ c ∈ columns fdf)
      ∧ (∀ c, c ∈ others ↔ c ∈ columns fdf ∧ c ∉ StreamApp.preferred).
Proof.
  intros Hnd.
  assert (StreamApp.cols fdf ≡ₚ columns fdf) as Hperm.
  { unfold StreamApp.cols.
    etrans; [|apply (filter_app_complement (λ c, c ∈ StreamApp.preferred)
                       (columns fdf))].
    apply Permutation_app; [|done].
    apply NoDup_Permutation.
    - apply NoDup_filter, preferred_NoDup.
    - by apply NoDup_filter.
    - intros c. rewrite !list_elem_of_filter. tauto. }
  split; [done|]. split; [by rewrite Hperm|].
  eexists _, _. split; [done|]. split; [apply sublist_filter|].
  split; [apply sublist_filter|]. split; intros c.
  - rewrite list_elem_of_filter. tauto.
  - rewrite list_elem_of_filter. tauto.
Qed.

Lemma table_columns_rearranged_witness :
  StreamApp.cols scenario ≡ₚ columns scenario.
Proof.
  apply table_columns_rearranged. apply (bool_decide_unpack _).
  by vm_compute.
Defined.

(** ** app_2.py: loading and the run of the script *)

Lemma load_data_Returned `{ToNumeric} (read_csv : reader)
    (file : UploadedFile) (df : DataFrame) :
  read_csv (content file) None = Returned df →
  filter (λ c, c ∉ columns df) App2.required_cols = [] →
  Load.years_finite (rows df) →
  ∃ out, App2.load_data read_csv file = Returned out
         ∧ columns out = columns df
         ∧ rows out = Load.loaded <$> filter Load.year_reads (rows df).
Proof.
  intros Hread Hmiss Hfin. unfold App2.load_data. rewrite Hread. cbv zeta.
  rewrite Hmiss. apply Load.years_finite_existsb in Hfin.
  unfold tolist. rewrite Hfin. eexists. split; [done|].
  assert (∀ c, c ∈ App2.required_cols → c ∈ columns df) as Hreq.
  { intros c Hc. destruct (decide (c ∈ columns df)) as [|Hn]; [done|].
    assert (c ∈ filter (λ c, c ∉ columns df) App2.required_cols) as Hin
      by (by apply list_elem_of_filter).
    rewrite Hmiss in Hin. by apply not_elem_of_nil in Hin. }
  split.
  - rewrite columns_assign_elem.
    + rewrite columns_assign_elem.
      * unfold dropna. rewrite columns_select. apply columns_assign_elem.
        apply Hreq. by apply (bool_decide_unpack _).
      * unfold dropna. rewrite columns_select, columns_assign_elem;
          apply Hreq; by apply (bool_decide_unpack _).
    + rewrite columns_assign_elem.
      * unfold dropna. rewrite columns_select, columns_assign_elem;
          apply Hreq; by apply (bool_decide_unpack _).
      * unfold dropna. rewrite columns_select, columns_assign_elem;
          apply Hreq; by apply (bool_decide_unpack _).
  - rewrite !rows_assign, rows_dropna, rows_assign.
    rewrite filter_fmap, <-!list_fmap_compose.
    erewrite (filter_ext_elem _ (λ r, Load.year_reads r)).
    + apply list_fmap_ext. intros _ r _. unfold Load.loaded, compose.
      rewrite lookup_total_insert_eq, insert_insert_eq.
      by rewrite lookup_total_insert_ne.
    + intros r _. unfold notna_all, Load.year_reads. simpl.
      rewrite lookup_total_insert_eq. by rewrite andb_true_r.
Qed.

(** A table that [load_data] returned was read from the file, with the
    required columns and no year that is an infinity. *)
Lemma load_data_inv `{ToNumeric} (read_csv : reader) (file : UploadedFile)
    (out : DataFrame) :
  App2.load_data read_csv file = Returned out →
  ∃ df, read_csv (content file) None = Returned df
        ∧ filter (λ c, c ∉ columns df) App2.required_cols = []
        ∧ Load.years_finite (rows df).
Proof.
  unfold App2.load_data.
  destruct (read_csv (content file) None) as [df|e]; [|done]. cbv zeta.
  destruct (filter _ App2.required_cols) as [|c cs] eqn:Hmiss; [|done].
  unfold tolist. destruct (existsb _ _) eqn:Hinf; [done|]. intros _.
  exists df. split; [done|]. split; [done|].
  by apply Load.years_finite_existsb.
Qed.


Lemma loaded_row `{ToNumeric} (r : gmap string cell) :
  Load.year_reads r →
  (∀ c, c ≠ "Year" → c ≠ "Global_Sales" → Load.loaded r !! c = r !! c)
  ∧ (∃ q, coerce (r !!! "Year") = finite q
          ∧ Load.loaded r !!! "Year" = Num (Qc_of_Z (int64 (trunc q))))
  ∧ Load.loaded r !!! "Platform" = r !!! "Platform"
  ∧ Load.loaded r !!! "Global_Sales"
    = fillna 0 (to_numeric (r !!! "Global_Sales")).
Proof.
  intros [q Hq]%Load.year_reads_iff. unfold Load.loaded.
  split; [|split; [|split]].
  - intros c ? ?. by rewrite !lookup_insert_ne.
  - exists q. split; [done|].
    rewrite lookup_total_insert_ne by done. rewrite lookup_total_insert_eq.
    unfold to_numeric. by rewrite Hq.
  - by rewrite !lookup_total_insert_ne.
  - by rewrite lookup_total_insert_eq.
Qed.


Lemma elem_of_unique_notna (c : string) (df : DataFrame) (x : cell) :
  x ∈ unique_notna c df ↔ x ≠ NaN ∧ ∃ r, r ∈ rows df ∧ r !!! c = x.
Proof.
  unfold unique_notna, tolist.
  rewrite elem_of_remove_dups, list_elem_of_filter, list_elem_of_fmap.
  destruct x; cbn; naive_solver.
Qed.

Lemma sorted_numbers (l : list cell) :
  Forall (λ x, ∃ q, x = Num q) l → sorted l = Returned (merge_sort cell_le l).
Proof.
  intros Hl. unfold sorted.
  assert (existsb is_text l = false) as ->; [|done].
  induction Hl as [|x l [q ->] _ IH]; [done|]. cbn. exact IH.
Qed.

(** After loading, the years on offer are sorted without an exception. *)
Lemma options_year `{ToNumeric} (read_csv : reader) (file : UploadedFile)
    (df : DataFrame) :
  App2.load_data read_csv file = Returned df →
  App2.options "Year" df
  = Returned (merge_sort cell_le (unique_notna "Year" df))
  ∧ Forall (λ r, r !!! "Year" ≠ NaN) (rows df).
Proof.
  intros Hload.
  assert (Forall (λ r, ∃ y : Z, r !!! "Year" = Num (Qc_of_Z y)) (rows df))
    as Hyears.
  { destruct (load_data_inv read_csv file df Hload)
      as (df0 & Hread & Hmiss & Hfin).
    destruct (load_data_Returned read_csv file df0 Hread Hmiss Hfin)
      as (out & Hout & _ & Hrows).
    rewrite Hout in Hload. injection Hload as <-.
    rewrite Hrows. apply Forall_fmap, list.Forall_forall.
    intros r [Hr _]%list_elem_of_filter. cbn.
    apply loaded_row in Hr as (_ & (q & _ & ->) & _). by eexists. }
  split.
  - apply sorted_numbers, list.Forall_forall. intros x Hx.
    apply elem_of_unique_notna in Hx as (_ & r & Hr & <-).
    rewrite list.Forall_forall in Hyears.
    destruct (Hyears r Hr) as [y ->]. by eexists.
  - eapply list.Forall_impl; [exact Hyears|]. by intros r [y ->].
Qed.

(** X12.  The errors of a run of app_2.py.  What [load_data] raises, be it the
    reader's exception or the missing columns, is caught and shown as an
    error with the text of the exception.  The only exception that escapes
    is that of sorting the platforms on offer, when the column holds text
    and numbers. *)
Theorem load_failure_is_reported (read_csv : reader) `{Quicksort}
    `{ToNumeric} (file : UploadedFile) (ui : App2.Widgets) :
  App2.run read_csv None ui = App2.Stop App2.info_upload
  ∧ (∀ text,
       App2.run read_csv (Some file) ui
       = App2.Stop (App2.error_reading text)
       ↔ ∃ e, App2.load_data read_csv file = Raised e
              ∧ text = String.append "Error leyendo el CSV: " e)
  ∧ (∀ e,
       App2.run read_csv (Some file) ui = App2.Uncaught e
       ↔ ∃ df s q,
           App2.load_data read_csv file = Returned df
           ∧ e = "TypeError"
           ∧ Str s ∈ tolist "Platform" df
           ∧ Num q ∈ tolist "Platform" df).
Proof.
  split; [done|]. unfold App2.run.
  destruct (App2.load_data read_csv file) as [df|e0] eqn:Hload.
  2:{ split.
      - intros text. split; [intros [= <-]; by eexists|].
        by intros (e & [= <-] & ->).
      - intros e. split; [done|]. by intros (? & ? & ? & ? & _). }
  destruct (options_year read_csv file df Hload) as [Hyears _].
  rewrite Hyears.
  assert (∀ e, App2.options "Platform" df = Raised e
               ↔ e = "TypeError"
                 ∧ ∃ s q, Str s ∈ tolist "Platform" df
                          ∧ Num q ∈ tolist "Platform" df) as Hplat.
  { intros e. unfold App2.options, sorted.
    destruct (existsb is_text _) eqn:Ht; cbn [andb].
    - destruct (existsb (λ c, negb (is_text c)) _) eqn:Hn.
      + apply existsb_exists in Ht as (x & Hx%list_elem_of_In & Hxt).
        apply existsb_exists in Hn as (y & Hy%list_elem_of_In & Hyt).
        apply elem_of_unique_notna in Hx as (_ & r & Hr & <-).
        apply elem_of_unique_notna in Hy as (Hyn & r' & Hr' & <-).
        split; [intros [= <-]|by intros [-> _]]. split; [done|].
        destruct (r !!! "Platform") as [| |s] eqn:Es; try done.
        destruct (r' !!! "Platform") as [|q|] eqn:Eq; try done.
        exists s, q. unfold tolist. rewrite !list_elem_of_fmap.
        split; [exists r|exists r']; by rewrite ?Es, ?Eq.
      + split; [done|]. intros (_ & s & q & Hs & Hq).
        assert (existsb (λ c, negb (is_text c)) (unique_notna "Platform" df)
                = true) as Hc; [|by rewrite Hc in Hn].
        apply existsb_exists. exists (Num q). split; [|done].
        apply list_elem_of_In, elem_of_unique_notna. split; [done|].
        unfold tolist in Hq. apply list_elem_of_fmap in Hq as (r & ? & ?).
        eauto.
    - split; [done|]. intros (_ & s & q & Hs & Hq).
      assert (existsb is_text (unique_notna "Platform" df) = true) as Hc;
        [|by rewrite Hc in Ht].
      apply existsb_exists. exists (Str s). split; [|done].
      apply list_elem_of_In, elem_of_unique_notna. split; [done|].
      unfold tolist in Hs. apply list_elem_of_fmap in Hs as (r & ? & ?).
      eauto. }
  destruct (App2.options "Platform" df) as [platforms|e0] eqn:Hopt.
  - cbv zeta. split.
    + intros text. split; [by destruct (empty _)|]. by intros (? & ? & _).
    + intros e. split; [by destruct (empty _)|].
      intros (df' & s & q & [= <-] & -> & Hs & Hq).
      assert (∃ e' : string, Returned platforms = Raised e') as [? ?];
        [|done].
      exists "TypeError". apply Hplat. eauto.
  - split.
    + intros text. split; [done|]. by intros (? & ? & _).
    + intros e. split.
      * intros [= <-]. destruct (proj1 (Hplat e0) eq_refl)
          as (-> & s & q & Hs & Hq).
        by exists df, s, q.
      * intros (df' & s & q & [= <-] & -> & Hs & Hq). f_equal.
        apply Hplat. eauto.
Qed.

Lemma merge_sort_strict (l : list cell) :
  NoDup l → StronglySorted cell_lt (merge_sort cell_le l).
Proof.
  intros Hnd.
  eapply StronglySorted_weaken;
    [|apply StronglySorted_strict;
       [apply (StronglySorted_merge_sort cell_le)
       |by rewrite merge_sort_Permutation]].
  intros a b Hab. by apply cell_lt_le_ne.
Qed.

Lemma columns_agg (f : DataFrame) :
  columns (App2.agg f) = ["Platform"; "Year"; "Ventas_Globales"].
Proof. done. Qed.

(** The aggregation has no row exactly when no row of the table has both a
    platform and a year. *)
Lemma agg_empty (f : DataFrame) :
  rows (App2.agg f) = []
  ↔ ∀ r, r ∈ rows f → ¬ (r !!! "Platform" ≠ NaN ∧ r !!! "Year" ≠ NaN).
Proof.
  split.
  - intros Hnil r Hr [Hp Hy].
    assert ([r !!! "Platform"; r !!! "Year"]
              ∈ group_keys ["Platform"; "Year"] f) as Hk.
    { apply Pivot.group_key_iff. eauto 10. }
    assert (Pivot.agg_row (r !!! "Platform") (r !!! "Year")
              (group_sum ["Platform"; "Year"] "Global_Sales"
                 [r !!! "Platform"; r !!! "Year"] f) ∈ rows (App2.agg f))
      as Hin.
    { apply Pivot.elem_of_agg. eauto. }
    rewrite Hnil in Hin. by apply not_elem_of_nil in Hin.
  - intros Hnone. destruct (rows (App2.agg f)) as [|a l] eqn:Ha; [done|].
    assert (a ∈ rows (App2.agg f)) as Hin by (rewrite Ha; by left).
    apply Pivot.elem_of_agg in Hin as (p & y & Hk & _).
    apply Pivot.group_key_iff in Hk as (Hp & Hy & r & Hr & <- & <-).
    by destruct (Hnone r Hr).
Qed.

(** X13.  The selections of app_2.py.  The platforms on offer are the distinct
    platforms of the table that are not missing, in ascending order, and
    the years on offer its distinct years.  The rows shown are those whose
    platform and year are both selected; with nothing chosen they are the
    rows that have a platform.  The run ends with the warning of no data
    exactly when no row is selected, and otherwise shows the tables of the
    selected rows. *)
Theorem selection_and_warning (read_csv : reader) `{Quicksort}
    `{ToNumeric} (file : UploadedFile) (ui : App2.Widgets) (df : DataFrame)
    (platforms : list cell) :
  App2.load_data read_csv file = Returned df →
  App2.options "Platform" df = Returned platforms →
  let years := merge_sort cell_le (unique_notna "Year" df) in
  let selected_platforms := default platforms (App2.chosen_platforms ui) in
  let selected_years := default years (App2.chosen_years ui) in
  let f := App2.filtered selected_platforms selected_years df in
  let run := App2.run read_csv (Some file) ui in
  StronglySorted cell_lt platforms
  ∧ (∀ p, p ∈ platforms ↔
          p ≠ NaN ∧ ∃ r, r ∈ rows df ∧ r !!! "Platform" = p)
  ∧ StronglySorted cell_lt years
  ∧ (∀ y, y ∈ years ↔ ∃ r, r ∈ rows df ∧ r !!! "Year" = y)
  ∧ rows f = filter (λ r, r !!! "Platform" ∈ selected_platforms
                          ∧ r !!! "Year" ∈ selected_years) (rows df)
  ∧ (App2.chosen_platforms ui = None → App2.chosen_years ui = None →
     rows f = filter (λ r, r !!! "Platform" ≠ NaN) (rows df))
  ∧ (NaN ∉ selected_platforms →
     (rows f = [] → run = App2.Stop App2.warning_no_data)
     ∧ (rows f ≠ [] →
        run = App2.Render
                (App2.mkTables f (App2.agg f) (App2.pivot (App2.agg f))
                   (App2.ranking (App2.agg f))))).
Proof.
  intros Hload Hopt years selected_platforms selected_years f run.
  destruct (options_year read_csv file df Hload) as [Hyears Hynn].
  rewrite list.Forall_forall in Hynn.
  assert (platforms = merge_sort cell_le (unique_notna "Platform" df))
    as Hplat.
  { unfold App2.options, sorted in Hopt.
    destruct (_ && _); [done|]. by injection Hopt. }
  assert (∀ p, p ∈ platforms ↔
               p ≠ NaN ∧ ∃ r, r ∈ rows df ∧ r !!! "Platform" = p) as Hp.
  { intros p. rewrite Hplat, merge_sort_Permutation.
    apply elem_of_unique_notna. }
  assert (∀ y, y ∈ years ↔ ∃ r, r ∈ rows df ∧ r !!! "Year" = y) as Hy.
  { intros y. unfold years.
    rewrite merge_sort_Permutation, elem_of_unique_notna.
    split; [by intros [_ ?]|]. intros (r & Hr & <-). split; [by apply Hynn|].
    eauto. }
  assert (rows f = filter (λ r, r !!! "Platform" ∈ selected_platforms
                                ∧ r !!! "Year" ∈ selected_years) (rows df))
    as Hrows.
  { unfold f, App2.filtered. rewrite rows_select.
    apply filter_ext_elem. intros r _. unfold isin.
    rewrite andb_True, !bool_decide_spec. done. }
  split; [rewrite Hplat; apply merge_sort_strict, NoDup_remove_dups|].
  split; [done|].
  split; [apply merge_sort_strict, NoDup_remove_dups|].
  split; [done|]. split; [done|]. split.
  - intros Hcp Hcy. rewrite Hrows. apply filter_ext_elem. intros r Hr.
    unfold selected_platforms, selected_years. rewrite Hcp, Hcy. cbn.
    rewrite Hp, Hy. naive_solver.
  - intros Hnan.
    assert (∀ r, r ∈ rows f →
                 r !!! "Platform" ≠ NaN ∧ r !!! "Year" ≠ NaN) as Hpresent.
    { intros r. rewrite Hrows. intros [[Hrp _] Hr]%list_elem_of_filter.
      split; [|by apply Hynn]. intros Heq. by rewrite Heq in Hrp. }
    assert (empty (App2.agg f) ↔ rows f = []) as Hempty.
    { rewrite empty_rows by done. rewrite agg_empty. split.
      - intros Hnone. destruct (rows f) as [|r l] eqn:Hf; [done|].
        destruct (Hnone r); [by left|]. apply Hpresent. by left.
      - intros Hnil r Hr. rewrite Hnil in Hr. by apply not_elem_of_nil in Hr. }
    unfold run, App2.run. rewrite Hload, Hopt, Hyears. cbv zeta.
    clear Hrows Hpresent. subst f selected_platforms selected_years years.
    split; intros Hf.
    + apply Hempty in Hf. by destruct (empty (App2.agg _)).
    + destruct (empty (App2.agg _)) eqn:He; [|done].
      destruct Hf. by apply Hempty.
Qed.

(** The table that [load_data] makes of the example. *)
Definition loaded_scenario : DataFrame :=
  Eval vm_compute in
    match @App2.load_data (Load.reading scenario) decimal_reader (mkFile [] 0)
    with
    | Returned df => df
    | Raised _ => scenario
    end.

Lemma selection_and_warning_witness :
  @App2.load_data (Load.reading scenario) decimal_reader (mkFile [] 0)
  = Returned loaded_scenario
  ∧ App2.options "Platform" loaded_scenario
    = Returned [Str "NES"; Str "Wii"]
  ∧ StronglySorted cell_lt [Str "NES"; Str "Wii"].
Proof.
  split; [by vm_compute|]. split; [by vm_compute|].
  eapply (@selection_and_warning (Load.reading scenario) merge_quicksort
            decimal_reader (mkFile [] 0) (App2.mkWidgets None None)
            loaded_scenario); by vm_compute.
Defined.

(** ** app_2.py: the ranking *)

Lemma rows_agg (f : DataFrame) :
  rows (App2.agg f)
  = (λ k, rename_row "Global_Sales" "Ventas_Globales"
            (group_row ["Platform"; "Year"] "Global_Sales" k
               (group_sum ["Platform"; "Year"] "Global_Sales" k f)))
      <$> group_keys ["Platform"; "Year"] f.
Proof.
  unfold App2.agg, rename, groupby_sum. cbn [rows].
  by rewrite <-list_fmap_compose.
Qed.

Lemma groups_NoDup (c col : string) (df : DataFrame) :
  NoDup ((λ g, g !!! c) <$> rows (groupby_sum [c] col df)).
Proof.
  eapply (NoDup_fmap_1 (λ a : cell, [a])). rewrite <-list_fmap_compose.
  apply (groupby_sum_NoDup_keys [c] col), NoDup_singleton.
Qed.

(** The ranking is computed from the aggregation by platform and year: one
    row for every platform that has a row with a year, holding the sum of the
    amounts of the platform in the aggregation, each of which is the sum of
    [Global_Sales] over the rows of the platform and a year; the largest
    amount comes first. *)
Lemma ranking_totals_of `{Quicksort} (f : DataFrame) :
  let ranking := rows (App2.ranking (App2.agg f)) in
  NoDup ((λ g, g !!! "Platform") <$> ranking)
  ∧ (∀ p, (∃ g, g ∈ ranking ∧ g !!! "Platform" = p)
          ↔ p ≠ NaN
            ∧ ∃ r, r ∈ rows f ∧ r !!! "Platform" = p ∧ r !!! "Year" ≠ NaN)
  ∧ (∀ g, g ∈ ranking →
          g !!! "Ventas_Globales"
          = Num (sum_cells
                   ((λ a, a !!! "Ventas_Globales")
                      <$> filter (λ a, a !!! "Platform" = g !!! "Platform")
                                 (rows (App2.agg f)))))
  ∧ (∀ a, a ∈ rows (App2.agg f) →
          a !!! "Platform" ≠ NaN ∧ a !!! "Year" ≠ NaN
          ∧ a !!! "Ventas_Globales"
            = Num (sum_cells
                     ((λ r, r !!! "Global_Sales")
                        <$> filter (λ r, r !!! "Platform" = a !!! "Platform"
                                         ∧ r !!! "Year" = a !!! "Year")
                                   (rows f))))
  ∧ StronglySorted (λ g1 g2, number (g2 !!! "Ventas_Globales")
                             ≤ number (g1 !!! "Ventas_Globales")) ranking.
Proof.
  intros ranking.
  set (A := App2.agg f).
  set (G := groupby_sum ["Platform"] "Ventas_Globales" A).
  destruct (ranked "Platform" "Ventas_Globales" A) as [Hperm Hsorted];
    [done|].
  fold G in Hperm. change (rows (sort_values _ _ _)) with ranking in Hperm.
  assert (NoDup ["Platform"]) as Hnd by apply NoDup_singleton.
  assert ("Ventas_Globales" ∉ ["Platform"]) as Hfresh
    by (by apply (bool_decide_unpack _)).
  assert (∀ p, [p] ∈ group_keys ["Platform"] A
               ↔ p ≠ NaN ∧ ∃ r, r ∈ rows f ∧ r !!! "Platform" = p
                                ∧ r !!! "Year" ≠ NaN) as Hkeys.
  { intros p. rewrite elem_of_group_keys, key_present_singleton. split.
    - intros (Hp & a & Ha & Hka). split; [done|].
      apply Pivot.elem_of_agg in Ha as (p' & y' & Hk & ->).
      destruct (Pivot.agg_row_lookup p' y'
                  (group_sum ["Platform"; "Year"] "Global_Sales" [p'; y'] f))
        as (HP & _ & _).
      unfold key_of in Hka. cbn in Hka. rewrite HP in Hka.
      injection Hka as ->.
      apply Pivot.group_key_iff in Hk as (_ & Hy & r & Hr & Hrp & Hry).
      exists r. by rewrite Hry.
    - intros (Hp & r & Hr & Hrp & Hry). split; [done|].
      exists (Pivot.agg_row p (r !!! "Year")
                (group_sum ["Platform"; "Year"] "Global_Sales"
                   [p; r !!! "Year"] f)).
      split.
      + apply Pivot.elem_of_agg. exists p, (r !!! "Year"). split; [|done].
        apply Pivot.group_key_iff. eauto 10.
      + unfold key_of. cbn.
        by rewrite (proj1 (Pivot.agg_row_lookup _ _ _)). }
  assert (∀ g, g ∈ rows G →
               [g !!! "Platform"] ∈ group_keys ["Platform"] A
               ∧ g !!! "Ventas_Globales"
                 = Num (group_sum ["Platform"] "Ventas_Globales"
                          [g !!! "Platform"] A)) as Hrow.
  { intros g Hg. by apply total_groupby_sum in Hg. }
  split; [|split; [|split; [|split]]].
  - rewrite Hperm. apply groups_NoDup.
  - intros p. rewrite <-Hkeys. split.
    + intros (g & Hg & <-). rewrite Hperm in Hg. by apply Hrow.
    + intros Hk.
      apply (group_key_has_row _ "Ventas_Globales") in Hk as (g & Hg & Hkg);
        [|done].
      exists g. rewrite Hperm. split; [done|]. by injection Hkg.
  - intros g Hg. rewrite Hperm in Hg. destruct (Hrow g Hg) as [_ ->].
    unfold group_sum, group. do 3 f_equal.
    apply filter_ext_elem. intros a _. unfold key_of. cbn.
    split; [by intros [= ->]|by intros ->].
  - intros a Ha. apply Pivot.elem_of_agg in Ha as (p & y & Hk & ->).
    destruct (Pivot.agg_row_lookup p y
                (group_sum ["Platform"; "Year"] "Global_Sales" [p; y] f))
      as (-> & -> & ->).
    apply Pivot.group_key_iff in Hk as (Hp & Hy & _).
    split; [done|]. split; [done|].
    unfold group_sum, group. do 3 f_equal.
    apply filter_ext_elem. intros r _. unfold key_of. cbn.
    split; [by intros [= -> ->]|by intros [-> ->]].
  - exact Hsorted.
Qed.

(** X14.  The ranking of app_2.py, for the rows selected from a loaded table.  It
    is computed from the aggregation by platform and year: it has one row for
    every platform among the selected rows, holding the sum of the amounts of
    the platform in the aggregation, in the order of the aggregation; each
    of these amounts is the sum of [Global_Sales] over the selected rows of
    the platform and one year.  The largest amount comes first. *)
Theorem ranking_totals (read_csv : reader) `{Quicksort} `{ToNumeric}
    (file : UploadedFile) (df : DataFrame)
    (selected_platforms selected_years : list cell) :
  App2.load_data read_csv file = Returned df →
  let f := App2.filtered selected_platforms selected_years df in
  let ranking := rows (App2.ranking (App2.agg f)) in
  NoDup ((λ g, g !!! "Platform") <$> ranking)
  ∧ (∀ p, (∃ g, g ∈ ranking ∧ g !!! "Platform" = p)
          ↔ p ≠ NaN ∧ ∃ r, r ∈ rows f ∧ r !!! "Platform" = p)
  ∧ (∀ g, g ∈ ranking →
          g !!! "Ventas_Globales"
          = Num (sum_cells
                   ((λ a, a !!! "Ventas_Globales")
                      <$> filter (λ a, a !!! "Platform" = g !!! "Platform")
                                 (rows (App2.agg f)))))
  ∧ (∀ a, a ∈ rows (App2.agg f) →
          a !!! "Platform" ≠ NaN ∧ a !!! "Year" ≠ NaN
          ∧ a !!! "Ventas_Globales"
            = Num (sum_cells
                     ((λ r, r !!! "Global_Sales")
                        <$> filter (λ r, r !!! "Platform" = a !!! "Platform"
                                         ∧ r !!! "Year" = a !!! "Year")
                                   (rows f))))
  ∧ StronglySorted (λ g1 g2, number (g2 !!! "Ventas_Globales")
                             ≤ number (g1 !!! "Ventas_Globales")) ranking.
Proof.
  intros Hload f ranking. subst ranking.
  destruct (options_year read_csv file df Hload) as [_ Hyears].
  assert (∀ r, r ∈ rows f → r !!! "Year" ≠ NaN) as Hy.
  { intros r Hr. unfold f, App2.filtered in Hr. rewrite rows_select in Hr.
    apply list_elem_of_filter in Hr as [_ Hr].
    rewrite list.Forall_forall in Hyears. by apply Hyears. }
  destruct (ranking_totals_of f) as (Hnd & Hin & Hsum & Hagg & Hsorted).
  split; [done|]. split; [|done].
  intros p. rewrite Hin. split.
  - intros (Hp & r & Hr & Hrp & _). eauto.
  - intros (Hp & r & Hr & Hrp). split; [done|]. exists r. eauto.
Qed.

(** The platforms and the years selected in the example: all of them. *)
Definition scenario_platforms : list cell := [Str "NES"; Str "Wii"].

Definition scenario_years : list cell :=
  [Num (Qc_of_Z 1985); Num (Qc_of_Z 2006); Num (Qc_of_Z 2009)].

Lemma ranking_totals_witness :
  @App2.load_data (Load.reading scenario) decimal_reader (mkFile [] 0)
  = Returned loaded_scenario
  ∧ length (rows (App2.filtered scenario_platforms scenario_years
                    loaded_scenario))
    = 3%nat
  ∧ NoDup ((λ g, g !!! "Platform")
             <$> rows (@App2.ranking merge_quicksort
                         (App2.agg (App2.filtered scenario_platforms
                                      scenario_years loaded_scenario)))).
Proof.
  split; [by vm_compute|]. split; [by vm_compute|].
  eapply (@ranking_totals (Load.reading scenario) merge_quicksort
            decimal_reader (mkFile [] 0)). by vm_compute.
Defined.

(** ** app_2.py: the pivot *)

(** The rows of a pivot come out of [pivot_table] sorted by their label,
    each label once; sorting them again changes nothing, whatever the
    sort. *)
Lemma sort_index_pivot_table `{Quicksort} (i c v : string) (fill : Qc)
    (df : DataFrame) :
  sort_index (pivot_table i c v fill df) = pivot_table i c v fill df.
Proof.
  unfold sort_index, pivot_table. cbn [index values labels].
  set (g := groupby_sum [i; c] v df).
  set (idx := merge_sort cell_le (remove_dups (tolist i g))).
  set (cols := merge_sort cell_le (remove_dups (tolist c g))).
  set (row := λ ki, (λ kc, pivot_cell i c v fill g ki kc) <$> cols).
  rewrite zip_fmap_r.
  assert (quicksort label_order ((λ x, (x, row x)) <$> idx)
          = (λ x, (x, row x)) <$> idx) as ->.
  { apply quicksort_unique; [apply _..| | |done].
    - intros a b Ha Hb Hab Hba.
      apply list_elem_of_fmap in Ha as (x & -> & _).
      apply list_elem_of_fmap in Hb as (y & -> & _).
      unfold label_order in Hab, Hba. cbn in Hab, Hba.
      by rewrite (anti_symm cell_le x y Hab Hba).
    - eapply (StronglySorted_fmap _ cell_le); [by intros x y Hxy|].
      apply (StronglySorted_merge_sort cell_le). }
  f_equal.
  - rewrite <-list_fmap_compose. by rewrite list_fmap_id.
  - by rewrite <-list_fmap_compose.
Qed.

(** A row of the aggregation, seen from the pivot. *)
Lemma agg_row_of_key (f : DataFrame) (y pl : cell) :
  (∃ r, r ∈ rows (App2.agg f) ∧ r !!! "Year" = y ∧ r !!! "Platform" = pl)
  ↔ [pl; y] ∈ group_keys ["Platform"; "Year"] f.
Proof.
  split.
  - intros (r & Hr & <- & <-).
    apply Pivot.elem_of_agg in Hr as (p & y & Hk & ->).
    destruct (Pivot.agg_row_lookup p y
                (group_sum ["Platform"; "Year"] "Global_Sales" [p; y] f))
      as (-> & -> & _).
    done.
  - intros Hk. eexists. split; [apply Pivot.elem_of_agg; eauto|].
    destruct (Pivot.agg_row_lookup pl y
                (group_sum ["Platform"; "Year"] "Global_Sales" [pl; y] f))
      as (-> & -> & _).
    done.
Qed.

(** The pivot of an aggregation, whatever table it was computed from. *)
Lemma pivot_shape_of `{Quicksort} (f : DataFrame) :
  let a := App2.agg f in
  let p := App2.pivot a in
  p = pivot_table "Year" "Platform" "Ventas_Globales" 0 a
  ∧ StronglySorted cell_lt (index p)
  ∧ StronglySorted cell_lt (labels p)
  ∧ length (values p) = length (index p)
  ∧ Forall (λ cells, length cells = length (labels p)) (values p)
  ∧ (∀ y, y ∈ index p ↔ ∃ r, r ∈ rows a ∧ r !!! "Year" = y)
  ∧ (∀ pl, pl ∈ labels p ↔ ∃ r, r ∈ rows a ∧ r !!! "Platform" = pl)
  ∧ (∀ i j y pl cells,
       index p !! i = Some y → labels p !! j = Some pl →
       values p !! i = Some cells →
       (∀ r, r ∈ rows a → r !!! "Year" = y → r !!! "Platform" = pl →
             cells !! j = Some (r !!! "Ventas_Globales"))
       ∧ ((∀ r, r ∈ rows a →
                ¬ (r !!! "Year" = y ∧ r !!! "Platform" = pl)) →
          cells !! j = Some (Num 0)))
  ∧ (∀ r, r ∈ rows a →
       ∃ i j cells,
         index p !! i = Some (r !!! "Year")
         ∧ labels p !! j = Some (r !!! "Platform")
         ∧ values p !! i = Some cells
         ∧ cells !! j = Some (r !!! "Ventas_Globales")).
Proof.
  intros a p.
  assert (p = pivot_table "Year" "Platform" "Ventas_Globales" 0 a) as Hp.
  { apply sort_index_pivot_table. }
  clearbody p.
  set (g := groupby_sum ["Year"; "Platform"] "Ventas_Globales" a).
  assert (index p = merge_sort cell_le (remove_dups (tolist "Year" g)))
    as Hidx by (by rewrite Hp).
  assert (labels p = merge_sort cell_le (remove_dups (tolist "Platform" g)))
    as Hlab by (by rewrite Hp).
  assert (values p
          = (λ ki, (λ kc, pivot_cell "Year" "Platform" "Ventas_Globales" 0
                            g ki kc) <$> labels p) <$> index p) as Hval
    by (by rewrite Hp).
  assert (∀ y, y ∈ index p ↔ ∃ r, r ∈ rows a ∧ r !!! "Year" = y) as Hiy.
  { intros y. rewrite Hp. unfold a. rewrite Pivot.elem_of_pivot_index.
    split.
    - intros (pl & Hk). apply agg_row_of_key in Hk as (r & ? & ? & _). eauto.
    - intros (r & Hr & Hy). exists (r !!! "Platform").
      apply agg_row_of_key. eauto. }
  assert (∀ pl, pl ∈ labels p ↔ ∃ r, r ∈ rows a ∧ r !!! "Platform" = pl)
    as Hipl.
  { intros pl. rewrite Hp. unfold a. rewrite Pivot.elem_of_pivot_labels.
    split.
    - intros (y & Hk). apply agg_row_of_key in Hk as (r & ? & _ & ?). eauto.
    - intros (r & Hr & Hy). exists (r !!! "Year").
      apply agg_row_of_key. eauto. }
  assert (∀ i j y pl cells,
            index p !! i = Some y → labels p !! j = Some pl →
            values p !! i = Some cells →
            cells !! j = Some (Num (Pivot.cell_sum f y pl))) as Hcell.
  { intros i j y pl cells Hi Hj Hv.
    rewrite Hval, list_lookup_fmap, Hi in Hv.
    cbn [fmap option_fmap option_map] in Hv. injection Hv as <-.
    rewrite list_lookup_fmap, Hj.
    cbn [fmap option_fmap option_map]. f_equal.
    apply list_elem_of_lookup_2 in Hi, Hj.
    apply Hiy in Hi as (r1 & Hr1 & Hy1).
    apply Hipl in Hj as (r2 & Hr2 & Hp2).
    apply Pivot.elem_of_agg in Hr1 as (p1 & y1 & Hk1 & ->).
    apply Pivot.elem_of_agg in Hr2 as (p2 & y2 & Hk2 & ->).
    rewrite (proj1 (proj2 (Pivot.agg_row_lookup _ _ _))) in Hy1.
    rewrite (proj1 (Pivot.agg_row_lookup _ _ _)) in Hp2. subst y1 p2.
    apply Pivot.group_key_iff in Hk1 as (_ & Hy & _).
    apply Pivot.group_key_iff in Hk2 as (Hpl & _).
    by apply Pivot.pivot_cell_eq. }
  split; [done|]. split; [|split; [|split; [|split; [|split; [done|]]]]].
  - rewrite Hidx. apply merge_sort_strict, NoDup_remove_dups.
  - rewrite Hlab. apply merge_sort_strict, NoDup_remove_dups.
  - by rewrite Hval, length_fmap.
  - rewrite Hval. apply Forall_fmap, list.Forall_forall. intros y _. cbn.
    by rewrite length_fmap.
  - split; [done|]. split.
    + intros i j y pl cells Hi Hj Hv. rewrite (Hcell i j y pl cells) by done.
      split.
      * intros r Hr <- <-.
        apply Pivot.elem_of_agg in Hr as (p0 & y0 & Hk & ->).
        destruct (Pivot.agg_row_lookup p0 y0
                    (group_sum ["Platform"; "Year"] "Global_Sales"
                       [p0; y0] f)) as (-> & -> & ->).
        by rewrite Pivot.group_sum_cell.
      * intros Hnone. do 2 f_equal. rewrite <-Pivot.group_sum_cell.
        unfold group_sum, group. rewrite filter_none; [done|].
        apply list.Forall_forall. intros r Hr Hkr.
        unfold key_of in Hkr. cbn in Hkr. injection Hkr as Hrp Hry.
        apply list_elem_of_lookup_2 in Hi, Hj.
        apply Hiy in Hi as (r1 & Hr1 & Hy1).
        apply Hipl in Hj as (r2 & Hr2 & Hp2).
        apply Pivot.elem_of_agg in Hr1 as (p1 & y1 & Hk1 & ->).
        apply Pivot.elem_of_agg in Hr2 as (p2 & y2 & Hk2 & ->).
        rewrite (proj1 (proj2 (Pivot.agg_row_lookup _ _ _))) in Hy1.
        rewrite (proj1 (Pivot.agg_row_lookup _ _ _)) in Hp2. subst y1 p2.
        apply Pivot.group_key_iff in Hk1 as (_ & Hy & _).
        apply Pivot.group_key_iff in Hk2 as (Hpl & _).
        assert ([pl; y] ∈ group_keys ["Platform"; "Year"] f) as Hk.
        { apply Pivot.group_key_iff. eauto 10. }
        apply agg_row_of_key in Hk as (r0 & Hr0 & Hy0 & Hp0).
        by apply (Hnone r0).
    + intros r Hr.
      assert (r !!! "Year" ∈ index p) as Hi by (apply Hiy; eauto).
      assert (r !!! "Platform" ∈ labels p) as Hj by (apply Hipl; eauto).
      apply list_elem_of_lookup_1 in Hi as [i Hi].
      apply list_elem_of_lookup_1 in Hj as [j Hj].
      assert (∃ cells, values p !! i = Some cells) as [cells Hv].
      { rewrite Hval, list_lookup_fmap, Hi.
        cbn [fmap option_fmap option_map]. by eexists. }
      exists i, j, cells. split; [done|]. split; [done|]. split; [done|].
      rewrite (Hcell i j _ _ cells) by done.
      apply Pivot.elem_of_agg in Hr as (p0 & y0 & Hk & ->).
      destruct (Pivot.agg_row_lookup p0 y0
                  (group_sum ["Platform"; "Year"] "Global_Sales"
                     [p0; y0] f)) as (-> & -> & ->).
      by rewrite Pivot.group_sum_cell.
Qed.

(** X15.  The pivot of app_2.py, for the rows selected from a loaded table.  Its
    years are the years of the aggregation, which are the years of the
    selected rows that have a platform, and its platforms the platforms of
    the aggregation, both in strictly ascending order; it has a row of cells
    for every year and in each row a cell for every platform.  The cell of a
    year and a platform holds the amount of the row of the aggregation for
    the two, and [0] when the aggregation has no such row.  The last sort of
    the rows changes nothing. *)
Theorem pivot_shape (read_csv : reader) `{Quicksort} `{ToNumeric}
    (file : UploadedFile) (df : DataFrame)
    (selected_platforms selected_years : list cell) :
  App2.load_data read_csv file = Returned df →
  let f := App2.filtered selected_platforms selected_years df in
  let a := App2.agg f in
  let p := App2.pivot a in
  p = pivot_table "Year" "Platform" "Ventas_Globales" 0 a
  ∧ StronglySorted cell_lt (index p)
  ∧ StronglySorted cell_lt (labels p)
  ∧ length (values p) = length (index p)
  ∧ Forall (λ cells, length cells = length (labels p)) (values p)
  ∧ (∀ y, y ∈ index p ↔ ∃ r, r ∈ rows a ∧ r !!! "Year" = y)
  ∧ (∀ y, y ∈ index p
          ↔ ∃ r, r ∈ rows f ∧ r !!! "Year" = y ∧ r !!! "Platform" ≠ NaN)
  ∧ (∀ pl, pl ∈ labels p ↔ ∃ r, r ∈ rows a ∧ r !!! "Platform" = pl)
  ∧ (∀ i j y pl cells,
       index p !! i = Some y → labels p !! j = Some pl →
       values p !! i = Some cells →
       (∀ r, r ∈ rows a → r !!! "Year" = y → r !!! "Platform" = pl →
             cells !! j = Some (r !!! "Ventas_Globales"))
       ∧ ((∀ r, r ∈ rows a →
                ¬ (r !!! "Year" = y ∧ r !!! "Platform" = pl)) →
          cells !! j = Some (Num 0)))
  ∧ (∀ r, r ∈ rows a →
       ∃ i j cells,
         index p !! i = Some (r !!! "Year")
         ∧ labels p !! j = Some (r !!! "Platform")
         ∧ values p !! i = Some cells
         ∧ cells !! j = Some (r !!! "Ventas_Globales")).
Proof.
  intros Hload f a p.
  destruct (options_year read_csv file df Hload) as [_ Hyears].
  assert (∀ r, r ∈ rows f → r !!! "Year" ≠ NaN) as Hy.
  { intros r Hr. unfold f, App2.filtered in Hr. rewrite rows_select in Hr.
    apply list_elem_of_filter in Hr as [_ Hr].
    rewrite list.Forall_forall in Hyears. by apply Hyears. }
  destruct (pivot_shape_of f)
    as (Hp & Hsi & Hsl & Hlen & Hrect & Hiy & Hipl & Hcells & Hback).
  fold a in Hp, Hsi, Hsl, Hlen, Hrect, Hiy, Hipl, Hcells, Hback.
  fold p in Hp, Hsi, Hsl, Hlen, Hrect, Hiy, Hipl, Hcells, Hback.
  split; [done|]. do 4 (split; [done|]). split; [done|].
  split; [|done].
  intros y. rewrite Hp. unfold a. rewrite Pivot.elem_of_pivot_index. split.
  - intros (pl & Hk). apply Pivot.group_key_iff in Hk
      as (Hpl & _ & r & Hr & <- & <-). eauto.
  - intros (r & Hr & <- & Hpl). exists (r !!! "Platform").
    apply Pivot.group_key_iff. split; [done|]. split; [by apply Hy|]. eauto.
Qed.

Lemma pivot_shape_witness :
  @App2.load_data (Load.reading scenario) decimal_reader (mkFile [] 0)
  = Returned loaded_scenario
  ∧ index (@App2.pivot merge_quicksort
             (App2.agg (App2.filtered scenario_platforms scenario_years
                          loaded_scenario)))
    = scenario_years
  ∧ StronglySorted cell_lt
      (index (@App2.pivot merge_quicksort
                (App2.agg (App2.filtered scenario_platforms scenario_years
                             loaded_scenario)))).
Proof.
  split; [by vm_compute|]. split; [by vm_compute|].
  eapply (@pivot_shape (Load.reading scenario) merge_quicksort
            decimal_reader (mkFile [] 0)). by vm_compute.
Defined.

(** ** The best-selling platforms *)

(** The sales of a platform: the sum of [Global_Sales] over its rows. *)
Definition platform_sales (t : DataFrame) (p : cell) : Qc :=
  sum_cells ((λ r, r !!! "Global_Sales")
               <$> filter (λ r, r !!! "Platform" = p) (rows t)).

(** [top] lists best-selling platforms of [t]: platforms of the table, each
    once, in the order of their sales, the larger first, and none of the
    platforms left out sold more than one that is listed. *)
Definition best_selling (t : DataFrame) (top : list cell) : Prop :=
  NoDup top
  ∧ (∀ p, p ∈ top → p ≠ NaN ∧ ∃ r, r ∈ rows t ∧ r !!! "Platform" = p)
  ∧ StronglySorted (λ p q, platform_sales t q ≤ platform_sales t p) top
  ∧ (∀ p q r, p ∈ top → q ∉ top → q ≠ NaN →
              r ∈ rows t → r !!! "Platform" = q →
              platform_sales t q ≤ platform_sales t p).

Lemma platform_group_total (t : DataFrame) (g : gmap string cell) :
  g ∈ rows (groupby_sum ["Platform"] "Global_Sales" t) →
  g !!! "Platform" ≠ NaN
  ∧ g !!! "Global_Sales" = Num (platform_sales t (g !!! "Platform")).
Proof.
  intros Hg.
  apply total_groupby_sum in Hg as [Hk ->];
    [|apply NoDup_singleton|by apply (bool_decide_unpack _)].
  apply elem_of_group_keys in Hk as [Hk _].
  split; [by apply key_present_singleton in Hk|]. f_equal.
  unfold group_sum, group, platform_sales. do 2 f_equal.
  apply filter_ext_elem. intros r _. unfold key_of.
  rewrite !fmap_cons, !fmap_nil.
  split; [by intros [= ->]|by intros ->].
Qed.

Lemma rank_best_selling `{Quicksort} (n : nat) (t : DataFrame) :
  best_selling t (tolist "Platform" (StreamApp.rank n t))
  ∧ length (tolist "Platform" (StreamApp.rank n t))
    = n `min` length (rows (groupby_sum ["Platform"] "Global_Sales" t)).
Proof.
  set (G := groupby_sum ["Platform"] "Global_Sales" t).
  set (full := rows (sort_values "Global_Sales" false G)).
  destruct (ranked "Platform" "Global_Sales" t) as [Hperm Hsorted]; [done|].
  fold G in Hperm, Hsorted. fold full in Hperm, Hsorted.
  assert (tolist "Platform" (StreamApp.rank n t)
          = (λ g, g !!! "Platform") <$> take n full) as ->.
  { done. }
  assert (∀ g, g ∈ full →
               g !!! "Platform" ≠ NaN
               ∧ number (g !!! "Global_Sales")
                 = platform_sales t (g !!! "Platform")) as Htotal.
  { intros g Hg. rewrite Hperm in Hg.
    apply platform_group_total in Hg as [? ->]. done. }
  assert (StronglySorted
            (λ g1 g2, platform_sales t (g2 !!! "Platform")
                      ≤ platform_sales t (g1 !!! "Platform")) full)
    as Hsales.
  { eapply StronglySorted_weaken_elem; [|exact Hsorted].
    intros g1 g2 Hg1 Hg2. cbn beta.
    destruct (Htotal g1 Hg1) as [_ <-], (Htotal g2 Hg2) as [_ <-]. done. }
  assert (NoDup ((λ g, g !!! "Platform") <$> full)) as Hnd.
  { rewrite Hperm. apply platform_groups_NoDup. }
  rewrite <-(take_drop n full) in Hsales, Hnd.
  split;
    [|by rewrite length_fmap, length_take, (Permutation_length Hperm)].
  split; [|split; [|split]].
  - rewrite fmap_app in Hnd. by apply NoDup_app in Hnd as [? _].
  - intros p (g & -> & Hg)%list_elem_of_fmap.
    apply subseteq_take in Hg.
    split; [by apply Htotal|]. rewrite Hperm in Hg.
    by apply platform_group_row in Hg.
  - apply StronglySorted_app_1_l in Hsales.
    eapply (StronglySorted_fmap _ _ _ _ _ Hsales).
  - intros p q r (g & -> & Hg)%list_elem_of_fmap Hq Hqn Hr Hrq.
    destruct (platform_has_group t r Hr) as (gq & Hgq & Hgqp);
      [by rewrite Hrq|].
    rewrite Hrq in Hgqp. subst q.
    assert (gq ∈ take n full ++ drop n full) as Hin.
    { rewrite take_drop. by rewrite Hperm. }
    apply elem_of_app in Hin as [Hin|Hin].
    { destruct Hq. rewrite <-Hgqp. apply list_elem_of_fmap. by exists gq. }
    rewrite <-Hgqp.
    exact (StronglySorted_app_1_elem_of _ _ _ g gq Hsales Hg Hin).
  Unshelve. by intros x y Hxy.
Qed.

(** X16.  The platforms the sidebar selects at first, and the bars of the
    ranking, are best-selling platforms: platforms of the table, each once,
    ordered by their sales, the larger first; no platform left out sold
    more than one that is listed.  The sidebar lists [n] of them, the
    ranking twelve, or all the platforms when there are fewer. *)
Theorem top_platforms_best_selling `{Quicksort} `{ToNumeric} (df : DataFrame) (n : nat)
    (y0 y1 : Z) (selected : list cell) :
  let table := StreamApp.clean_df df in
  let fdf := StreamApp.fdf y0 y1 selected table in
  best_selling table (StreamApp.top_platforms table n)
  ∧ length (StreamApp.top_platforms table n)
    = n `min` length (remove_dups (tolist "Platform" table))
  ∧ best_selling fdf (tolist "Platform" (StreamApp.top_plat fdf))
  ∧ length (rows (StreamApp.top_plat fdf))
    = 12 `min` length (remove_dups (tolist "Platform" fdf)).
Proof.
  intros table fdf.
  assert (Forall (λ r, r !!! "Platform" ≠ NaN) (rows table)) as Ht.
  { apply list.Forall_forall. intros r Hr.
    by apply clean_df_typed in Hr as (_ & ? & _). }
  assert (Forall (λ r, r !!! "Platform" ≠ NaN) (rows fdf)) as Hf.
  { apply list.Forall_forall. intros r Hr.
    by apply rows_fdf_clean_typed in Hr as [_ ?]. }
  destruct (rank_best_selling n table) as [H1 H2].
  destruct (rank_best_selling 12 fdf) as [H3 H4].
  split; [exact H1|]. split; [|split; [exact H3|]].
  - unfold StreamApp.top_platforms. rewrite H2.
    by rewrite length_platform_groups.
  - unfold tolist in H4. rewrite length_fmap in H4.
    unfold StreamApp.top_plat. rewrite H4.
    by rewrite length_platform_groups.
Qed.
